(** * Reconciliation of log-collection configs against the remote log service

    A shallow embedding of [helper/envconfig/aliyunlog_operation_wrapper.go]
    (the [operationWrapper] and its reconciliation pass [updateConfigInner])
    and of the two helpers of [pkg/util/util.go] it relies on.

    The remote control plane is an interface in the source
    ([aliyunlog.ClientInterface]); here it is a record of state-passing
    operations over an arbitrary world [W], so every theorem of the generic
    part holds for every client.  Each remote call is recorded, with its
    arguments and its error outcome, in the list of events a computation
    returns: call counts and call arguments are read off that list.

    Left out: log lines ([logger.Info] and friends) and the notifications sent
    to the Kubernetes event recorder; neither has any influence on control
    flow, on the caches or on the remote calls.  The reader/writer lock of the
    wrapper is not modelled either: a pass is modelled as it runs on its own. *)

From Stdlib Require Import ZArith Lia Ascii.
From stdpp Require Import base strings list gmap.

#[local] Set Warnings "-register-all".

Local Open Scope Z_scope.

(** ** Go values *)

(** [len(s)] of a Go string: its number of bytes. *)
Definition len (s : string) : Z := Z.of_nat (String.length s).

(** A Go [error] value: the text [err.Error()] gives, and, when the dynamic
    type is a pointer to [aliyunlog.Error], its [HTTPCode] and [Code]. *)
Record error : Type := {
  errorText : string;
  slsError : option (Z * string)
}.

(** [fmt.Errorf]: a fresh error of the plain kind. *)
Definition Errorf (text : string) : error :=
  {| errorText := text; slsError := None |}.

(** The type assertion of [err] to a pointer to [aliyunlog.Error], followed
    by the test [slsErr.Code == code]. *)
Definition hasSlsCode (code : string) (e : error) : bool :=
  match slsError e with
  | Some (_, c) => bool_decide (c = code)
  | None => false
  end.

(** The dynamic values an [interface{}] of a config detail holds, as
    [encoding/json] decodes them.  Numbers are kept as integers. *)
Inductive Value : Type :=
| VNil
| VBool (b : bool)
| VNumber (n : Z)
| VString (s : string)
| VSlice (l : list Value)
| VMap (m : gmap string Value).

(** [m[k]] on a [map[string]interface{}]: the nil interface when absent. *)
Definition index (m : gmap string Value) (k : string) : Value :=
  default VNil (m !! k).

(** [v.(map[string]interface{})]. *)
Definition asMap (v : Value) : option (gmap string Value) :=
  match v with
  | VMap m => Some m
  | _ => None
  end.

(** [util.InterfaceToString]. *)
Definition InterfaceToString (val : Value) : string * bool :=
  match val with
  | VString strVal => (strVal, true)
  | _ => ("", false)
  end.

(** ** Time *)

(** A [time.Time] is an instant in nanoseconds; a [time.Duration] is a signed
    64-bit count of nanoseconds. *)
Definition minDuration : Z := - 2 ^ 63.
Definition maxDuration : Z := 2 ^ 63 - 1.

Definition wrap64 (z : Z) : Z := (z + 2 ^ 63) mod 2 ^ 64 - 2 ^ 63.

(** Product of two durations, as Go multiplies two [int64]. *)
Definition Duration_mul (a b : Z) : Z := wrap64 (a * b).

Definition Millisecond : Z := 1000000.
Definition Second : Z := 1000000000.

(** [t.Sub(u)]: the difference, saturated to the range of a duration. *)
Definition Time_Sub (t u : Z) : Z :=
  if t - u <? minDuration then minDuration
  else if maxDuration <? t - u then maxDuration
  else t - u.

(** ** Data of the log service SDK the wrapper handles *)

Record OutputDetail : Type := {
  ProjectName : string;
  LogStoreName : string
}.

(** [aliyunlog.LogConfig], with the fields the wrapper reads or writes. *)
Record LogConfig : Type := {
  Name : string;
  InputType : string;
  InputDetail : Value;
  OutputType : string;
  OutputDetails : OutputDetail
}.

Definition InputTypeFile : string := "file".
Definition OutputTypeLogService : string := "LogService".
Definition MachineIDTypeUserDefined : string := "userdefined".

Record MachineGroup : Type := {
  GroupName : string;
  MachineIDType : string;
  MachineIDList : list string
}.

Record IndexKey : Type := {
  KeyToken : list string;
  KeyCaseSensitive : bool;
  KeyType : string;
  DocValue : bool
}.

Record IndexLine : Type := {
  LineToken : list string;
  LineCaseSensitive : bool
}.

Record Index : Type := {
  Line : option IndexLine;
  Keys : list (string * IndexKey)
}.

Definition chr (n : nat) : string := String (Ascii.ascii_of_nat n) EmptyString.

Definition defaultTokens : list string :=
  [" "; chr 10; chr 9; chr 13; ","; ";"; "["; "]"; "{"; "}"; "("; ")"; "&";
   "^"; "*"; "#"; "@"; "~"; "="; "<"; ">"; "/"; chr 92; "?"; ":"; "'"; chr 34].

(** [createDefaultK8SIndex]. *)
Definition createDefaultK8SIndex : Index :=
  let normalIndexKey :=
    {| KeyToken := defaultTokens; KeyCaseSensitive := false;
       KeyType := "text"; DocValue := true |} in
  {| Line := Some {| LineToken := defaultTokens; LineCaseSensitive := false |};
     Keys := [("__tag__:__hostname__", normalIndexKey);
              ("__tag__:__path__", normalIndexKey);
              ("__tag__:_container_ip_", normalIndexKey);
              ("__tag__:_container_name_", normalIndexKey);
              ("__tag__:_image_name_", normalIndexKey);
              ("__tag__:_namespace_", normalIndexKey);
              ("__tag__:_pod_name_", normalIndexKey);
              ("__tag__:_pod_uid_", normalIndexKey);
              ("_container_ip_", normalIndexKey);
              ("_container_name_", normalIndexKey);
              ("_image_name_", normalIndexKey);
              ("_namespace_", normalIndexKey);
              ("_pod_name_", normalIndexKey);
              ("_pod_uid_", normalIndexKey);
              ("_source_", normalIndexKey)] |}.

(** Modelled from the spec: the declaration of the detail embedded in
    [AliyunLogConfigSpec] is not among the sources; the fields are those
    [updateConfigInner] reads as [config.LogtailConfig.ConfigName],
    [config.LogtailConfig.InputType] (here [DeclaredInputType], the name
    [InputType] being that of the remote config) and
    [config.LogtailConfig.LogtailConfig]. *)
Record AliyunLogConfigDetail : Type := {
  ConfigName : string;
  DeclaredInputType : string;
  LogtailConfig : gmap string Value
}.

(** Modelled from the spec: the declaration of [AliyunLogConfigSpec] is not
    among the sources; the fields are those [updateConfigInner] reads, with
    the types section 3 of the specification gives them.  [ShardCount] and
    [LifeCycle] are optional; [Detail] is the field [LogtailConfig]. *)
Record AliyunLogConfigSpec : Type := {
  Project : string;
  Logstore : string;
  ShardCount : option Z;
  LifeCycle : option Z;
  ProductCode : string;
  ProductLang : string;
  MachineGroups : list string;
  SimpleConfig : bool;
  Detail : AliyunLogConfigDetail
}.

(** Modelled from the spec: the package [flags] is not among the sources;
    these are the four knobs of section 6 the wrapper dereferences. *)
Class Flags : Type := {
  LogOperationMaxRetryTimes : Z;
  LogResourceCacheExpireSec : Z;
  DefaultLogMachineGroup : string;
  DefaultRegion : string
}.

(** ** Remote calls and their record *)

Inductive Call : Type :=
| CallCheckProjectExist (project : string)
| CallCreateProject (project description : string)
| CallCheckLogstoreExist (project logstore : string)
| CallCreateLogStore (project logstore : string) (ttl shardCnt : Z)
                     (autoSplit : bool) (maxSplitShard : Z)
| CallCreateIndex (project logstore : string) (index : Index)
| CallCreateProductLogstore (region project logstore product lang : string)
| CallGetConfig (project config : string)
| CallCreateConfig (project : string) (config : LogConfig)
| CallUpdateConfig (project : string) (config : LogConfig)
| CallCheckMachineGroupExist (project machineGroup : string)
| CallCreateMachineGroup (project : string) (m : MachineGroup)
| CallGetAppliedMachineGroups (project config : string)
| CallApplyConfigToMachineGroup (project config machineGroup : string).

Record Event : Type := {
  call : Call;
  outcome : option error
}.

Definition failed (ev : Event) : Prop := outcome ev ≠ None.

(** The remote calls that write to the control plane. *)
Definition mutating (c : Call) : bool :=
  match c with
  | CallCreateProject _ _ | CallCreateLogStore _ _ _ _ _ _
  | CallCreateIndex _ _ _ | CallCreateProductLogstore _ _ _ _ _
  | CallCreateConfig _ _ | CallUpdateConfig _ _
  | CallCreateMachineGroup _ _ | CallApplyConfigToMachineGroup _ _ _ => true
  | _ => false
  end.

Definition isUpdateConfig (c : Call) : bool :=
  match c with CallUpdateConfig _ _ => true | _ => false end.
Definition isCreateConfig (c : Call) : bool :=
  match c with CallCreateConfig _ _ => true | _ => false end.
Definition isGetConfig (c : Call) : bool :=
  match c with CallGetConfig _ _ => true | _ => false end.
Definition isCreateMachineGroup (c : Call) : bool :=
  match c with CallCreateMachineGroup _ _ => true | _ => false end.
Definition isCheckLogstoreExist (c : Call) : bool :=
  match c with CallCheckLogstoreExist _ _ => true | _ => false end.
Definition isCreateLogStore (c : Call) : bool :=
  match c with CallCreateLogStore _ _ _ _ _ _ => true | _ => false end.
Definition isApplyConfigToMachineGroup (c : Call) : bool :=
  match c with CallApplyConfigToMachineGroup _ _ _ => true | _ => false end.

Definition isCheckMachineGroupExist (c : Call) : bool :=
  match c with CallCheckMachineGroupExist _ _ => true | _ => false end.
Definition isGetAppliedMachineGroups (c : Call) : bool :=
  match c with CallGetAppliedMachineGroups _ _ => true | _ => false end.

(** The calls of the last step of a pass, on machine groups. *)
Definition onMachineGroup (c : Call) : bool :=
  match c with
  | CallCheckMachineGroupExist _ _ | CallCreateMachineGroup _ _
  | CallGetAppliedMachineGroups _ _ | CallApplyConfigToMachineGroup _ _ _ => true
  | _ => false
  end.

(** The events of a run that are calls of one kind. *)
Definition callsOf (kind : Call -> bool) (evs : list Event) : list Event :=
  List.filter (fun ev => kind (call ev)) evs.

(** [aliyunlog.ClientInterface], the methods the wrapper calls, over the
    state [W] of the remote side. *)
Class ClientInterface (W : Type) : Type := {
  CheckProjectExist : string -> W -> (bool * option error) * W;
  CreateProject : string -> string -> W -> option error * W;
  CheckLogstoreExist : string -> string -> W -> (bool * option error) * W;
  CreateLogStore :
    string -> string -> Z -> Z -> bool -> Z -> W -> option error * W;
  CreateIndex : string -> string -> Index -> W -> option error * W;
  GetConfig : string -> string -> W -> (option LogConfig * option error) * W;
  CreateConfig : string -> LogConfig -> W -> option error * W;
  UpdateConfig : string -> LogConfig -> W -> option error * W;
  CheckMachineGroupExist : string -> string -> W -> (bool * option error) * W;
  CreateMachineGroup : string -> MachineGroup -> W -> option error * W;
  GetAppliedMachineGroups :
    string -> string -> W -> (list string * option error) * W;
  ApplyConfigToMachineGroup :
    string -> string -> string -> W -> option error * W
}.


(** What the wrapper uses besides the client: the package-level
    [CreateProductLogstore], the clock, [json.Marshal], and the wrapper's
    [addNecessaryInputConfigField], which is the SDK's completion of the
    input detail applied to [util.DeepCopy] of it (a round trip through JSON,
    taken to succeed on a detail that was itself decoded from JSON). *)
Class Platform (W : Type) : Type := {
  CreateProductLogstore :
    string -> string -> string -> string -> string -> W -> option error * W;
  time_Now : W -> Z;
  time_Sleep : Z -> W -> W;
  json_Marshal : Value -> string * option error;
  addNecessaryInputConfigField : gmap string Value -> gmap string Value
}.


(** The fields of [operationWrapper] besides the client and the lock.  The
    caches map a key to the instant of the last confirmation. *)
Module Wrapper.
Record operationWrapper : Type := {
  project : string;
  logstoreCacheMap : gmap string Z;
  configCacheMap : gmap string Z
}.
End Wrapper.
Export Wrapper.

(** ** Computations of the wrapper

    A computation reads and writes the wrapper and the world, and returns,
    besides its result, the remote calls it made, oldest first. *)

Record State (W : Type) : Type := {
  wrapper : operationWrapper;
  world : W
}.

Arguments wrapper {W} _.
Arguments world {W} _.

Definition M (W A : Type) : Type := State W -> A * State W * list Event.

Definition result {W A} (r : A * State W * list Event) : A := r.1.1.
Definition final {W A} (r : A * State W * list Event) : State W := r.1.2.
Definition events {W A} (r : A * State W * list Event) : list Event := r.2.

Definition ret {W A} (a : A) : M W A := fun s => (a, s, []).

Definition bind {W A B} (m : M W A) (f : A -> M W B) : M W B :=
  fun s =>
    let r := m s in
    let r' := f (result r) (final r) in
    (result r', final r', events r ++ events r').

Declare Scope go_scope.
Delimit Scope go_scope with go.
Notation "'do' x <- m ; k" := (bind m (fun x => k))
  (at level 10, x name, m at level 100, k at level 200) : go_scope.
Notation "m ;; k" := (bind m (fun _ => k))
  (at level 100, k at level 200, right associativity) : go_scope.
Local Open Scope go_scope.

(** One call of a remote operation [op], recorded as [c]. *)
Definition remote {W R} (c : Call) (errOf : R -> option error)
    (op : W -> R * W) : M W R :=
  fun s =>
    let r := op (world s) in
    (r.1, {| wrapper := wrapper s; world := r.2 |},
     [{| call := c; outcome := errOf r.1 |}]).

Definition getWrapper {W} : M W operationWrapper := fun s => (wrapper s, s, []).

Definition setWrapper {W} (o : operationWrapper) : M W unit :=
  fun s => (tt, {| wrapper := o; world := world s |}, []).

(** What a Go [for] body tells its loop. *)
Inductive Control : Type := Continue | Break.

(** [for i := 0; i < n; i++ { body }], the body threading the variables [L]
    it assigns and not reading [i]. *)
Fixpoint forRange {W L} (n : nat) (body : L -> M W (L * Control)) (l : L)
    : M W L :=
  match n with
  | O => ret l
  | S k =>
      do r <- body l;
      match r.2 with
      | Break => ret r.1
      | Continue => forRange k body r.1
      end
  end.

(** ** The operation wrapper *)

Section OperationWrapper.

Context {W : Type} {logClient : ClientInterface W} {platform : Platform W}
  {flags : Flags}.

Definition now : M W Z := fun s => (time_Now (world s), s, []).

Definition sleep (d : Z) : M W unit :=
  fun s =>
    (tt, {| wrapper := wrapper s; world := time_Sleep d (world s) |},
     []).

(** [util.InterfaceToJSONString]: the bytes [json.Marshal] gives, as a
    string, whatever the error. *)
Definition InterfaceToJSONString (val : Value) : string * option error :=
  json_Marshal val.

(** The bound of the retry loops, the flag [LogOperationMaxRetryTimes]. *)
Definition maxRetry : nat := Z.to_nat LogOperationMaxRetryTimes.

(** The validity window of a cache entry,
    [time.Second] times the flag [LogResourceCacheExpireSec] as a duration. *)
Definition cacheExpire : Z :=
  Duration_mul Second LogResourceCacheExpireSec.

Definition cacheKey (project resource : string) : string :=
  project +:+ "@@" +:+ resource.

Definition logstoreCacheExists (project logstore : string) : M W bool :=
  do o <- getWrapper;
  match logstoreCacheMap o !! cacheKey project logstore with
  | Some lastUpdateTime =>
      do t <- now;
      if Time_Sub t lastUpdateTime <? cacheExpire then ret true else ret false
  | None => ret false
  end.

Definition addLogstoreCache (project logstore : string) : M W unit :=
  do t <- now;
  do o <- getWrapper;
  setWrapper
    {| Wrapper.project := Wrapper.project o;
       logstoreCacheMap := <[cacheKey project logstore := t]> (logstoreCacheMap o);
       configCacheMap := configCacheMap o |}.

Definition configCacheExists (project config : string) : M W bool :=
  do o <- getWrapper;
  match configCacheMap o !! cacheKey project config with
  | Some lastUpdateTime =>
      do t <- now;
      if Time_Sub t lastUpdateTime <? cacheExpire then ret true else ret false
  | None => ret false
  end.

Definition addConfigCache (project config : string) : M W unit :=
  do t <- now;
  do o <- getWrapper;
  setWrapper
    {| Wrapper.project := Wrapper.project o;
       logstoreCacheMap := logstoreCacheMap o;
       configCacheMap := <[cacheKey project config := t]> (configCacheMap o) |}.

Definition removeConfigCache (project config : string) : M W unit :=
  do o <- getWrapper;
  setWrapper
    {| Wrapper.project := Wrapper.project o;
       logstoreCacheMap := logstoreCacheMap o;
       configCacheMap := delete (cacheKey project config) (configCacheMap o) |}.

Definition createProductLogstore (config : AliyunLogConfigSpec)
    (project logstore product lang : string) : M W (option error) :=
  do err <- remote
      (CallCreateProductLogstore DefaultRegion project logstore product lang)
      id
      (CreateProductLogstore DefaultRegion project logstore
         product lang);
  match err with
  | Some e => ret (Some e)
  | None => addLogstoreCache project logstore;; ret None
  end.

Definition makesureProjectExist (config : option AliyunLogConfigSpec)
    (project : string) : M W (option error) :=
  do r <- forRange maxRetry
      (fun _ : bool * option error =>
         do r <- remote (CallCheckProjectExist project) snd
             (CheckProjectExist project);
         match r.2 with
         | Some _ => sleep (Duration_mul Millisecond 1000);; ret (r, Continue)
         | None => ret (r, Break)
         end)
      (false, None);
  let ok := r.1 in
  let err := r.2 in
  if ok then ret None
  else
    forRange maxRetry
      (fun _ : option error =>
         do err <- remote
             (CallCreateProject project
                "k8s log project, created by alibaba cloud log controller")
             id
             (CreateProject project
                "k8s log project, created by alibaba cloud log controller");
         match err with
         | Some _ => sleep (Duration_mul Millisecond 1000);; ret (err, Continue)
         | None => ret (err, Break)
         end)
      err.

(** The retention passed to [CreateLogStore]. *)
Definition logstoreTTL (lifeCycle : Z) : Z :=
  if 0 <? lifeCycle then lifeCycle else 180.

(** The shard count passed to [CreateLogStore]. *)
Definition logstoreShardCount (shardCount : Z) : Z :=
  let shardCount := if shardCount <=? 0 then 2 else shardCount in
  if 10 <? shardCount then 10 else shardCount.

Definition makesureLogstoreExist (config : AliyunLogConfigSpec)
    (project logstore : string) (shardCount lifeCycle : Z)
    (product lang : string) : M W (option error) :=
  do cached <- logstoreCacheExists project logstore;
  if cached then ret None
  else if 0 <? len product then
    let lang := if len lang =? 0 then "cn" else lang in
    createProductLogstore config project logstore product lang
  else if String.prefix "audit-" logstore && (len logstore =? 39) then
    createProductLogstore config project logstore "k8s-audit" "cn"
  else
    do o <- getWrapper;
    do perr <- (if bool_decide (project = Wrapper.project o) then ret None
                else makesureProjectExist (Some config) project);
    match perr with
    | Some e => ret (Some e)
    | None =>
        do r <- forRange maxRetry
            (fun _ : bool * option error =>
               do r <- remote (CallCheckLogstoreExist project logstore) snd
                   (CheckLogstoreExist project logstore);
               match r.2 with
               | Some _ =>
                   sleep (Duration_mul Millisecond 100);; ret (r, Continue)
               | None => ret (r, Break)
               end)
            (false, None);
        let ok := r.1 in
        let err := r.2 in
        if ok then addLogstoreCache project logstore;; ret None
        else
          let ttl := logstoreTTL lifeCycle in
          let shardCount := logstoreShardCount shardCount in
          do err <- forRange maxRetry
              (fun _ : option error =>
                 do err <- remote
                     (CallCreateLogStore project logstore ttl shardCount true 32)
                     id
                     (CreateLogStore project logstore ttl shardCount
                        true 32);
                 match err with
                 | Some _ =>
                     sleep (Duration_mul Millisecond 100);; ret (err, Continue)
                 | None =>
                     addLogstoreCache project logstore;; ret (err, Break)
                 end)
              err;
          match err with
          | Some e => ret (Some e)
          | None =>
              sleep Second;;
              let index := createDefaultK8SIndex in
              do err <- forRange maxRetry
                  (fun _ : option error =>
                     do err <- remote (CallCreateIndex project logstore index) id
                         (CreateIndex project logstore index);
                     match err with
                     | Some _ =>
                         sleep (Duration_mul Millisecond 100);;
                         ret (err, Continue)
                     | None => ret (err, Break)
                     end)
                  err;
              ret None
          end
    end.

Definition makesureMachineGroupExist (project machineGroup : string)
    : M W (option error) :=
  do r <- forRange maxRetry
      (fun _ : bool * option error =>
         do r <- remote (CallCheckMachineGroupExist project machineGroup) snd
             (CheckMachineGroupExist project machineGroup);
         match r.2 with
         | Some _ => sleep (Duration_mul Millisecond 100);; ret (r, Continue)
         | None => ret (r, Break)
         end)
      (false, None);
  let ok := r.1 in
  let err := r.2 in
  if ok then ret None
  else
    let m := {| GroupName := machineGroup;
                MachineIDType := MachineIDTypeUserDefined;
                MachineIDList := [machineGroup] |} in
    forRange maxRetry
      (fun _ : option error =>
         do err <- remote (CallCreateMachineGroup project m) id
             (CreateMachineGroup project m);
         match err with
         | Some _ => sleep (Duration_mul Millisecond 100);; ret (err, Continue)
         | None => ret (err, Break)
         end)
      err.

(** [checkFileConfigChanged]: the four fields a simple config is patched on. *)
Definition checkFileConfigChanged
    (filePath filePattern includeEnv includeLabel : string)
    (serverConfigDetail : gmap string Value) : bool :=
  let serverFilePath := (InterfaceToString (index serverConfigDetail "logPath")).1 in
  let serverFilePattern :=
    (InterfaceToString (index serverConfigDetail "filePattern")).1 in
  let serverIncludeEnv :=
    (InterfaceToJSONString (index serverConfigDetail "dockerIncludeEnv")).1 in
  let serverIncludeLabel :=
    (InterfaceToJSONString (index serverConfigDetail "dockerIncludeLabel")).1 in
  bool_decide (filePath ≠ serverFilePath)
  || bool_decide (filePattern ≠ serverFilePattern)
  || bool_decide (includeEnv ≠ serverIncludeEnv)
  || bool_decide (includeLabel ≠ serverIncludeLabel).

(** The fetch of the remote config at the head of [updateConfigInner]: the
    loop assigns [ok], [serverConfig] and [err]. *)
Definition getConfigRetry (project configName : string) (err : option error)
    : M W (bool * option LogConfig * option error) :=
  forRange maxRetry
    (fun l : bool * option LogConfig * option error =>
       let ok := l.1.1 in
       do r <- remote (CallGetConfig project configName) snd
           (GetConfig project configName);
       let serverConfig := r.1 in
       let err := r.2 in
       match err with
       | Some e =>
           if hasSlsCode "ConfigNotExist" e
           then ret ((ok, serverConfig, err), Break)
           else ret ((ok, serverConfig, err), Continue)
       | None => ret ((true, serverConfig, err), Break)
       end)
    (false, None, err).

(** [for i < max { err = UpdateConfig(project, c); if err == nil { break } }]. *)
Definition updateConfigRetry (project : string) (c : LogConfig)
    (err : option error) : M W (option error) :=
  forRange maxRetry
    (fun _ : option error =>
       do err <- remote (CallUpdateConfig project c) id
           (UpdateConfig project c);
       match err with
       | None => ret (err, Break)
       | Some _ => ret (err, Continue)
       end)
    err.

(** The patch of a file config in simple mode: the body of the test on both
    input types being "file" in [updateConfigInner]. *)
Definition patchFileConfig (config : AliyunLogConfigSpec) (project : string)
    (serverConfig : LogConfig) (configDetail : gmap string Value)
    (err : option error) : M W (option error) :=
  let localDetail := LogtailConfig (Detail config) in
  let filePattern := (InterfaceToString (index localDetail "filePattern")).1 in
  let logPath := (InterfaceToString (index localDetail "logPath")).1 in
  let includeEnv :=
    (InterfaceToJSONString (index localDetail "dockerIncludeEnv")).1 in
  let includeLabel :=
    (InterfaceToJSONString (index localDetail "dockerIncludeLabel")).1 in
  if (0 <? len filePattern) && (0 <? len logPath) then
    if checkFileConfigChanged logPath filePattern includeEnv includeLabel
         configDetail
    then
      let configDetail := <["logPath" := VString logPath]> configDetail in
      let configDetail := <["filePattern" := VString filePattern]> configDetail in
      let configDetail :=
        <["dockerIncludeEnv" := index localDetail "dockerIncludeEnv"]>
          configDetail in
      let configDetail :=
        match configDetail !! "dockerIncludeLabel",
              localDetail !! "dockerIncludeLabel" with
        | Some _, Some label => <["dockerIncludeLabel" := label]> configDetail
        | _, _ => configDetail
        end in
      let serverConfig :=
        {| Name := Name serverConfig;
           InputType := InputType serverConfig;
           InputDetail := VMap configDetail;
           OutputType := OutputType serverConfig;
           OutputDetails := OutputDetails serverConfig |} in
      updateConfigRetry project serverConfig err
    else ret err
  else ret err.

(** The branch of [updateConfigInner] taken when the fetch found the config
    ([ok && serverConfig != nil]). *)
Definition updateExistingConfig (config : AliyunLogConfigSpec)
    (project : string) (aliyunLogConfig serverConfig : LogConfig)
    (err : option error) : M W (option error) :=
  if SimpleConfig config then
    let configDetail := default ∅ (asMap (InputDetail serverConfig)) in
    let ok := bool_decide (is_Some (asMap (InputDetail serverConfig))) in
    do err <-
      (if bool_decide (DeclaredInputType (Detail config) = "file")
          && bool_decide (InputType serverConfig = "file") && ok
       then patchFileConfig config project serverConfig configDetail err
       else ret err);
    if bool_decide (DeclaredInputType (Detail config) ≠ InputType serverConfig)
       && ok
    then updateConfigRetry project aliyunLogConfig err
    else ret err
  else ret err.

(** The other branch: the config is created. *)
Definition createConfigRetry (project : string) (aliyunLogConfig : LogConfig)
    (err : option error) : M W (option error) :=
  forRange maxRetry
    (fun _ : option error =>
       do err <- remote (CallCreateConfig project aliyunLogConfig) id
           (CreateConfig project aliyunLogConfig);
       match err with
       | None => ret (err, Break)
       | Some _ => ret (err, Continue)
       end)
    err.

(** The choice between the two branches, [if ok && serverConfig != nil]. *)
Definition createOrUpdateConfig (config : AliyunLogConfigSpec)
    (project : string) (aliyunLogConfig : LogConfig) (ok : bool)
    (serverConfig : option LogConfig) (err : option error)
    : M W (option error) :=
  match ok, serverConfig with
  | true, Some serverConfig =>
      updateExistingConfig config project aliyunLogConfig serverConfig err
  | _, _ => createConfigRetry project aliyunLogConfig err
  end.

(** The tail of [updateConfigInner]: the machine group and the binding.
    [ok] tells whether the fetch found the config. *)
Definition applyToMachineGroup (config : AliyunLogConfigSpec)
    (project : string) (ok : bool) : M W (option error) :=
  let configName := ConfigName (Detail config) in
  let machineGroup :=
    match MachineGroups config with
    | g :: _ => g
    | [] => DefaultLogMachineGroup
    end in
  makesureMachineGroupExist project machineGroup;;
  do checked <-
    (if ok then
       do r <- forRange maxRetry
           (fun _ : list string * option error =>
              do r <- remote (CallGetAppliedMachineGroups project configName) snd
                  (GetAppliedMachineGroups project configName);
              match r.2 with
              | None => ret (r, Break)
              | Some _ => ret (r, Continue)
              end)
           ([], None);
       let machineGroups := r.1 in
       match r.2 with
       | Some e =>
           ret (inl (Errorf ("GetAppliedMachineGroups error, config : "
                             +:+ configName +:+ ", error : " +:+ errorText e)))
       | None =>
           ret (inr (existsb (fun key => bool_decide (key = machineGroup))
                       machineGroups))
       end
     else ret (inr ok));
  match checked with
  | inl e => ret (Some e)
  | inr _ =>
      do err <- forRange maxRetry
          (fun _ : option error =>
             do err <- remote
                 (CallApplyConfigToMachineGroup project configName machineGroup)
                 id
                 (ApplyConfigToMachineGroup project configName
                    machineGroup);
             match err with
             | None => ret (err, Break)
             | Some _ => ret (err, Continue)
             end)
          None;
      match err with
      | Some e =>
          ret (Some (Errorf ("ApplyConfigToMachineGroup error, config : "
                             +:+ configName +:+ ", machine group : "
                             +:+ machineGroup +:+ ", error : " +:+ errorText e)))
      | None => addConfigCache project configName;; ret None
      end
  end.

(** The config object [updateConfigInner] builds from the declared spec. *)
Definition localLogConfig (config : AliyunLogConfigSpec)
    (project : string) : LogConfig :=
  let inputType :=
    if len (DeclaredInputType (Detail config)) =? 0 then InputTypeFile
    else DeclaredInputType (Detail config) in
  {| Name := ConfigName (Detail config);
     InputType := inputType;
     InputDetail :=
       VMap (addNecessaryInputConfigField (LogtailConfig (Detail config)));
     OutputType := OutputTypeLogService;
     OutputDetails :=
       {| ProjectName := project; LogStoreName := Logstore config |} |}.

(** The project a pass works on. *)
Definition targetProject (o : operationWrapper) (config : AliyunLogConfigSpec)
    : string :=
  if len (Project config) =? 0 then Wrapper.project o else Project config.

(** [updateConfigInner]: one reconciliation pass. *)
Definition updateConfigInner (config : AliyunLogConfigSpec)
    : M W (option error) :=
  do o <- getWrapper;
  let project := targetProject o config in
  let logstore := Logstore config in
  let shardCount := default 0 (ShardCount config) in
  let lifeCycle := default 0 (LifeCycle config) in
  let configName := ConfigName (Detail config) in
  do err <- makesureLogstoreExist config project logstore shardCount lifeCycle
      (ProductCode config) (ProductLang config);
  match err with
  | Some e =>
      ret (Some (Errorf ("Create logconfig error when update config, config : "
                         +:+ configName +:+ ", error : " +:+ errorText e)))
  | None =>
      let aliyunLogConfig := localLogConfig config project in
      do fetched <- getConfigRetry project configName err;
      let ok := fetched.1.1 in
      let serverConfig := fetched.1.2 in
      let err := fetched.2 in
      do err <- createOrUpdateConfig config project aliyunLogConfig ok
          serverConfig err;
      match err with
      | Some e =>
          ret (Some (Errorf ("UpdateConfig error, config : " +:+ configName
                             +:+ ", error : " +:+ errorText e)))
      | None => applyToMachineGroup config project ok
      end
  end.

Definition updateConfig (config : AliyunLogConfigSpec) : M W (option error) :=
  updateConfigInner config.

Definition createConfig (config : AliyunLogConfigSpec) : M W (option error) :=
  updateConfigInner config.

End OperationWrapper.

(** ** A remote side to run the wrapper against

    An in-memory control plane: it stores what is created and answers the
    queries from what it stores.  The calls selected by [faulty] fail with
    [boom] as long as the world holds a fault. *)

Record Remote : Type := {
  clock : Z;
  faults : nat;
  projects : list string;
  logstores : list (string * string);
  configs : list (string * LogConfig);
  machineGroups : list (string * string);
  applied : list (string * (string * string))
}.

Definition tick (d : Z) (w : Remote) : Remote :=
  {| clock := clock w + d; faults := faults w; projects := projects w;
     logstores := logstores w; configs := configs w;
     machineGroups := machineGroups w; applied := applied w |}.

Definition spendFault (k : nat) (w : Remote) : Remote :=
  {| clock := clock w; faults := k; projects := projects w;
     logstores := logstores w; configs := configs w;
     machineGroups := machineGroups w; applied := applied w |}.

Definition guarded {R} (faulty : Call -> bool) (c : Call) (onFault : R)
    (run : Remote -> R * Remote) (w : Remote) : R * Remote :=
  if faulty c then
    match faults w with
    | S k => (onFault, spendFault k w)
    | O => run w
    end
  else run w.

Definition hasPair (a b : string) (l : list (string * string)) : bool :=
  existsb (fun p => String.eqb p.1 a && String.eqb p.2 b) l.

Definition findConfig (project name : string) (l : list (string * LogConfig))
    : option LogConfig :=
  snd <$> List.find (fun p => String.eqb p.1 project && String.eqb (Name p.2) name) l.

Definition dropConfig (project name : string) (l : list (string * LogConfig))
    : list (string * LogConfig) :=
  List.filter (fun p => negb (String.eqb p.1 project && String.eqb (Name p.2) name)) l.

Definition configNotExist : error :=
  {| errorText := "config not exist"; slsError := Some (404, "ConfigNotExist") |}.

#[local] Instance mockClient (faulty : Call -> bool) (boom : error)
    : ClientInterface Remote := {|
  CheckProjectExist project :=
    guarded faulty (CallCheckProjectExist project) (false, Some boom)
      (fun w => ((existsb (String.eqb project) (projects w), None), w));
  CreateProject project description :=
    guarded faulty (CallCreateProject project description) (Some boom)
      (fun w =>
         (None,
          {| clock := clock w; faults := faults w;
             projects := project :: projects w; logstores := logstores w;
             configs := configs w; machineGroups := machineGroups w;
             applied := applied w |}));
  CheckLogstoreExist project logstore :=
    guarded faulty (CallCheckLogstoreExist project logstore) (false, Some boom)
      (fun w => ((hasPair project logstore (logstores w), None), w));
  CreateLogStore project logstore ttl shardCnt autoSplit maxSplitShard :=
    guarded faulty
      (CallCreateLogStore project logstore ttl shardCnt autoSplit maxSplitShard)
      (Some boom)
      (fun w =>
         (None,
          {| clock := clock w; faults := faults w; projects := projects w;
             logstores := (project, logstore) :: logstores w;
             configs := configs w; machineGroups := machineGroups w;
             applied := applied w |}));
  CreateIndex project logstore index :=
    guarded faulty (CallCreateIndex project logstore index) (Some boom)
      (fun w => (None, w));
  GetConfig project name :=
    guarded faulty (CallGetConfig project name) (None, Some boom)
      (fun w =>
         match findConfig project name (configs w) with
         | Some c => ((Some c, None), w)
         | None => ((None, Some configNotExist), w)
         end);
  CreateConfig project c :=
    guarded faulty (CallCreateConfig project c) (Some boom)
      (fun w =>
         (None,
          {| clock := clock w; faults := faults w; projects := projects w;
             logstores := logstores w; configs := (project, c) :: configs w;
             machineGroups := machineGroups w; applied := applied w |}));
  UpdateConfig project c :=
    guarded faulty (CallUpdateConfig project c) (Some boom)
      (fun w =>
         (None,
          {| clock := clock w; faults := faults w; projects := projects w;
             logstores := logstores w;
             configs := (project, c) :: dropConfig project (Name c) (configs w);
             machineGroups := machineGroups w; applied := applied w |}));
  CheckMachineGroupExist project machineGroup :=
    guarded faulty (CallCheckMachineGroupExist project machineGroup)
      (false, Some boom)
      (fun w => ((hasPair project machineGroup (machineGroups w), None), w));
  CreateMachineGroup project m :=
    guarded faulty (CallCreateMachineGroup project m) (Some boom)
      (fun w =>
         (None,
          {| clock := clock w; faults := faults w; projects := projects w;
             logstores := logstores w; configs := configs w;
             machineGroups := (project, GroupName m) :: machineGroups w;
             applied := applied w |}));
  GetAppliedMachineGroups project name :=
    guarded faulty (CallGetAppliedMachineGroups project name) ([], Some boom)
      (fun w =>
         ((List.map (fun p => p.2.2)
             (List.filter
                (fun p => String.eqb p.1 project && String.eqb p.2.1 name)
                (applied w)),
           None), w));
  ApplyConfigToMachineGroup project name machineGroup :=
    guarded faulty (CallApplyConfigToMachineGroup project name machineGroup)
      (Some boom)
      (fun w =>
         (None,
          {| clock := clock w; faults := faults w; projects := projects w;
             logstores := logstores w; configs := configs w;
             machineGroups := machineGroups w;
             applied := (project, (name, machineGroup)) :: applied w |}))
|}.

(** A marshaller for the values the examples use. *)
Definition mockMarshal (v : Value) : string * option error :=
  match v with
  | VNil => ("null", None)
  | VBool true => ("true", None)
  | VBool false => ("false", None)
  | VString s => (chr 34 +:+ s +:+ chr 34, None)
  | _ => ("", Some (Errorf "json: unsupported value"))
  end.

#[local] Instance mockPlatform (faulty : Call -> bool) (boom : error)
    : Platform Remote := {|
  CreateProductLogstore region project logstore product lang :=
    guarded faulty
      (CallCreateProductLogstore region project logstore product lang)
      (Some boom)
      (fun w =>
         (None,
          {| clock := clock w; faults := faults w; projects := projects w;
             logstores := (project, logstore) :: logstores w;
             configs := configs w; machineGroups := machineGroups w;
             applied := applied w |}));
  time_Now := clock;
  time_Sleep := tick;
  json_Marshal := mockMarshal;
  addNecessaryInputConfigField := fun m => m
|}.

#[local] Instance mockFlags : Flags := {|
  LogOperationMaxRetryTimes := 3;
  LogResourceCacheExpireSec := 600;
  DefaultLogMachineGroup := "k8s-group";
  DefaultRegion := "cn-hangzhou"
|}.

Definition boom : error := {| errorText := "boom"; slsError := Some (500, "InternalServerError") |}.

Definition noFault (c : Call) : bool := false.

(** An empty control plane at instant [1000] seconds, holding [n] faults. *)
Definition freshRemote (n : nat) : Remote :=
  {| clock := 1000 * Second; faults := n; projects := ["k8s-log"]; logstores := [];
     configs := []; machineGroups := []; applied := [] |}.

Definition freshState (n : nat) : State Remote :=
  {| wrapper := {| Wrapper.project := "k8s-log"; logstoreCacheMap := ∅;
                   configCacheMap := ∅ |};
     world := freshRemote n |}.

Definition appDetail : gmap string Value :=
  <["logPath" := VString "/var/log/app"]> (<["filePattern" := VString "*.log"]> ∅).

Definition appConfig : AliyunLogConfigSpec :=
  {| Project := ""; Logstore := "app-log"; ShardCount := None; LifeCycle := None;
     ProductCode := ""; ProductLang := ""; MachineGroups := [];
     SimpleConfig := true;
     Detail := {| ConfigName := "app-config"; DeclaredInputType := "file";
                  LogtailConfig := appDetail |} |}.

(** One pass, against the mock that fails the calls [faulty] selects. *)
Definition mockPass (faulty : Call -> bool) (config : AliyunLogConfigSpec)
    (s : State Remote) : option error * State Remote * list Event :=
  updateConfigInner (logClient := mockClient faulty boom)
    (platform := mockPlatform faulty boom) config s.

(** The state a first pass over [appConfig] leaves behind. *)
Definition afterFirstPass : State Remote :=
  final (mockPass noFault appConfig (freshState 0)).

(** [appConfig] declared with another input type. *)
Definition pluginConfig : AliyunLogConfigSpec :=
  {| Project := ""; Logstore := "app-log"; ShardCount := None; LifeCycle := None;
     ProductCode := ""; ProductLang := ""; MachineGroups := [];
     SimpleConfig := true;
     Detail := {| ConfigName := "app-config"; DeclaredInputType := "plugin";
                  LogtailConfig := appDetail |} |}.

(** [appConfig] with another file pattern and no log path. *)
Definition noPathConfig : AliyunLogConfigSpec :=
  {| Project := ""; Logstore := "app-log"; ShardCount := None; LifeCycle := None;
     ProductCode := ""; ProductLang := ""; MachineGroups := [];
     SimpleConfig := true;
     Detail := {| ConfigName := "app-config"; DeclaredInputType := "file";
                  LogtailConfig := <["filePattern" := VString "*.txt"]> ∅ |} |}.

(** The audit logstore of the source's comment. *)
Definition auditLogstore : string := "audit-cfc281c9c4ca548638a1aaa765d8f220d".

(** A wrapper that confirmed "app-log" 100 seconds before the clock of
    [freshRemote]. *)
Definition cachedState : State Remote :=
  {| wrapper := {| Wrapper.project := "k8s-log";
                   logstoreCacheMap := {["k8s-log@@app-log" := 900 * Second]};
                   configCacheMap := ∅ |};
     world := freshRemote 0 |}.

(** ** The string helpers of [pkg/util]

    Go strings are byte strings, as are the strings here.  The functions of
    the package [strings] and the slice expression are written out; a slice
    expression out of range is a run-time panic, here [None]. *)

Fixpoint takeBytes (n : nat) (s : string) : string :=
  match n, s with
  | S n', String a s' => String a (takeBytes n' s')
  | _, _ => EmptyString
  end.

Fixpoint dropBytes (n : nat) (s : string) : string :=
  match n, s with
  | S n', String _ s' => dropBytes n' s'
  | _, _ => s
  end.

(** [s[lo:hi]]. *)
Definition slice (s : string) (lo hi : Z) : option string :=
  if (0 <=? lo) && (lo <=? hi) && (hi <=? len s)
  then Some (takeBytes (Z.to_nat (hi - lo)) (dropBytes (Z.to_nat lo) s))
  else None.

(** [s[lo:]]. *)
Definition sliceFrom (s : string) (lo : Z) : option string := slice s lo (len s).

(** [strings.IndexByte]: the index of the first [c], or -1. *)
Fixpoint IndexByte (s : string) (c : ascii) : Z :=
  match s with
  | EmptyString => -1
  | String a s' =>
      if Ascii.eqb a c then 0
      else let i := IndexByte s' c in if i <? 0 then -1 else i + 1
  end.

(** [strings.LastIndexByte]: the index of the last [c], or -1. *)
Fixpoint LastIndexByte (s : string) (c : ascii) : Z :=
  match s with
  | EmptyString => -1
  | String a s' =>
      let i := LastIndexByte s' c in
      if 0 <=? i then i + 1 else if Ascii.eqb a c then 0 else -1
  end.

(** [strings.HasPrefix]. *)
Definition HasPrefix (s prefix : string) : bool := String.prefix prefix s.

(** [strings.HasSuffix]. *)
Definition HasSuffix (s suffix : string) : bool :=
  (String.length suffix <=? String.length s)%nat
  && String.eqb (dropBytes (String.length s - String.length suffix) s) suffix.

(** [strings.TrimPrefix]. *)
Definition TrimPrefix (s prefix : string) : string :=
  if HasPrefix s prefix then dropBytes (String.length prefix) s else s.

(** The test [c < 33 || c > 126] of [ReadFirstBlock], negated. *)
Definition printable (c : ascii) : bool :=
  (33 <=? nat_of_ascii c)%nat && (nat_of_ascii c <=? 126)%nat.

(** [ReadFirstBlock]: the bytes before the first rune below 33 or above 126.
    The loop ranges over runes; every byte it passes before stopping is a
    one-byte rune between 33 and 126, and a byte of 128 or more starts a rune
    above 126 (the replacement rune when the bytes are not UTF-8), so the
    index it stops at is that of the first byte outside 33..126. *)
Fixpoint ReadFirstBlock (line : string) : string :=
  match line with
  | EmptyString => EmptyString
  | String c rest =>
      if printable c then String c (ReadFirstBlock rest) else EmptyString
  end.

(** [CutString]. *)
Definition CutString (val : string) (maxLen : Z) : option string :=
  if len val <? maxLen then Some val else slice val 0 maxLen.

(** [SplitPath]. *)
Definition SplitPath (path : string) : option (string * string) :=
  let lastIndex := LastIndexByte path "/"%char in
  let lastIndex2 := LastIndexByte path "\"%char in
  if (lastIndex <? 0) && (lastIndex2 <? 0) then Some ("", "")
  else
    let index := if lastIndex2 <? lastIndex then lastIndex else lastIndex2 in
    dir ← slice path 0 index;
    filename ← sliceFrom path (index + 1);
    Some (dir, filename).

(** [GuessRegionByEndpoint]. *)
Definition GuessRegionByEndpoint (endPoint defaultRegion : string)
    : option string :=
  endPoint ←
    (if HasPrefix endPoint "http://" then sliceFrom endPoint (len "http://")
     else Some (TrimPrefix endPoint "https://"));
  let dotIndex := IndexByte endPoint "."%char in
  if 0 <? dotIndex then
    region ← slice endPoint 0 dotIndex;
    if HasSuffix region "-intranet" || HasSuffix region "-vpc"
       || HasSuffix region "-share"
    then slice region 0 (LastIndexByte region "-"%char)
    else Some region
  else Some defaultRegion.

(** [MinInt]. *)
Definition MinInt (a b : Z) : Z := if a <? b then a else b.

Definition alphanum : string :=
  "0123456789ABCDEFGHIJKLMNOPQRSTUVWXYZabcdefghijklmnopqrstuvwxyz".

(** [alphanum[b%byte(len(alphanum))]]; the index is in range. *)
Definition alphanumAt (b : ascii) : ascii :=
  default "0"%char
    (String.get (nat_of_ascii b mod String.length alphanum) alphanum).

(** [RandomString], from the bytes [rand.Read] left in the slice. *)
Definition RandomString (slice : list ascii) : string :=
  String.string_of_list_ascii (List.map alphanumAt slice).

(** The 256 values of a byte. *)
Definition allBytes : list ascii := List.map ascii_of_nat (seq 0 256).

(** What [SnakeCase] takes from the packages [unicode] and [unicode/utf8]:
    the case tests and the lowering of a rune, and the conversions between a
    string and its runes. *)
Class Unicode : Type := {
  IsUpper : Z -> bool;
  IsLower : Z -> bool;
  ToLower : Z -> Z;
  runesOf : string -> list Z;
  stringOf : list Z -> string
}.

(** The rune of the underscore. *)
Definition underscore : Z := 95.

(** The loop of [SnakeCase] from index [i]: [prev] is [runes[i-1]], absent at
    index 0, and the list holds [runes[i]] and what follows. *)
Fixpoint snakeFrom `{Unicode} (prev : option Z) (runes : list Z) : list Z :=
  match runes with
  | [] => []
  | r :: rest =>
      let separate :=
        match prev with
        | None => false
        | Some p =>
            IsUpper r
            && (match rest with
                | next :: _ => IsLower next
                | [] => false
                end
                || IsLower p)
        end in
      (if separate then [underscore] else []) ++ ToLower r :: snakeFrom (Some r) rest
  end.

(** [SnakeCase]. *)
Definition SnakeCase `{Unicode} (input : string) : string :=
  stringOf (snakeFrom None (runesOf input)).

(** The runes and the case of ASCII, to run [SnakeCase] on ASCII strings. *)
#[local] Instance asciiUnicode : Unicode := {|
  IsUpper r := (65 <=? r) && (r <=? 90);
  IsLower r := (97 <=? r) && (r <=? 122);
  ToLower r := if (65 <=? r) && (r <=? 90) then r + 32 else r;
  runesOf s := List.map (fun c => Z.of_nat (nat_of_ascii c)) (String.list_ascii_of_string s);
  stringOf l := String.string_of_list_ascii (List.map (fun r => ascii_of_nat (Z.to_nat r)) l)
|}.

(** ** The other operations of the wrapper *)

(** [configCheckPoint]. *)
Module CheckPoint.
Record configCheckPoint : Type := {
  ProjectName : string;
  ConfigName : string
}.
End CheckPoint.

(** The method [DeleteConfig] of [aliyunlog.ClientInterface].  No pass calls
    it, and its calls are not entered in the record of events. *)
Class ConfigDeletion (W : Type) : Type := {
  DeleteConfig : string -> string -> W -> option error * W
}.

(** One call of a remote operation that is not recorded. *)
Definition unrecorded {W R} (op : W -> R * W) : M W R :=
  fun s =>
    let r := op (world s) in
    (r.1, {| wrapper := wrapper s; world := r.2 |}, []).

(** The type assertion of [err] to a pointer to [aliyunlog.Error], followed
    by the test [sdkError.HTTPCode == code]. *)
Definition hasHTTPCode (code : Z) (e : error) : bool :=
  match slsError e with
  | Some (http, _) => http =? code
  | None => false
  end.

(** The project a call is made on. *)
Definition callProject (c : Call) : string :=
  match c with
  | CallCheckProjectExist project => project
  | CallCreateProject project _ => project
  | CallCheckLogstoreExist project _ => project
  | CallCreateLogStore project _ _ _ _ _ => project
  | CallCreateIndex project _ _ => project
  | CallCreateProductLogstore _ project _ _ _ => project
  | CallGetConfig project _ => project
  | CallCreateConfig project _ => project
  | CallUpdateConfig project _ => project
  | CallCheckMachineGroupExist project _ => project
  | CallCreateMachineGroup project _ => project
  | CallGetAppliedMachineGroups project _ => project
  | CallApplyConfigToMachineGroup project _ _ => project
  end.

Definition isCreateProject (c : Call) : bool :=
  match c with CallCreateProject _ _ => true | _ => false end.
Definition isCreateIndex (c : Call) : bool :=
  match c with CallCreateIndex _ _ _ => true | _ => false end.

Section OtherOperations.

Context {W : Type} {logClient : ClientInterface W} {platform : Platform W}
  {flags : Flags} {deletion : ConfigDeletion W}.

(** [retryCreateIndex]. *)
Definition retryCreateIndex (project logstore : string) : M W unit :=
  sleep (Duration_mul Second 10);;
  let index := createDefaultK8SIndex in
  forRange 10
    (fun _ : unit =>
       do err <- remote (CallCreateIndex project logstore index) id
           (CreateIndex project logstore index);
       match err with
       | Some e =>
           if hasSlsCode "IndexAlreadyExist" e then ret (tt, Break)
           else sleep (Duration_mul Second 10);; ret (tt, Continue)
       | None => ret (tt, Break)
       end)
    tt.

(** [deleteConfig].  The loop assigns [err]; the flag beside it tells that the
    function returned nil from inside the loop. *)
Definition deleteConfig (checkpoint : CheckPoint.configCheckPoint)
    : M W (option error) :=
  let projectName := CheckPoint.ProjectName checkpoint in
  let configName := CheckPoint.ConfigName checkpoint in
  do r <- forRange maxRetry
      (fun _ : option error * bool =>
         do err <- unrecorded (DeleteConfig projectName configName);
         match err with
         | None => removeConfigCache projectName configName;; ret ((err, true), Break)
         | Some e =>
             if hasHTTPCode 404 e
             then removeConfigCache projectName configName;; ret ((err, true), Break)
             else sleep (Duration_mul Millisecond 100);; ret ((err, false), Continue)
         end)
      (None, false);
  let err := r.1 in
  let returned := r.2 in
  if returned then ret None
  else
    match err with
    | Some e =>
        ret (Some (Errorf ("DeleteConfig error, config : " +:+ configName
                           +:+ ", error : " +:+ errorText e)))
    | None => ret err
    end.

(** [createAliyunLogOperationWrapper], once the client is built: [created] is
    the error of [CreateTokenAutoUpdateClient] when the flag [AliCloudECSFlag]
    asks for that client, and none otherwise.  It returns the wrapper, or
    the error. *)
Definition createAliyunLogOperationWrapper (created : option error)
    (project : string) (w : W)
    : (option operationWrapper * option error) * W * list Event :=
  match created with
  | Some e => ((None, Some e), w, [])
  | None =>
      let wrapper :=
        {| Wrapper.project := project; logstoreCacheMap := ∅;
           configCacheMap := ∅ |} in
      let run :=
        (do err <- forRange 1
             (fun _ : option error =>
                do err <- makesureProjectExist None project;
                match err with
                | None => ret (err, Break)
                | Some _ => sleep (Duration_mul Second 30);; ret (err, Continue)
                end)
             None;
         forRange 3
           (fun _ : option error =>
              do err <- makesureMachineGroupExist project DefaultLogMachineGroup;
              match err with
              | None => ret (err, Break)
              | Some _ => sleep (Duration_mul Second 30);; ret (err, Continue)
              end)
           err)
          {| wrapper := wrapper; world := w |} in
      match result run with
      | Some e => ((None, Some e), world (final run), events run)
      | None => ((Some wrapper, None), world (final run), events run)
      end
  end.

End OtherOperations.

(** A remote side that deletes any config, but fails, with the status 404 or
    with the status 500, as long as it holds a fault. *)
#[local] Instance mockDeletion (status : Z) : ConfigDeletion Remote := {|
  DeleteConfig project name w :=
    match faults w with
    | S k =>
        (Some {| errorText := "delete failed"; slsError := Some (status, "Failed") |},
         spendFault k w)
    | O =>
        (None,
         {| clock := clock w; faults := faults w; projects := projects w;
            logstores := logstores w;
            configs := dropConfig project name (configs w);
            machineGroups := machineGroups w; applied := applied w |})
    end
|}.

(** ** Vocabulary of the statements *)

(** Every remote call [m] makes, from every state, satisfies [P]. *)
Definition emits {W A} (P : Event -> Prop) (m : M W A) : Prop :=
  forall s, Forall P (events (m s)).

(** The event is not a call of the given kind. *)
Definition notCall (kind : Call -> bool) (ev : Event) : Prop :=
  kind (call ev) = false.

(** [m] makes no remote call and leaves wrapper and world as they are. *)
Definition readOnly {W A} (m : M W A) : Prop :=
  forall s, final (m s) = s /\ events (m s) = [].

(** The arguments of a [CreateLogStore] call for the declared shard count and
    life cycle. *)
Definition clamped (shardCount lifeCycle : Z) (ev : Event) : Prop :=
  match call ev with
  | CallCreateLogStore _ _ ttl shardCnt _ _ =>
      (shardCount <= 0 -> shardCnt = 2)
      /\ (10 < shardCount -> shardCnt = 10)
      /\ (1 <= shardCount <= 10 -> shardCnt = shardCount)
      /\ 1 <= shardCnt <= 10
      /\ (lifeCycle <= 0 -> ttl = 180)
      /\ (0 < lifeCycle -> ttl = lifeCycle)
  | _ => True
  end.

(** The error a retry loop ends with: the outcome of its last call, or the
    error it started with when it made no call. *)
Definition lastOutcome (init : option error) (evs : list Event) : option error :=
  match last evs with
  | Some ev => outcome ev
  | None => init
  end.

(** [evs] is the record of one retry loop of bound [n] on the call [c]: only
    calls [c], at most [n] of them, at least one unless the bound is zero,
    every call but the last failed, and a failed last call is the [n]-th. *)
Definition retried (c : Call) (n : nat) (evs : list Event) : Prop :=
  Forall (fun ev => call ev = c) evs
  /\ (length evs <= n)%nat
  /\ (evs = [] -> n = O)
  /\ (forall pre ev, evs = pre ++ [ev] ->
       Forall failed pre /\ (failed ev -> length evs = n)).

(** A loop body that makes the one call [c], leaves its outcome in the loop's
    error variable and breaks exactly on success. *)
Definition attempts {W L} (c : Call) (errOf : L -> option error)
    (body : L -> M W (L * Control)) : Prop :=
  forall l s,
    events (body l s) = [{| call := c; outcome := errOf (result (body l s)).1 |}]
    /\ ((result (body l s)).2 = Break <-> errOf (result (body l s)).1 = None).

(** The call failed with an error other than the code "ConfigNotExist". *)
Definition failedOtherwise (ev : Event) : Prop :=
  exists e, outcome ev = Some e /\ hasSlsCode "ConfigNotExist" e = false.





Section Steps.

Context {W : Type} {logClient : ClientInterface W} {platform : Platform W}
  {flags : Flags}.


(** The first step of a pass from [s]: the logstore is provisioned. *)
Definition logstoreStep (config : AliyunLogConfigSpec) (s : State W)
    : option error * State W * list Event :=
  makesureLogstoreExist config (targetProject (wrapper s) config)
    (Logstore config) (default 0 (ShardCount config))
    (default 0 (LifeCycle config)) (ProductCode config) (ProductLang config) s.

(** Its second step: the remote config is fetched. *)
Definition fetchStep (config : AliyunLogConfigSpec) (s : State W)
    : bool * option LogConfig * option error * State W * list Event :=
  getConfigRetry (targetProject (wrapper s) config) (ConfigName (Detail config))
    None (final (logstoreStep config s)).

(** The pass from [s] takes the update path: the logstore step succeeded and
    the fetch returned [serverConfig]. *)
Definition foundRemote (config : AliyunLogConfigSpec) (s : State W)
    (serverConfig : LogConfig) : Prop :=
  result (logstoreStep config s) = None
  /\ (result (fetchStep config s)).1 = (true, Some serverConfig).

(** The head of the plain path of [makesureLogstoreExist]: the project is
    ensured when it is not the wrapper's own. *)
Definition ensureProject (config : AliyunLogConfigSpec) (project : string)
    : M W (option error) :=
  do o <- getWrapper;
  if bool_decide (project = Wrapper.project o) then ret None
  else makesureProjectExist (Some config) project.

(** The existence check that follows: the loop assigns [ok] and [err]. *)
Definition checkLogstoreRetry (project logstore : string)
    : M W (bool * option error) :=
  forRange maxRetry
    (fun _ : bool * option error =>
       do r <- remote (CallCheckLogstoreExist project logstore) snd
           (CheckLogstoreExist project logstore);
       match r.2 with
       | Some _ => sleep (Duration_mul Millisecond 100);; ret (r, Continue)
       | None => ret (r, Break)
       end)
    (false, None).

End Steps.

(** The map [m'] is [m] but possibly at the key [k], where it has not lost
    an entry. *)
Definition onlyKey (k : string) (m m' : gmap string Z) : Prop :=
  (forall k', k' <> k -> m' !! k' = m !! k')
  /\ (is_Some (m !! k) -> is_Some (m' !! k)).

(** The wrapper [o'] is [o] but possibly at one key of each cache. *)
Definition confined (logstoreKey configKey : string)
    (o o' : operationWrapper) : Prop :=
  Wrapper.project o' = Wrapper.project o
  /\ onlyKey logstoreKey (logstoreCacheMap o) (logstoreCacheMap o')
  /\ onlyKey configKey (configCacheMap o) (configCacheMap o').

(** From every state, [m] takes the wrapper to one related to it by [R],
    which may depend on the result. *)
Definition keepsIf {W A} (R : A -> operationWrapper -> operationWrapper -> Prop)
    (m : M W A) : Prop :=
  forall s, R (result (m s)) (wrapper s) (wrapper (final (m s))).

Definition keeps {W A} (R : operationWrapper -> operationWrapper -> Prop)
    (m : M W A) : Prop :=
  keepsIf (fun _ => R) m.

(** Every result of [m] satisfies [Q]. *)
Definition returns {W A} (Q : A -> Prop) (m : M W A) : Prop :=
  forall s, Q (result (m s)).

(** The errors a pass returns: a plain error whose text is one of the four
    stage prefixes, the config name and a detail. *)
Definition passError (configName : string) (e : error) : Prop :=
  slsError e = None
  /\ exists stage detail,
       In stage ["Create logconfig error when update config, config : ";
                 "UpdateConfig error, config : ";
                 "GetAppliedMachineGroups error, config : ";
                 "ApplyConfigToMachineGroup error, config : "]
       /\ errorText e = stage +:+ configName +:+ detail.

(** [evs] is the record of one loop of bound [n] on the call [c] that stops
    at the first outcome [stop] accepts. *)
Definition retriedUntil (stop : option error -> bool) (c : Call) (n : nat)
    (evs : list Event) : Prop :=
  Forall (fun ev => call ev = c) evs
  /\ (length evs <= n)%nat
  /\ (evs = [] -> n = O)
  /\ (forall pre ev, evs = pre ++ [ev] ->
       Forall (fun ev' => stop (outcome ev') = false) pre
       /\ (stop (outcome ev) = false -> length evs = n)).

(** ** Properties *)

Section Properties.

Context {W : Type} {logClient : ClientInterface W} {platform : Platform W}
  {flags : Flags}.

Implicit Types (s : State W) (project logstore config resource : string).

(** *** Running a computation *)

Lemma result_bind {A B} (m : M W A) (f : A -> M W B) s :
  result (bind m f s) = result (f (result (m s)) (final (m s))).
Proof. reflexivity. Qed.

Lemma final_bind {A B} (m : M W A) (f : A -> M W B) s :
  final (bind m f s) = final (f (result (m s)) (final (m s))).
Proof. reflexivity. Qed.

Lemma events_bind {A B} (m : M W A) (f : A -> M W B) s :
  events (bind m f s) = events (m s) ++ events (f (result (m s)) (final (m s))).
Proof. reflexivity. Qed.

(** *** The existence cache *)

Lemma wrap64_small z : - 2 ^ 63 <= z < 2 ^ 63 -> wrap64 z = z.
Proof. intros H. unfold wrap64. rewrite Z.mod_small; lia. Qed.

Lemma Time_Sub_lt t u d :
  - 2 ^ 63 < d < 2 ^ 63 -> (Time_Sub t u <? d) = true <-> t - u < d.
Proof.
  intros Hd. unfold Time_Sub, minDuration, maxDuration.
  destruct (Z.ltb_spec (t - u) (- 2 ^ 63)); [|destruct (Z.ltb_spec (2 ^ 63 - 1) (t - u))];
    rewrite Z.ltb_lt; lia.
Qed.

Lemma cacheExpire_seconds :
  - 2 ^ 63 <= 1000000000 * LogResourceCacheExpireSec < 2 ^ 63 ->
  cacheExpire = 1000000000 * LogResourceCacheExpireSec
  /\ - 2 ^ 63 < cacheExpire < 2 ^ 63.
Proof.
  intros H. unfold cacheExpire, Duration_mul, Second.
  rewrite wrap64_small by exact H. split; [reflexivity|].
  split; [|lia].
  assert (1000000000 * LogResourceCacheExpireSec <> - 2 ^ 63); [|lia].
  intros E. apply (f_equal (fun z => z mod 1000000000)) in E.
  rewrite Z.mul_comm, Z.mod_mul in E by lia. vm_compute in E. discriminate.
Qed.

Lemma logstoreCacheExists_readOnly project logstore :
  readOnly (logstoreCacheExists project logstore).
Proof.
  intros s. unfold logstoreCacheExists, bind, getWrapper; cbn.
  destruct (logstoreCacheMap (wrapper s) !! cacheKey project logstore); cbn;
    [destruct (_ <? _)|]; split; reflexivity.
Qed.

Lemma configCacheExists_readOnly project config :
  readOnly (configCacheExists project config).
Proof.
  intros s. unfold configCacheExists, bind, getWrapper; cbn.
  destruct (configCacheMap (wrapper s) !! cacheKey project config); cbn;
    [destruct (_ <? _)|]; split; reflexivity.
Qed.

Lemma logstoreCacheExists_true project logstore s :
  - 2 ^ 63 <= 1000000000 * LogResourceCacheExpireSec < 2 ^ 63 ->
  result (logstoreCacheExists project logstore s) = true <->
  exists t, logstoreCacheMap (wrapper s) !! (project +:+ "@@" +:+ logstore) = Some t
            /\ time_Now (world s) - t < 1000000000 * LogResourceCacheExpireSec.
Proof.
  intros H. destruct (cacheExpire_seconds H) as [E B].
  unfold logstoreCacheExists, bind, getWrapper, cacheKey; cbn.
  destruct (logstoreCacheMap (wrapper s) !! _) as [t|]; cbn.
  - pose proof (Time_Sub_lt (time_Now (world s)) t cacheExpire B) as L.
    destruct (_ <? _); cbn; rewrite <- E; split.
    + intros _. exists t. split; [reflexivity|]. apply L. reflexivity.
    + reflexivity.
    + discriminate.
    + intros (t' & [= <-] & Ht). apply L in Ht. discriminate.
  - split; [discriminate|]. intros (t & [=] & _).
Qed.

Lemma configCacheExists_true project config s :
  - 2 ^ 63 <= 1000000000 * LogResourceCacheExpireSec < 2 ^ 63 ->
  result (configCacheExists project config s) = true <->
  exists t, configCacheMap (wrapper s) !! (project +:+ "@@" +:+ config) = Some t
            /\ time_Now (world s) - t < 1000000000 * LogResourceCacheExpireSec.
Proof.
  intros H. destruct (cacheExpire_seconds H) as [E B].
  unfold configCacheExists, bind, getWrapper, cacheKey; cbn.
  destruct (configCacheMap (wrapper s) !! _) as [t|]; cbn.
  - pose proof (Time_Sub_lt (time_Now (world s)) t cacheExpire B) as L.
    destruct (_ <? _); cbn; rewrite <- E; split.
    + intros _. exists t. split; [reflexivity|]. apply L. reflexivity.
    + reflexivity.
    + discriminate.
    + intros (t' & [= <-] & Ht). apply L in Ht. discriminate.
  - split; [discriminate|]. intros (t & [=] & _).
Qed.

(** C9. The existence-cache query answers true exactly when the key
    "{project}@@{resource}" holds a timestamp and now minus that timestamp is
    strictly below the configured number of seconds (a number of seconds that
    fits a duration); the query leaves the wrapper, and so the entry, as it
    is, and recording upserts the current instant under that key. *)
Theorem cache_hit_iff_entry_within_ttl project resource s :
  - 2 ^ 63 <= 1000000000 * LogResourceCacheExpireSec < 2 ^ 63 ->
  let key := project +:+ "@@" +:+ resource in
  let fresh t := time_Now (world s) - t < 1000000000 * LogResourceCacheExpireSec in
  (result (logstoreCacheExists project resource s) = true <->
     exists t, logstoreCacheMap (wrapper s) !! key = Some t /\ fresh t)
  /\ (result (configCacheExists project resource s) = true <->
       exists t, configCacheMap (wrapper s) !! key = Some t /\ fresh t)
  /\ final (logstoreCacheExists project resource s) = s
  /\ final (configCacheExists project resource s) = s
  /\ logstoreCacheMap (wrapper (final (addLogstoreCache project resource s)))
      = <[key := time_Now (world s)]> (logstoreCacheMap (wrapper s))
  /\ configCacheMap (wrapper (final (addConfigCache project resource s)))
      = <[key := time_Now (world s)]> (configCacheMap (wrapper s)).
Proof.
  intros H key fresh. repeat split.
  - apply logstoreCacheExists_true; assumption.
  - apply logstoreCacheExists_true; assumption.
  - apply configCacheExists_true; assumption.
  - apply configCacheExists_true; assumption.
  - apply logstoreCacheExists_readOnly.
  - apply configCacheExists_readOnly.
Qed.

(** *** What a computation emits *)

Lemma emits_ret {A} P (a : A) : emits (W := W) P (ret a).
Proof. intros s. constructor. Qed.

Lemma emits_bind {A B} P (m : M W A) (f : A -> M W B) :
  emits P m -> (forall a, emits P (f a)) -> emits P (bind m f).
Proof.
  intros Hm Hf s. rewrite events_bind. apply Forall_app. split; [apply Hm|apply Hf].
Qed.

Lemma emits_remote {R} P c (errOf : R -> option error) (op : W -> R * W) :
  (forall o, P {| call := c; outcome := o |}) -> emits P (remote c errOf op).
Proof. intros H s. cbn. constructor; [apply H|constructor]. Qed.

Lemma emits_forRange {L} P n (body : L -> M W (L * Control)) l :
  (forall l, emits P (body l)) -> emits P (forRange n body l).
Proof.
  intros H. revert l. induction n as [|n IH]; intros l; cbn [forRange].
  - apply emits_ret.
  - apply emits_bind; [apply H|]. intros r. destruct r.2; [apply IH|apply emits_ret].
Qed.

Lemma emits_getWrapper P : emits (W := W) P getWrapper.
Proof. intros s. constructor. Qed.

Lemma emits_setWrapper P o : emits (W := W) P (setWrapper o).
Proof. intros s. constructor. Qed.

Lemma emits_now P : emits P now.
Proof. intros s. constructor. Qed.

Lemma emits_sleep P d : emits P (sleep d).
Proof. intros s. constructor. Qed.

Lemma emits_weaken {A} (P Q : Event -> Prop) (m : M W A) :
  (forall ev, P ev -> Q ev) -> emits P m -> emits Q m.
Proof. intros H Hm s. eapply Forall_impl; [apply Hm|exact H]. Qed.

End Properties.

(** One structural step of a proof that a computation emits only events of
    some kind; the leaves, one per remote call, are left to the caller. *)
Ltac emits_step :=
  lazymatch goal with
  | |- emits _ (ret _) => apply emits_ret
  | |- emits _ (bind _ _) => apply emits_bind; [|intros ?]
  | |- emits _ (forRange _ _ _) => apply emits_forRange; intros ?
  | |- emits _ (remote _ _ _) => apply emits_remote; intros ?
  | |- emits _ getWrapper => apply emits_getWrapper
  | |- emits _ (setWrapper _) => apply emits_setWrapper
  | |- emits _ now => apply emits_now
  | |- emits _ (sleep _) => apply emits_sleep
  | |- emits _ _ => case_match
  end.

Ltac unfold_wrapper :=
  unfold updateConfig, createConfig, updateConfigInner, applyToMachineGroup,
    createOrUpdateConfig, createConfigRetry, updateExistingConfig, patchFileConfig, updateConfigRetry,
    getConfigRetry, makesureMachineGroupExist, makesureLogstoreExist,
    makesureProjectExist, createProductLogstore, addConfigCache,
    configCacheExists, addLogstoreCache, logstoreCacheExists;
  cbv beta zeta.

Ltac emits_auto leaf := unfold_wrapper; repeat emits_step; leaf.

Section Provisioning.

Context {W : Type} {logClient : ClientInterface W} {platform : Platform W}
  {flags : Flags}.

Implicit Types (s : State W) (project logstore product lang : string).

Lemma clamped_arguments shardCount lifeCycle project logstore o :
  clamped shardCount lifeCycle
    {| call := CallCreateLogStore project logstore (logstoreTTL lifeCycle)
                 (logstoreShardCount shardCount) true 32;
       outcome := o |}.
Proof.
  unfold clamped, logstoreTTL, logstoreShardCount; cbn.
  destruct (Z.leb_spec shardCount 0); destruct (Z.ltb_spec 0 lifeCycle);
    repeat match goal with |- context [10 <? ?x] => destruct (Z.ltb_spec 10 x) end;
    lia.
Qed.

(** C8. A logstore named "audit-" followed by 33 more bytes, with no product
    code declared and no valid cache entry, is provisioned by exactly one call
    of the managed-product creation, for product "k8s-audit" and language "cn",
    whose outcome is returned; neither [CheckLogstoreExist] nor
    [CreateLogStore] is called. *)
Theorem audit_logstore_goes_to_product_path
    (config : AliyunLogConfigSpec) project logstore (shardCount lifeCycle : Z)
    product lang s :
  String.prefix "audit-" logstore = true ->
  len logstore = 39 ->
  len product = 0 ->
  result (logstoreCacheExists project logstore s) = false ->
  let run := makesureLogstoreExist config project logstore shardCount lifeCycle
               product lang s in
  events run =
    [{| call := CallCreateProductLogstore DefaultRegion project logstore
                  "k8s-audit" "cn";
        outcome := result run |}]
  /\ callsOf isCheckLogstoreExist (events run) = []
  /\ callsOf isCreateLogStore (events run) = [].
Proof.
  intros Hprefix Hlen Hproduct Hmiss run.
  assert (events run =
    [{| call := CallCreateProductLogstore DefaultRegion project logstore
                  "k8s-audit" "cn";
        outcome := result run |}]) as E.
  { subst run. unfold makesureLogstoreExist.
    destruct (logstoreCacheExists_readOnly project logstore s) as [Hs He].
    rewrite events_bind, result_bind, He, Hs, Hmiss, Hproduct, Hprefix, Hlen.
    cbn [Z.ltb Z.compare Z.eqb andb Pos.eqb app].
    unfold createProductLogstore. rewrite events_bind, result_bind.
    cbn [remote events result final fst snd id].
    destruct (CreateProductLogstore _ _ _ _ _ _).1; reflexivity. }
  rewrite E. repeat split; reflexivity.
Qed.

End Provisioning.

(** *** Retry loops *)

Section Retry.

Context {W : Type} {logClient : ClientInterface W} {platform : Platform W}
  {flags : Flags}.

Implicit Types (s : State W).

Lemma forRange_S {L} n (body : L -> M W (L * Control)) l s :
  forRange (S n) body l s =
  let r := body l s in
  match (result r).2 with
  | Break => ((result r).1, final r, events r)
  | Continue =>
      let r' := forRange n body (result r).1 (final r) in
      (result r', final r', events r ++ events r')
  end.
Proof.
  cbn [forRange]. unfold bind at 1. cbv zeta.
  destruct (result (body l s)).2; [reflexivity|].
  unfold ret, result, final, events; cbn. rewrite app_nil_r.
  destruct (body l s) as [[? ?] ?]; reflexivity.
Qed.

Lemma lastOutcome_cons init ev evs :
  lastOutcome init (ev :: evs) = lastOutcome (outcome ev) evs.
Proof.
  unfold lastOutcome. destruct evs as [|ev' evs]; [reflexivity|].
  change (last (ev :: ev' :: evs)) with (last (ev' :: evs)).
  destruct (last (ev' :: evs)) eqn:E; [reflexivity|].
  apply last_None in E. discriminate.
Qed.

Lemma forRange_retried {L} c (errOf : L -> option error)
    (body : L -> M W (L * Control)) :
  attempts c errOf body ->
  forall n l s,
    retried c n (events (forRange n body l s))
    /\ errOf (result (forRange n body l s))
        = lastOutcome (errOf l) (events (forRange n body l s)).
Proof.
  intros Hbody. induction n as [|n IH]; intros l s.
  - change (retried c 0 [] /\ errOf l = lastOutcome (errOf l) []).
    split; [|reflexivity].
    split; [constructor|]. split; [reflexivity|]. split; [reflexivity|].
    intros pre ev E. destruct pre; discriminate.
  - rewrite forRange_S. cbv zeta.
    destruct (Hbody l s) as [Hev Hbrk].
    set (r := body l s) in *.
    destruct ((result r).2) eqn:Hc.
    + assert (errOf (result r).1 <> None) as Hfail.
      { intros E. apply Hbrk in E. discriminate. }
      specialize (IH (result r).1 (final r)).
      set (r' := forRange n body (result r).1 (final r)) in *.
      destruct IH as [(Hall & Hlen & Hnil & Hlast) Herr].
      change (retried c (S n) (events r ++ events r')
              /\ errOf (result r') = lastOutcome (errOf l) (events r ++ events r')).
      rewrite Hev. cbn [app].
      split; [split; [|split; [|split]]|].
      * constructor; [reflexivity|exact Hall].
      * cbn [length]. lia.
      * discriminate.
      * intros pre ev E. destruct pre as [|ev0 pre]; cbn in E.
        -- injection E as _ E. split; [constructor|].
           intros _. rewrite E. apply Hnil in E. cbn. congruence.
        -- injection E as <- E. destruct (Hlast pre ev E) as [Hpre Hn].
           split; [constructor; [exact Hfail|exact Hpre]|].
           intros Hf. cbn [length]. rewrite (Hn Hf). reflexivity.
      * rewrite lastOutcome_cons. exact Herr.
    + change (retried c (S n) (events r)
              /\ errOf (result r).1 = lastOutcome (errOf l) (events r)).
      rewrite Hev.
      assert (errOf (result r).1 = None) as Hok by (apply Hbrk; reflexivity).
      split; [split; [|split; [|split]]|].
      * constructor; [reflexivity|constructor].
      * cbn [length]. lia.
      * discriminate.
      * intros pre ev E. destruct pre as [|ev0 [|? ?]]; try discriminate.
        injection E as <-. split; [constructor|].
        intros Hf. exfalso. apply Hf. exact Hok.
      * unfold lastOutcome; cbn. reflexivity.
Qed.

Lemma callsOf_app kind evs1 evs2 :
  callsOf kind (evs1 ++ evs2) = callsOf kind evs1 ++ callsOf kind evs2.
Proof. apply List.filter_app. Qed.

Lemma callsOf_none kind evs : Forall (notCall kind) evs -> callsOf kind evs = [].
Proof.
  induction 1 as [|ev evs Hev _ IH]; [reflexivity|].
  unfold callsOf, notCall in *. cbn [List.filter]. rewrite Hev. exact IH.
Qed.

Lemma callsOf_all kind evs :
  Forall (fun ev => kind (call ev) = true) evs -> callsOf kind evs = evs.
Proof.
  induction 1 as [|ev evs Hev _ IH]; [reflexivity|].
  unfold callsOf in *. cbn [List.filter]. rewrite Hev, IH. reflexivity.
Qed.

Lemma retried_callsOf kind c n evs :
  retried c n evs -> callsOf kind evs = if kind c then evs else [].
Proof.
  intros (Hall & _). destruct (kind c) eqn:E.
  - apply callsOf_all. eapply Forall_impl; [exact Hall|].
    cbn. intros ev ->. exact E.
  - apply callsOf_none. eapply Forall_impl; [exact Hall|].
    unfold notCall. intros ev ->. exact E.
Qed.

Lemma retried_last c n evs :
  retried c n evs -> evs <> [] -> exists pre ev, evs = pre ++ [ev].
Proof.
  intros _ Hne. destruct (exists_last Hne) as (pre & ev & ->). eauto.
Qed.

Lemma lastOutcome_snoc init pre ev : lastOutcome init (pre ++ [ev]) = outcome ev.
Proof. unfold lastOutcome. rewrite last_snoc. reflexivity. Qed.

(** In a retry that made a call and saw every call fail, the calls are as
    many as the bound. *)
Lemma retried_all_failed c n evs :
  retried c n evs -> evs <> [] -> Forall failed evs -> length evs = n.
Proof.
  intros Hr Hne Hall. destruct (retried_last _ _ _ Hr Hne) as (pre & ev & E).
  destruct Hr as (_ & _ & _ & Hlast). destruct (Hlast pre ev E) as [_ Hn].
  apply Hn. rewrite E in Hall. apply Forall_app in Hall as [_ Hev].
  inversion Hev; assumption.
Qed.

(** The record of a loop whose body makes the one call [c] and breaks exactly
    on an outcome [stop] accepts. *)
Lemma forRange_retriedUntil {L} (stop : option error -> bool) c
    (body : L -> M W (L * Control)) :
  (forall l s, exists o,
     events (body l s) = [{| call := c; outcome := o |}]
     /\ ((result (body l s)).2 = Break <-> stop o = true)) ->
  forall n l s, retriedUntil stop c n (events (forRange n body l s)).
Proof.
  intros Hbody. induction n as [|n IH]; intros l s.
  - change (retriedUntil stop c 0 []).
    split; [constructor|]. split; [reflexivity|]. split; [reflexivity|].
    intros pre ev E. destruct pre; discriminate.
  - rewrite forRange_S. cbv zeta.
    destruct (Hbody l s) as (o & Hev & Hbrk).
    set (r := body l s) in *.
    destruct ((result r).2) eqn:Hc.
    + assert (stop o = false) as Hgo.
      { destruct (stop o); [|reflexivity]. destruct Hbrk as [_ H]. discriminate H.
        reflexivity. }
      specialize (IH (result r).1 (final r)).
      set (r' := forRange n body (result r).1 (final r)) in *.
      destruct IH as (Hall & Hlen & Hnil & Hlast).
      change (retriedUntil stop c (S n) (events r ++ events r')).
      rewrite Hev. cbn [app].
      split; [constructor; [reflexivity|exact Hall]|].
      split; [cbn [length]; lia|]. split; [discriminate|].
      intros pre ev E. destruct pre as [|ev0 pre]; cbn in E.
      * injection E as _ E. split; [constructor|].
        intros _. rewrite E. apply Hnil in E. cbn. congruence.
      * injection E as <- E. destruct (Hlast pre ev E) as [Hpre Hn].
        split; [constructor; [exact Hgo|exact Hpre]|].
        intros Hf. cbn [length]. rewrite (Hn Hf). reflexivity.
    + change (retriedUntil stop c (S n) (events r)). rewrite Hev.
      assert (stop o = true) as Hstop by (apply Hbrk; reflexivity).
      split; [constructor; [reflexivity|constructor]|].
      split; [cbn [length]; lia|]. split; [discriminate|].
      intros pre ev E. destruct pre as [|ev0 [|? ?]]; try discriminate.
      injection E as <-. split; [constructor|]. cbn. congruence.
Qed.

(** The error variable of a loop whose body makes the one call [c] and leaves
    its outcome there: the outcome of the last call. *)
Lemma forRange_lastOutcome {L} c (errOf : L -> option error)
    (body : L -> M W (L * Control)) :
  (forall l s,
     events (body l s)
     = [{| call := c; outcome := errOf (result (body l s)).1 |}]) ->
  forall n l s,
    errOf (result (forRange n body l s))
    = lastOutcome (errOf l) (events (forRange n body l s)).
Proof.
  intros Hbody. induction n as [|n IH]; intros l s; [reflexivity|].
  rewrite forRange_S. cbv zeta. pose proof (Hbody l s) as Hev.
  set (r := body l s) in *. destruct ((result r).2).
  - specialize (IH (result r).1 (final r)).
    set (r' := forRange n body (result r).1 (final r)) in *.
    change (errOf (result r') = lastOutcome (errOf l) (events r ++ events r')).
    rewrite Hev. cbn [app]. rewrite lastOutcome_cons. exact IH.
  - change (errOf (result r).1 = lastOutcome (errOf l) (events r)).
    rewrite Hev. reflexivity.
Qed.

End Retry.

(** A loop body is an attempt of its call: by cases on the call's error. *)
Ltac attempts_tac :=
  intros ? ?; unfold bind, remote, ret, sleep, result, final, events; cbn;
  repeat case_match; cbn;
  (split; [congruence | split; congruence]).

Section MachineGroup.

Context {W : Type} {logClient : ClientInterface W} {platform : Platform W}
  {flags : Flags}.

Implicit Types (s : State W) (project machineGroup : string).

(** The [CreateMachineGroup] calls of [makesureMachineGroupExist] form one
    retry loop, whose last outcome is what the function returns. *)
Lemma makesureMachineGroupExist_creates project machineGroup s :
  let m := {| GroupName := machineGroup;
              MachineIDType := MachineIDTypeUserDefined;
              MachineIDList := [machineGroup] |} in
  let run := makesureMachineGroupExist project machineGroup s in
  let creates := callsOf isCreateMachineGroup (events run) in
  creates <> [] ->
  retried (CallCreateMachineGroup project m) maxRetry creates
  /\ result run = lastOutcome None creates.
Proof.
  intros m run creates. subst run creates. unfold makesureMachineGroupExist.
  rewrite events_bind, result_bind, callsOf_app.
  match goal with |- context [events (forRange maxRetry ?b ?l s)] =>
    destruct (forRange_retried (CallCheckMachineGroupExist project machineGroup)
                snd b ltac:(attempts_tac) maxRetry l s) as [Hchk _];
    set (checks := forRange maxRetry b l s) in *
  end.
  rewrite (retried_callsOf isCreateMachineGroup _ _ _ Hchk). cbn [isCreateMachineGroup app].
  cbv zeta. destruct (result checks).1.
  - intros H. exfalso. apply H. reflexivity.
  - fold m.
    match goal with |- context [events (forRange maxRetry ?b ?l ?st)] =>
      destruct (forRange_retried (CallCreateMachineGroup project m)
                  id b ltac:(attempts_tac) maxRetry l st) as [Hcr Herr];
      set (creates := forRange maxRetry b l st) in *
    end.
    rewrite (retried_callsOf isCreateMachineGroup _ _ _ Hcr). cbn [isCreateMachineGroup].
    intros Hne. split; [exact Hcr|].
    unfold id in Herr. rewrite Herr.
    destruct (retried_last _ _ _ Hcr Hne) as (pre & ev & ->).
    rewrite !lastOutcome_snoc. reflexivity.
Qed.

End MachineGroup.

(** *** The pass as a sequence of its steps *)

Section Pass.

Context {W : Type} {logClient : ClientInterface W} {platform : Platform W}
  {flags : Flags}.

Implicit Types (s : State W) (config : AliyunLogConfigSpec).

(** The fetch loop, for any bound: what its record tells about its result. *)
Lemma getConfigRetry_loop project configName (n : nat) body l s :
  body = (fun l : bool * option LogConfig * option error =>
       let ok := l.1.1 in
       do r <- remote (CallGetConfig project configName) snd
           (GetConfig project configName);
       let serverConfig := r.1 in
       let err := r.2 in
       match err with
       | Some e =>
           if hasSlsCode "ConfigNotExist" e
           then ret ((ok, serverConfig, err), Break)
           else ret ((ok, serverConfig, err), Continue)
       | None => ret ((true, serverConfig, err), Break)
       end) ->
  l.1.1 = false ->
  let r := forRange n body l s in
  Forall (fun ev => call ev = CallGetConfig project configName) (events r)
  /\ (events r = [] -> n = O)
  /\ (forall ev rest e,
       events r = ev :: rest -> outcome ev = Some e ->
       hasSlsCode "ConfigNotExist" e = true ->
       rest = [] /\ (result r).1.1 = false)
  /\ (Forall failedOtherwise (events r) ->
       length (events r) = n /\ (result r).1.1 = false)
  /\ ((result r).1.1 = true ->
       (result r).2 = None
       /\ exists w, (GetConfig project configName w).1 = ((result r).1.2, None)).
Proof.
  intros Hbody. revert l s. induction n as [|n IH]; intros l s Hl r; subst r.
  - cbn. rewrite Hl. repeat split; try (constructor || discriminate).
  - rewrite forRange_S. cbv zeta.
    assert (events (body l s) =
            [{| call := CallGetConfig project configName;
                outcome := (GetConfig project configName (world s)).1.2 |}]) as Hev.
    { rewrite Hbody. unfold bind, remote, ret, events, result, final; cbn.
      repeat case_match; reflexivity. }
    destruct (GetConfig project configName (world s)).1.2 as [e|] eqn:Herr.
    + destruct (hasSlsCode "ConfigNotExist" e) eqn:Hcode.
      * assert (result (body l s) = ((l.1.1, (GetConfig project configName (world s)).1.1, Some e), Break)) as Hres.
        { rewrite Hbody. unfold bind, remote, ret, events, result, final; cbn.
          rewrite Herr, Hcode. reflexivity. }
        rewrite Hres. cbn [fst snd]. unfold result at 1 2 3, events at 1 2 3 4 5; cbn [fst snd].
        fold (events (body l s)). rewrite Hev.
        split; [repeat constructor|]. split; [discriminate|].
        split; [intros ev rest e' [= <- <-] _ _; split; [reflexivity|exact Hl]|].
        split; [|rewrite Hl; discriminate].
        intros Hall. inversion Hall as [|? ? (e' & He' & Hc') _]; subst.
        cbn in He'. injection He' as <-. congruence.
      * assert (result (body l s) = ((l.1.1, (GetConfig project configName (world s)).1.1, Some e), Continue)) as Hres.
        { rewrite Hbody. unfold bind, remote, ret, events, result, final; cbn.
          rewrite Herr, Hcode. reflexivity. }
        rewrite Hres. cbn [fst snd].
        specialize (IH (l.1.1, (GetConfig project configName (world s)).1.1, Some e)
                       (final (body l s)) Hl).
        cbv zeta in IH.
        set (r' := forRange n body _ (final (body l s))) in *.
        destruct IH as (Hall & Hnil & Hfirst & Hother & Hok).
        change (events (result r', final r', events (body l s) ++ events r'))
          with (events (body l s) ++ events r').
        change (result (result r', final r', events (body l s) ++ events r'))
          with (result r').
        rewrite Hev. cbn [app].
        split; [constructor; [reflexivity|exact Hall]|].
        split; [discriminate|].
        split; [intros ev rest e' [= <- <-] He' Hc'; cbn in He'; congruence|].
        split; [|exact Hok].
        intros Hf. inversion Hf as [|? ? _ Hrest]; subst.
        destruct (Hother Hrest) as [Hlen Hfalse]. cbn [length].
        rewrite Hlen. split; [reflexivity|exact Hfalse].
    + assert (result (body l s) = ((true, (GetConfig project configName (world s)).1.1, None), Break)) as Hres.
      { rewrite Hbody. unfold bind, remote, ret, events, result, final; cbn.
        rewrite Herr. reflexivity. }
      rewrite Hres. cbn [fst snd]. unfold result at 1 2 3 4 5, events at 1 2 3 4 5; cbn [fst snd].
      fold (events (body l s)). rewrite Hev.
      split; [repeat constructor|]. split; [discriminate|].
      split; [intros ev rest e' [= <- <-] He'; cbn in He'; discriminate|].
      split.
      * intros Hall. inversion Hall as [|? ? (e' & He' & _) _]; subst.
        cbn in He'. discriminate.
      * intros _. split; [reflexivity|]. exists (world s).
        rewrite <- Herr. destruct (GetConfig project configName (world s)).1; reflexivity.
Qed.

Lemma updateConfigInner_run config s :
  let project := targetProject (wrapper s) config in
  let configName := ConfigName (Detail config) in
  let r1 := makesureLogstoreExist config project (Logstore config)
              (default 0 (ShardCount config)) (default 0 (LifeCycle config))
              (ProductCode config) (ProductLang config) s in
  let run := updateConfigInner config s in
  match result r1 with
  | Some e =>
      result run =
        Some (Errorf ("Create logconfig error when update config, config : "
                      +:+ configName +:+ ", error : " +:+ errorText e))
      /\ events run = events r1
  | None =>
      let r2 := getConfigRetry project configName None (final r1) in
      let r3 := createOrUpdateConfig config project (localLogConfig config project)
                  (result r2).1.1 (result r2).1.2 (result r2).2 (final r2) in
      match result r3 with
      | Some e =>
          result run =
            Some (Errorf ("UpdateConfig error, config : " +:+ configName
                          +:+ ", error : " +:+ errorText e))
          /\ events run = events r1 ++ events r2 ++ events r3
      | None =>
          let r4 := applyToMachineGroup config project (result r2).1.1
                      (final r3) in
          result run = result r4
          /\ events run = events r1 ++ events r2 ++ events r3 ++ events r4
      end
  end.
Proof.
  intros project configName r1 run. subst run. unfold updateConfigInner.
  rewrite result_bind, events_bind. cbn [getWrapper result final events fst snd app].
  fold project configName. rewrite result_bind, events_bind. fold r1.
  destruct (result r1) as [e|] eqn:E1.
  - cbn. rewrite app_nil_r. split; reflexivity.
  - set (r2 := getConfigRetry project configName None (final r1)).
    set (r3 := createOrUpdateConfig config project (localLogConfig config project)
                 (result r2).1.1 (result r2).1.2 (result r2).2 (final r2)).
    rewrite result_bind, events_bind. fold r2. cbv beta.
    rewrite result_bind, events_bind. fold r3.
    destruct (result r3) as [e|] eqn:E3.
    + cbn. rewrite app_nil_r. split; reflexivity.
    + split; reflexivity.
Qed.

Lemma createConfigRetry_retried project (c : LogConfig) err s :
  retried (CallCreateConfig project c) maxRetry
    (events (createConfigRetry project c err s))
  /\ result (createConfigRetry project c err s)
      = lastOutcome err (events (createConfigRetry project c err s)).
Proof.
  unfold createConfigRetry.
  match goal with |- context [forRange maxRetry ?b err s] =>
    apply (forRange_retried (CallCreateConfig project c) id b ltac:(attempts_tac))
  end.
Qed.

Lemma updateConfigRetry_retried project (c : LogConfig) err s :
  retried (CallUpdateConfig project c) maxRetry
    (events (updateConfigRetry project c err s))
  /\ result (updateConfigRetry project c err s)
      = lastOutcome err (events (updateConfigRetry project c err s)).
Proof.
  unfold updateConfigRetry.
  match goal with |- context [forRange maxRetry ?b err s] =>
    apply (forRange_retried (CallUpdateConfig project c) id b ltac:(attempts_tac))
  end.
Qed.

Lemma getConfigRetry_calls project configName err s :
  Forall (fun ev => call ev = CallGetConfig project configName)
    (events (getConfigRetry project configName err s)).
Proof.
  unfold getConfigRetry.
  match goal with |- context [forRange maxRetry ?b ?l s] =>
    apply (getConfigRetry_loop project configName maxRetry b l s eq_refl eq_refl)
  end.
Qed.

Lemma callsOf_calls kind c evs :
  Forall (fun ev => call ev = c) evs ->
  callsOf kind evs = if kind c then evs else [].
Proof.
  intros Hall. destruct (kind c) eqn:E.
  - apply callsOf_all. eapply Forall_impl; [exact Hall|].
    cbn. intros ev ->. exact E.
  - apply callsOf_none. eapply Forall_impl; [exact Hall|].
    unfold notCall. intros ev ->. exact E.
Qed.

(** The fetch loop of a pass: it stops at the first fetch that succeeds or is
    answered by the code "ConfigNotExist", and a last fetch that failed left
    the flag [ok] down. *)
Lemma getConfigRetry_record project configName err s :
  let r := getConfigRetry project configName err s in
  retriedUntil
    (fun o => match o with
              | None => true
              | Some e => hasSlsCode "ConfigNotExist" e
              end)
    (CallGetConfig project configName) maxRetry (events r)
  /\ (forall pre ev e,
      events r = pre ++ [ev] -> outcome ev = Some e -> (result r).1.1 = false).
Proof.
  intros r. subst r. unfold getConfigRetry.
  match goal with |- context [forRange maxRetry ?b ?l s] =>
    pose proof (getConfigRetry_loop project configName maxRetry b l s eq_refl eq_refl)
      as Hloop;
    pose proof (forRange_lastOutcome (CallGetConfig project configName) snd b)
      as Hlast;
    pose proof (forRange_retriedUntil
                  (fun o => match o with
                            | None => true
                            | Some e => hasSlsCode "ConfigNotExist" e
                            end)
                  (CallGetConfig project configName) b) as Huntil;
    set (body := b) in *
  end.
  cbv zeta in Hloop. destruct Hloop as (_ & _ & _ & _ & Hok).
  split.
  - apply Huntil. intros l st.
    exists (GetConfig project configName (world st)).1.2.
    subst body. unfold bind, remote, ret, result, final, events; cbn.
    destruct (GetConfig project configName (world st)).1.2 as [e|]; cbn;
      [destruct (hasSlsCode "ConfigNotExist" e) eqn:Hcode; cbn|];
      (split; [reflexivity|]); split; congruence.
  - intros pre ev e E Hout.
    destruct (result (forRange maxRetry body (false, None, err) s)).1.1 eqn:Hflag;
      [|reflexivity].
    destruct (Hok eq_refl) as [Hnone _].
    rewrite Hlast in Hnone.
    + rewrite E, lastOutcome_snoc in Hnone. congruence.
    + intros l st. subst body. unfold bind, remote, ret, result, final, events; cbn.
      destruct (GetConfig project configName (world st)).1.2 as [e'|]; cbn;
        [destruct (hasSlsCode "ConfigNotExist" e'); cbn|]; reflexivity.
Qed.

(** C3. In a pass, a fetch answered by the code "ConfigNotExist", at whichever
    attempt, is the last fetch; a fetch that fails otherwise is followed by
    another fetch unless it is the last the retry bound allows, so that
    fetches that all fail otherwise are as many as the bound.  When the
    fetches end either way, the pass goes to the create branch:
    [CreateConfig] is called, with the locally built config, and when the
    last of these calls fails it is its error the pass reports, not the fetch
    error. *)
Theorem fetch_absent_or_failing_goes_to_create config s :
  let project := targetProject (wrapper s) config in
  let run := updateConfigInner config s in
  let gets := callsOf isGetConfig (events run) in
  let creates := callsOf isCreateConfig (events run) in
  let created :=
    creates <> []
    /\ Forall (fun ev => call ev
                  = CallCreateConfig project (localLogConfig config project))
         creates
    /\ (forall ev e, last creates = Some ev -> outcome ev = Some e ->
         result run =
           Some (Errorf ("UpdateConfig error, config : "
                         +:+ ConfigName (Detail config) +:+ ", error : "
                         +:+ errorText e))) in
  (length gets <= maxRetry)%nat
  /\ (forall pre ev rest e,
      gets = pre ++ ev :: rest -> outcome ev = Some e ->
      hasSlsCode "ConfigNotExist" e = true ->
      rest = [] /\ created)
  /\ (forall pre ev rest,
      gets = pre ++ ev :: rest -> failedOtherwise ev ->
      (rest = [] <-> S (length pre) = maxRetry) /\ (rest = [] -> created))
  /\ (gets <> [] -> Forall failedOtherwise gets ->
      length gets = maxRetry /\ created).
Proof.
  intros project run gets creates created.
  pose proof (updateConfigInner_run config s) as Hrun. cbv zeta in Hrun.
  fold project run in Hrun.
  set (r1 := makesureLogstoreExist config project (Logstore config)
               (default 0 (ShardCount config)) (default 0 (LifeCycle config))
               (ProductCode config) (ProductLang config) s) in *.
  assert (callsOf isGetConfig (events r1) = []) as G1.
  { apply callsOf_none.
    assert (emits (notCall isGetConfig)
              (makesureLogstoreExist config project (Logstore config)
                 (default 0 (ShardCount config)) (default 0 (LifeCycle config))
                 (ProductCode config) (ProductLang config))) as H
      by emits_auto ltac:(reflexivity).
    apply H. }
  assert (callsOf isCreateConfig (events r1) = []) as C1.
  { apply callsOf_none.
    assert (emits (notCall isCreateConfig)
              (makesureLogstoreExist config project (Logstore config)
                 (default 0 (ShardCount config)) (default 0 (LifeCycle config))
                 (ProductCode config) (ProductLang config))) as H
      by emits_auto ltac:(reflexivity).
    apply H. }
  destruct (result r1) as [e1|].
  { destruct Hrun as [_ Hev]. subst gets. rewrite Hev, G1.
    split; [cbn; lia|].
    split; [intros pre ev rest e E; destruct pre; discriminate|].
    split; [intros pre ev rest E; destruct pre; discriminate|].
    intros H. exfalso. apply H. reflexivity. }
  set (r2 := getConfigRetry project (ConfigName (Detail config)) None (final r1)) in *.
  set (r3 := createOrUpdateConfig config project (localLogConfig config project)
               (result r2).1.1 (result r2).1.2 (result r2).2 (final r2)) in *.
  set (r4 := applyToMachineGroup config project (result r2).1.1 (final r3)) in *.
  assert (callsOf isGetConfig (events r2) = events r2) as G2.
  { subst r2. rewrite (callsOf_calls _ _ _ (getConfigRetry_calls _ _ _ _)).
    reflexivity. }
  assert (callsOf isCreateConfig (events r2) = []) as C2.
  { subst r2. rewrite (callsOf_calls _ _ _ (getConfigRetry_calls _ _ _ _)).
    reflexivity. }
  assert (callsOf isGetConfig (events r3) = []) as G3.
  { apply callsOf_none.
    assert (forall ok sc err, emits (notCall isGetConfig)
              (createOrUpdateConfig config project (localLogConfig config project)
                 ok sc err)) as H
      by (intros; emits_auto ltac:(reflexivity)).
    apply H. }
  assert (callsOf isGetConfig (events r4) = []) as G4.
  { apply callsOf_none.
    assert (forall ok, emits (notCall isGetConfig)
              (applyToMachineGroup config project ok)) as H
      by (intros; emits_auto ltac:(reflexivity)).
    apply H. }
  assert (callsOf isCreateConfig (events r4) = []) as C4.
  { apply callsOf_none.
    assert (forall ok, emits (notCall isCreateConfig)
              (applyToMachineGroup config project ok)) as H
      by (intros; emits_auto ltac:(reflexivity)).
    apply H. }
  assert (gets = events r2) as Hgets.
  { subst gets. destruct (result r3); destruct Hrun as [_ ->];
      rewrite !callsOf_app, G1, G2, G3, ?G4, ?app_nil_r; reflexivity. }
  pose proof (getConfigRetry_loop project (ConfigName (Detail config)) maxRetry
                _ (false, None, None) (final r1) eq_refl eq_refl) as Hloop.
  cbv zeta in Hloop. fold (getConfigRetry project (ConfigName (Detail config)) None) in Hloop.
  fold r2 in Hloop. destruct Hloop as (_ & _ & Hfirst & Hother & _).
  assert ((result r2).1.1 = false -> gets <> [] -> created) as Hcreated.
  { intros Hok Hne. subst r3. rewrite Hok in *. unfold createOrUpdateConfig in *.
    set (r3 := createConfigRetry project (localLogConfig config project)
                 (result r2).2 (final r2)) in *.
    destruct (createConfigRetry_retried project (localLogConfig config project)
                (result r2).2 (final r2)) as [Hr Herr]. fold r3 in Hr, Herr.
    assert (creates = events r3) as Hcreates.
    { subst creates. destruct (result r3); destruct Hrun as [_ ->];
        rewrite !callsOf_app, C1, C2, ?C4, ?app_nil_r;
        rewrite (retried_callsOf _ _ _ _ Hr); reflexivity. }
    assert (maxRetry <> O) as Hmax.
    { intros E. apply Hne. rewrite Hgets. subst r2. unfold getConfigRetry.
      rewrite E. reflexivity. }
    subst created. rewrite Hcreates. split; [|split].
    - intros E. apply Hmax. destruct Hr as (_ & _ & Hnil & _). auto.
    - apply Hr.
    - intros ev e Hlast Hout. unfold lastOutcome in Herr. rewrite Hlast, Hout in Herr.
      rewrite Herr in Hrun. apply Hrun. }
  destruct (getConfigRetry_record project (ConfigName (Detail config)) None
              (final r1)) as [Huntil Hdown].
  cbv zeta in Huntil, Hdown. fold r2 in Huntil, Hdown.
  rewrite <- Hgets in Huntil, Hdown.
  destruct Huntil as (_ & Hbound & _ & Hlast).
  assert (forall pre ev e, gets = pre ++ [ev] -> outcome ev = Some e -> created)
    as Hends.
  { intros pre ev e E Hout. apply Hcreated; [exact (Hdown pre ev e E Hout)|].
    rewrite E. destruct pre; discriminate. }
  assert (forall pre ev rest o,
            gets = pre ++ ev :: rest -> outcome ev = o ->
            match o with
            | None => true
            | Some e => hasSlsCode "ConfigNotExist" e
            end = true ->
            rest = []) as Hstops.
  { intros pre ev rest o E Hout Hstop.
    destruct rest as [|x rest]; [reflexivity|]. exfalso.
    destruct (exists_last (l := x :: rest) ltac:(discriminate)) as (mid & y & Emid).
    rewrite Emid in E.
    assert (gets = (pre ++ ev :: mid) ++ [y]) as E'
      by (rewrite E, <- app_assoc; reflexivity).
    destruct (Hlast _ _ E') as [Hpre _].
    apply Forall_app in Hpre as [_ Hev]. apply Forall_inv in Hev.
    rewrite Hout in Hev. congruence. }
  split; [exact Hbound|]. split; [|split].
  - intros pre ev rest e E Hout Hcode.
    assert (rest = []) as -> by (apply (Hstops pre ev rest (Some e) E Hout Hcode)).
    split; [reflexivity|]. exact (Hends pre ev e E Hout).
  - intros pre ev rest E (e & Hout & Hcode). split; [split|].
    + intros ->. destruct (Hlast pre ev E) as [_ Hfull].
      rewrite <- Hfull; [rewrite E, length_app; cbn [length]; lia|].
      rewrite Hout. exact Hcode.
    + intros Hfull. rewrite E, length_app in Hbound. cbn [length] in Hbound.
      destruct rest; [reflexivity|]. cbn [length] in Hbound. lia.
    + intros ->. exact (Hends pre ev e E Hout).
  - intros Hne Hall. rewrite Hgets in Hall. destruct (Hother Hall) as [Hlen Hok].
    rewrite Hgets. split; [exact Hlen|]. apply Hcreated; assumption.
Qed.

(** *** The update branch *)

Lemma updateExistingConfig_forced config project (aliyunLogConfig serverConfig : LogConfig) err s :
  SimpleConfig config = true ->
  DeclaredInputType (Detail config) <> InputType serverConfig ->
  is_Some (asMap (InputDetail serverConfig)) ->
  updateExistingConfig config project aliyunLogConfig serverConfig err s
  = updateConfigRetry project aliyunLogConfig err s.
Proof.
  intros Hsimple Hdiff Hmap. unfold updateExistingConfig. rewrite Hsimple.
  rewrite (bool_decide_eq_true_2 _ Hmap), (bool_decide_eq_true_2 _ Hdiff).
  assert (bool_decide (DeclaredInputType (Detail config) = "file")
          && bool_decide (InputType serverConfig = "file") = false) as ->.
  { apply andb_false_iff.
    destruct (decide (DeclaredInputType (Detail config) = "file")) as [E|E].
    - right. apply bool_decide_eq_false_2. congruence.
    - left. apply bool_decide_eq_false_2. exact E. }
  cbn [andb]. unfold bind, ret. cbn.
  destruct (updateConfigRetry project aliyunLogConfig err s) as [[? ?] ?].
  reflexivity.
Qed.

Lemma updateExistingConfig_same_type config project (aliyunLogConfig serverConfig : LogConfig) err s :
  DeclaredInputType (Detail config) = "file" ->
  InputType serverConfig = "file" ->
  patchFileConfig config project serverConfig
    (default ∅ (asMap (InputDetail serverConfig))) err s = (err, s, []) ->
  updateExistingConfig config project aliyunLogConfig serverConfig err s
  = (err, s, []).
Proof.
  intros Hlocal Hserver Hpatch. unfold updateExistingConfig.
  destruct (SimpleConfig config); [|reflexivity].
  assert (bool_decide (DeclaredInputType (Detail config) ≠ InputType serverConfig)
          = false) as ->.
  { apply bool_decide_eq_false_2. intros H. apply H. congruence. }
  cbn [andb]. unfold bind. cbn.
  destruct (_ && _ && _); [rewrite Hpatch|]; reflexivity.
Qed.

Lemma patchFileConfig_unchanged config project (serverConfig : LogConfig) detail err s :
  let localDetail := LogtailConfig (Detail config) in
  (InterfaceToString (index localDetail "logPath")).1
    = (InterfaceToString (index detail "logPath")).1 ->
  (InterfaceToString (index localDetail "filePattern")).1
    = (InterfaceToString (index detail "filePattern")).1 ->
  (InterfaceToJSONString (index localDetail "dockerIncludeEnv")).1
    = (InterfaceToJSONString (index detail "dockerIncludeEnv")).1 ->
  (InterfaceToJSONString (index localDetail "dockerIncludeLabel")).1
    = (InterfaceToJSONString (index detail "dockerIncludeLabel")).1 ->
  patchFileConfig config project serverConfig detail err s = (err, s, []).
Proof.
  intros localDetail Hpath Hpattern Henv Hlabel. unfold patchFileConfig.
  fold localDetail. cbv zeta.
  assert (checkFileConfigChanged
            (InterfaceToString (index localDetail "logPath")).1
            (InterfaceToString (index localDetail "filePattern")).1
            (InterfaceToJSONString (index localDetail "dockerIncludeEnv")).1
            (InterfaceToJSONString (index localDetail "dockerIncludeLabel")).1
            detail = false) as ->.
  { unfold checkFileConfigChanged.
    rewrite !orb_false_iff. repeat split; apply bool_decide_eq_false_2;
      intros H; apply H; assumption. }
  destruct (_ && _); reflexivity.
Qed.

Lemma patchFileConfig_incomplete config project (serverConfig : LogConfig) detail err s :
  ~ (exists filePattern logPath,
       LogtailConfig (Detail config) !! "filePattern" = Some (VString filePattern)
       /\ filePattern <> ""
       /\ LogtailConfig (Detail config) !! "logPath" = Some (VString logPath)
       /\ logPath <> "") ->
  patchFileConfig config project serverConfig detail err s = (err, s, []).
Proof.
  intros Hnot. unfold patchFileConfig. cbv zeta.
  destruct (_ && _) eqn:E; [|reflexivity].
  exfalso. apply Hnot. apply andb_true_iff in E as [Hp Hl].
  apply Z.ltb_lt in Hp, Hl. unfold index in Hp, Hl.
  destruct (LogtailConfig (Detail config) !! "filePattern") as [[| | |fp| |]|];
    cbn in Hp; try (unfold len in Hp; cbn in Hp; lia).
  destruct (LogtailConfig (Detail config) !! "logPath") as [[| | |lp| |]|];
    cbn in Hl; try (unfold len in Hl; cbn in Hl; lia).
  exists fp, lp. repeat split; try reflexivity.
  - intros ->. unfold len in Hp; cbn in Hp; lia.
  - intros ->. unfold len in Hl; cbn in Hl; lia.
Qed.

(** The [UpdateConfig] calls of a pass are those of its third step. *)
Lemma pass_updates config s :
  let project := targetProject (wrapper s) config in
  let r2 := fetchStep config s in
  callsOf isUpdateConfig (events (updateConfigInner config s)) =
  match result (logstoreStep config s) with
  | Some _ => []
  | None =>
      callsOf isUpdateConfig
        (events (createOrUpdateConfig config project
                   (localLogConfig config project)
                   (result r2).1.1 (result r2).1.2 (result r2).2 (final r2)))
  end.
Proof.
  intros project r2.
  pose proof (updateConfigInner_run config s) as Hrun. cbv zeta in Hrun.
  change (makesureLogstoreExist _ _ _ _ _ _ _ s) with (logstoreStep config s) in Hrun.
  change (getConfigRetry _ _ _ _) with (fetchStep config s) in Hrun.
  fold project r2 in Hrun.
  assert (callsOf isUpdateConfig (events (logstoreStep config s)) = []) as U1.
  { apply callsOf_none. unfold logstoreStep.
    assert (emits (notCall isUpdateConfig)
              (makesureLogstoreExist config project (Logstore config)
                 (default 0 (ShardCount config)) (default 0 (LifeCycle config))
                 (ProductCode config) (ProductLang config))) as H
      by emits_auto ltac:(reflexivity).
    apply H. }
  destruct (result (logstoreStep config s)).
  { destruct Hrun as [_ ->]. exact U1. }
  assert (callsOf isUpdateConfig (events r2) = []) as U2.
  { subst r2. unfold fetchStep.
    rewrite (callsOf_calls _ _ _ (getConfigRetry_calls _ _ _ _)). reflexivity. }
  assert (forall ok st, callsOf isUpdateConfig
            (events (applyToMachineGroup config project ok st)) = []) as U4.
  { intros ok st. apply callsOf_none.
    assert (emits (notCall isUpdateConfig)
              (applyToMachineGroup config project ok)) as H
      by emits_auto ltac:(reflexivity).
    apply H. }
  destruct (result (createOrUpdateConfig _ _ _ _ _ _ _)); destruct Hrun as [_ ->];
    rewrite !callsOf_app, U1, U2, ?U4, ?app_nil_r; reflexivity.
Qed.

Lemma foundRemote_branch config s serverConfig :
  foundRemote config s serverConfig ->
  let project := targetProject (wrapper s) config in
  let r2 := fetchStep config s in
  maxRetry <> O
  /\ callsOf isUpdateConfig (events (updateConfigInner config s)) =
     callsOf isUpdateConfig
       (events (updateExistingConfig config project
                  (localLogConfig config project) serverConfig
                  (result r2).2 (final r2))).
Proof.
  intros [Hlog Hfetch] project r2. split.
  - intros E. unfold fetchStep, getConfigRetry in Hfetch. rewrite E in Hfetch.
    discriminate.
  - rewrite pass_updates, Hlog. fold project r2 in Hfetch |- *.
    destruct (result r2) as [[ok sc] err]. cbn in Hfetch |- *.
    injection Hfetch as -> ->. reflexivity.
Qed.

(** C4. In simple mode, when the pass finds a remote config of type "file"
    for a declared type "file" and the four compared fields agree (log path
    and file pattern as strings, the two docker filters as marshalled JSON),
    the pass issues no [UpdateConfig] call. *)
Theorem unchanged_file_config_issues_no_update config s serverConfig detail :
  SimpleConfig config = true ->
  foundRemote config s serverConfig ->
  DeclaredInputType (Detail config) = "file" ->
  InputType serverConfig = "file" ->
  InputDetail serverConfig = VMap detail ->
  let localDetail := LogtailConfig (Detail config) in
  (InterfaceToString (index localDetail "logPath")).1
    = (InterfaceToString (index detail "logPath")).1 ->
  (InterfaceToString (index localDetail "filePattern")).1
    = (InterfaceToString (index detail "filePattern")).1 ->
  (InterfaceToJSONString (index localDetail "dockerIncludeEnv")).1
    = (InterfaceToJSONString (index detail "dockerIncludeEnv")).1 ->
  (InterfaceToJSONString (index localDetail "dockerIncludeLabel")).1
    = (InterfaceToJSONString (index detail "dockerIncludeLabel")).1 ->
  callsOf isUpdateConfig (events (updateConfigInner config s)) = [].
Proof.
  intros Hsimple Hfound Hlocal Hserver Hdetail localDetail Hpath Hpattern Henv Hlabel.
  destruct (foundRemote_branch config s serverConfig Hfound) as [_ ->].
  rewrite updateExistingConfig_same_type; [reflexivity|assumption|assumption|].
  rewrite Hdetail. cbn [asMap default].
  apply patchFileConfig_unchanged; assumption.
Qed.

(** C10. In simple mode with both input types "file", a declared detail that
    does not hold both "filePattern" and "logPath" as non-empty strings keeps
    the pass from patching: no [UpdateConfig] call is issued, whatever the
    remote fields are. *)
Theorem patch_needs_file_pattern_and_log_path config s serverConfig :
  SimpleConfig config = true ->
  foundRemote config s serverConfig ->
  DeclaredInputType (Detail config) = "file" ->
  InputType serverConfig = "file" ->
  ~ (exists filePattern logPath,
       LogtailConfig (Detail config) !! "filePattern" = Some (VString filePattern)
       /\ filePattern <> ""
       /\ LogtailConfig (Detail config) !! "logPath" = Some (VString logPath)
       /\ logPath <> "") ->
  callsOf isUpdateConfig (events (updateConfigInner config s)) = [].
Proof.
  intros Hsimple Hfound Hlocal Hserver Hnot.
  destruct (foundRemote_branch config s serverConfig Hfound) as [_ ->].
  rewrite updateExistingConfig_same_type; [reflexivity|assumption|assumption|].
  apply patchFileConfig_incomplete. exact Hnot.
Qed.

(** C5. In simple mode, when the pass finds a remote config, with a mapping
    as input detail, whose input type differs from the declared one, it calls
    [UpdateConfig] with the locally built config object, and with no other
    object, whatever the patch fields are. *)
Theorem input_type_change_forces_full_update config s serverConfig :
  SimpleConfig config = true ->
  foundRemote config s serverConfig ->
  DeclaredInputType (Detail config) <> InputType serverConfig ->
  is_Some (asMap (InputDetail serverConfig)) ->
  let project := targetProject (wrapper s) config in
  let updates := callsOf isUpdateConfig (events (updateConfigInner config s)) in
  updates <> []
  /\ Forall (fun ev => call ev
                = CallUpdateConfig project (localLogConfig config project))
       updates.
Proof.
  intros Hsimple Hfound Hdiff Hmap project updates. subst updates.
  destruct (foundRemote_branch config s serverConfig Hfound) as [Hmax ->].
  fold project. rewrite updateExistingConfig_forced by assumption.
  destruct (updateConfigRetry_retried project (localLogConfig config project)
              (result (fetchStep config s)).2 (final (fetchStep config s)))
    as [Hr _].
  rewrite (retried_callsOf _ _ _ _ Hr). cbn [isUpdateConfig].
  split; [|apply Hr]. intros E. apply Hmax. destruct Hr as (_ & _ & Hnil & _). auto.
Qed.

(** *** The machine group step *)

(** The target of the binding: the first declared group, else the default. *)
Lemma applyToMachineGroup_run config project ok s :
  let configName := ConfigName (Detail config) in
  let machineGroup :=
    match MachineGroups config with
    | g :: _ => g
    | [] => DefaultLogMachineGroup
    end in
  let r := applyToMachineGroup config project ok s in
  exists evG evA,
    events r = events (makesureMachineGroupExist project machineGroup s)
               ++ evG ++ evA
    /\ Forall (fun ev => call ev = CallGetAppliedMachineGroups project configName) evG
    /\ ((evG <> [] /\ evA = [] /\ exists e, result r = Some e)
        \/ (retried (CallApplyConfigToMachineGroup project configName machineGroup)
              maxRetry evA
            /\ result r =
               match lastOutcome None evA with
               | Some e =>
                   Some (Errorf ("ApplyConfigToMachineGroup error, config : "
                                 +:+ configName +:+ ", machine group : "
                                 +:+ machineGroup +:+ ", error : "
                                 +:+ errorText e))
               | None => None
               end)).
Proof.
  intros configName machineGroup r. subst r. unfold applyToMachineGroup.
  fold configName machineGroup. cbv zeta.
  rewrite events_bind, result_bind. cbv beta.
  set (s1 := final (makesureMachineGroupExist project machineGroup s)).
  rewrite events_bind, result_bind. cbv beta.
  match goal with |- context [events (?m s1) ++ _] => set (checked := m s1) end.
  assert (Forall (fun ev => call ev = CallGetAppliedMachineGroups project configName)
            (events checked)
          /\ ((exists e, result checked = inl e) -> events checked <> [])) as [HG Hne].
  { subst checked. destruct ok.
    - rewrite events_bind, result_bind. cbv beta.
      match goal with |- context [forRange maxRetry ?b ?l s1] =>
        destruct (forRange_retried
                    (CallGetAppliedMachineGroups project configName) snd b
                    ltac:(attempts_tac) maxRetry l s1) as [Hr Herr];
        set (loop := forRange maxRetry b l s1) in *
      end.
      destruct (result loop).2 as [e|] eqn:E; cbn; rewrite app_nil_r.
      + split; [apply Hr|]. intros _ Hnil. rewrite Hnil in Herr. discriminate.
      + split; [apply Hr|]. intros [e He]. discriminate.
    - cbn. split; [constructor|]. intros [e He]. discriminate. }
  exists (events checked).
  destruct (result checked) as [e|b] eqn:Hchecked.
  - exists []. cbn. split; [reflexivity|]. split; [exact HG|]. left.
    split; [apply Hne; eauto|]. split; [reflexivity|]. eauto.
  - rewrite events_bind, result_bind. cbv beta.
    match goal with |- context [forRange maxRetry ?b ?l ?st] =>
      destruct (forRange_retried
                  (CallApplyConfigToMachineGroup project configName machineGroup)
                  id b ltac:(attempts_tac) maxRetry l st) as [Hr Herr];
      set (loop := forRange maxRetry b l st) in *
    end.
    exists (events loop). unfold id in Herr. rewrite <- Herr.
    destruct (result loop) as [e|]; cbn; rewrite ?app_nil_r;
      (split; [reflexivity|]); (split; [exact HG|]); right; (split; [exact Hr|]);
      reflexivity.
Qed.

Lemma notCall_onMachineGroup (kind : Call -> bool) :
  (forall c, kind c = true -> onMachineGroup c = true) ->
  forall ev, notCall onMachineGroup ev -> notCall kind ev.
Proof.
  unfold notCall. intros Hkind ev Hev.
  destruct (kind (call ev)) eqn:E; [|reflexivity].
  apply Hkind in E. congruence.
Qed.

(** A pass either stops with an error before its machine group step, having
    made no call on machine groups, or ends with that step, whose result and
    machine group calls are then those of the pass. *)
Lemma pass_ends config s :
  let project := targetProject (wrapper s) config in
  let run := updateConfigInner config s in
  ((exists e, result run = Some e)
   /\ forall kind, (forall c, kind c = true -> onMachineGroup c = true) ->
      callsOf kind (events run) = [])
  \/ (exists ok st,
        let r4 := applyToMachineGroup config project ok st in
        result run = result r4
        /\ forall kind, (forall c, kind c = true -> onMachineGroup c = true) ->
           callsOf kind (events run) = callsOf kind (events r4)).
Proof.
  intros project run. subst run.
  pose proof (updateConfigInner_run config s) as Hrun. cbv zeta in Hrun.
  fold project in Hrun.
  set (r1 := makesureLogstoreExist config project (Logstore config)
               (default 0 (ShardCount config)) (default 0 (LifeCycle config))
               (ProductCode config) (ProductLang config) s) in *.
  assert (Forall (notCall onMachineGroup) (events r1)) as N1.
  { assert (emits (notCall onMachineGroup)
              (makesureLogstoreExist config project (Logstore config)
                 (default 0 (ShardCount config)) (default 0 (LifeCycle config))
                 (ProductCode config) (ProductLang config))) as H
      by emits_auto ltac:(reflexivity).
    apply H. }
  assert (forall k, (forall c, k c = true -> onMachineGroup c = true) ->
            callsOf k (events r1) = []) as K1.
  { intros k Hk. apply callsOf_none. eapply Forall_impl; [exact N1|].
    apply notCall_onMachineGroup. exact Hk. }
  destruct (result r1) as [e1|].
  { destruct Hrun as [Hres Hev]. left. split; [eauto|].
    intros k Hk. rewrite Hev. apply K1, Hk. }
  set (r2 := getConfigRetry project (ConfigName (Detail config)) None (final r1)) in *.
  set (r3 := createOrUpdateConfig config project (localLogConfig config project)
               (result r2).1.1 (result r2).1.2 (result r2).2 (final r2)) in *.
  assert (forall k, (forall c, k c = true -> onMachineGroup c = true) ->
            callsOf k (events r2) = []) as K2.
  { intros k Hk. subst r2.
    rewrite (callsOf_calls _ _ _ (getConfigRetry_calls _ _ _ _)).
    destruct (k (CallGetConfig project (ConfigName (Detail config)))) eqn:E;
      [|reflexivity]. apply Hk in E. discriminate. }
  assert (forall k, (forall c, k c = true -> onMachineGroup c = true) ->
            callsOf k (events r3) = []) as K3.
  { intros k Hk. apply callsOf_none.
    assert (forall ok sc err, emits (notCall onMachineGroup)
              (createOrUpdateConfig config project (localLogConfig config project)
                 ok sc err)) as H
      by (intros; emits_auto ltac:(reflexivity)).
    eapply Forall_impl; [apply H|]. apply notCall_onMachineGroup. exact Hk. }
  destruct (result r3) as [e3|].
  { destruct Hrun as [Hres Hev]. left. split; [eauto|].
    intros k Hk. rewrite Hev, !callsOf_app, (K1 _ Hk), (K2 _ Hk), (K3 _ Hk).
    reflexivity. }
  destruct Hrun as [Hres Hev]. right.
  exists (result r2).1.1, (final r3). split; [exact Hres|].
  intros k Hk. rewrite Hev, !callsOf_app, (K1 _ Hk), (K2 _ Hk), (K3 _ Hk).
  reflexivity.
Qed.

(** A pass that made a call on machine groups ended with its last step. *)
Lemma pass_reaches_machine_group config s kind :
  (forall c, kind c = true -> onMachineGroup c = true) ->
  callsOf kind (events (updateConfigInner config s)) <> [] ->
  let project := targetProject (wrapper s) config in
  exists ok st,
    let r4 := applyToMachineGroup config project ok st in
    result (updateConfigInner config s) = result r4
    /\ forall kind', (forall c, kind' c = true -> onMachineGroup c = true) ->
       callsOf kind' (events (updateConfigInner config s))
       = callsOf kind' (events r4).
Proof.
  intros Hkind Hne project.
  destruct (pass_ends config s) as [[_ Hnone]|Hlast].
  - exfalso. apply Hne, Hnone, Hkind.
  - exact Hlast.
Qed.

(** The calls of one kind in the machine group step, split by its parts. *)
Lemma applyToMachineGroup_calls config project ok s :
  let configName := ConfigName (Detail config) in
  let machineGroup :=
    match MachineGroups config with
    | g :: _ => g
    | [] => DefaultLogMachineGroup
    end in
  let r := applyToMachineGroup config project ok s in
  let mg := makesureMachineGroupExist project machineGroup s in
  callsOf isCreateMachineGroup (events r) = callsOf isCreateMachineGroup (events mg)
  /\ callsOf isCheckMachineGroupExist (events r)
     = callsOf isCheckMachineGroupExist (events mg)
  /\ ((callsOf isGetAppliedMachineGroups (events r) <> []
       /\ callsOf isApplyConfigToMachineGroup (events r) = []
       /\ exists e, result r = Some e)
      \/ (retried (CallApplyConfigToMachineGroup project configName machineGroup)
            maxRetry (callsOf isApplyConfigToMachineGroup (events r))
          /\ result r =
             match lastOutcome None
                     (callsOf isApplyConfigToMachineGroup (events r)) with
             | Some e =>
                 Some (Errorf ("ApplyConfigToMachineGroup error, config : "
                               +:+ configName +:+ ", machine group : "
                               +:+ machineGroup +:+ ", error : "
                               +:+ errorText e))
             | None => None
             end)).
Proof.
  intros configName machineGroup r mg.
  destruct (applyToMachineGroup_run config project ok s)
    as (evG & evA & Hev & HG & Hcases).
  fold configName machineGroup r mg in Hev, Hcases.
  assert (callsOf isApplyConfigToMachineGroup (events mg) = []) as A1.
  { apply callsOf_none.
    assert (emits (notCall isApplyConfigToMachineGroup)
              (makesureMachineGroupExist project machineGroup)) as H
      by emits_auto ltac:(reflexivity).
    apply H. }
  assert (callsOf isGetAppliedMachineGroups (events mg) = []) as G1.
  { apply callsOf_none.
    assert (emits (notCall isGetAppliedMachineGroups)
              (makesureMachineGroupExist project machineGroup)) as H
      by emits_auto ltac:(reflexivity).
    apply H. }
  rewrite Hev, !callsOf_app, A1, G1, !(callsOf_calls _ _ _ HG).
  cbn [isCreateMachineGroup isCheckMachineGroupExist isGetAppliedMachineGroups
       isApplyConfigToMachineGroup app].
  destruct Hcases as [(HneG & -> & He)|[Hr Hres]].
  - cbn. rewrite !app_nil_r. repeat split. left.
    split; [exact HneG|]. split; [reflexivity|exact He].
  - rewrite !(retried_callsOf _ _ _ _ Hr).
    cbn [isCreateMachineGroup isCheckMachineGroupExist isApplyConfigToMachineGroup].
    rewrite !app_nil_r. repeat split. right. split; assumption.
Qed.

(** C2, as the code has it.  When the creation of the machine group has failed
    on every attempt of a pass, [updateConfigInner] drops the error
    [makesureMachineGroupExist] returns: the pass goes on with the query of
    the applied machine groups or with the binding, and it returns no error
    whenever its last [ApplyConfigToMachineGroup] call succeeds. *)
Theorem machine_group_failure_is_dropped config s :
  let run := updateConfigInner config s in
  let creates := callsOf isCreateMachineGroup (events run) in
  let applies := callsOf isApplyConfigToMachineGroup (events run) in
  creates <> [] ->
  Forall failed creates ->
  (callsOf isGetAppliedMachineGroups (events run) <> [] \/ applies <> [])
  /\ (forall ev, last applies = Some ev -> outcome ev = None -> result run = None).
Proof.
  intros run creates applies Hne _. subst run creates applies.
  destruct (pass_reaches_machine_group config s isCreateMachineGroup
              ltac:(intros []; cbn; congruence) Hne) as (ok & st & Hres & Hcalls).
  cbv zeta in Hres, Hcalls.
  rewrite (Hcalls isCreateMachineGroup ltac:(intros []; cbn; congruence)) in Hne.
  rewrite (Hcalls isGetAppliedMachineGroups ltac:(intros []; cbn; congruence)).
  rewrite (Hcalls isApplyConfigToMachineGroup ltac:(intros []; cbn; congruence)).
  rewrite Hres.
  destruct (applyToMachineGroup_calls config (targetProject (wrapper s) config) ok st)
    as (Hcreates & _ & Hcases).
  cbv zeta in Hcreates, Hcases. rewrite Hcreates in Hne.
  destruct (makesureMachineGroupExist_creates _ _ _ Hne) as [(_ & Hlen & Hnil & _) _].
  assert (maxRetry <> O) as Hmax.
  { intros E. rewrite E in Hlen. apply Hne. apply length_zero_iff_nil. lia. }
  destruct Hcases as [(HG & HA & _)|[Hr Hresult]].
  - split; [left; exact HG|]. rewrite HA. discriminate.
  - split.
    + right. intros E. apply Hmax. destruct Hr as (_ & _ & Hn & _). auto.
    + intros ev Hlast Hout. rewrite Hresult. unfold lastOutcome.
      rewrite Hlast, Hout. reflexivity.
Qed.

(** C1, as the code has it.  Whatever [GetAppliedMachineGroups] answers, a
    pass that returns no error, under a positive retry bound, has called
    [ApplyConfigToMachineGroup], a mutating call, and its last such call
    succeeded: the membership of the target group among the applied ones
    never spares the bind call. *)
Theorem successful_pass_has_bound_the_config config s :
  maxRetry <> O ->
  result (updateConfigInner config s) = None ->
  exists ev,
    last (callsOf isApplyConfigToMachineGroup (events (updateConfigInner config s)))
    = Some ev
    /\ outcome ev = None
    /\ mutating (call ev) = true.
Proof.
  intros Hmax Hnone.
  destruct (pass_ends config s) as [[[e He] _]|(ok & st & Hres & Hcalls)].
  { rewrite He in Hnone. discriminate. }
  cbv zeta in Hres, Hcalls.
  rewrite (Hcalls isApplyConfigToMachineGroup ltac:(intros []; cbn; congruence)).
  rewrite Hres in Hnone.
  destruct (applyToMachineGroup_calls config (targetProject (wrapper s) config) ok st)
    as (_ & _ & [(_ & _ & e & He)|[Hr Hresult]]).
  { cbv zeta in He. rewrite He in Hnone. discriminate. }
  cbv zeta in Hr, Hresult.
  set (applies := callsOf isApplyConfigToMachineGroup _) in *.
  assert (applies <> []) as Hne.
  { intros E. apply Hmax. destruct Hr as (_ & _ & Hn & _). auto. }
  destruct (retried_last _ _ _ Hr Hne) as (pre & ev & E).
  exists ev. rewrite E, last_snoc. split; [reflexivity|].
  rewrite Hresult, E, lastOutcome_snoc in Hnone.
  destruct Hr as (Hall & _). rewrite E in Hall.
  apply Forall_app in Hall as [_ Hev]. rewrite (Forall_inv Hev).
  split; [|reflexivity]. destruct (outcome ev); [discriminate|reflexivity].
Qed.


(** *** The retry loops of a pass *)














End Pass.

(** ** The statements on the in-memory control plane *)

(** C9 at a wrapper that confirmed the logstore 100 seconds ago, for a
    validity of 600 seconds: the query answers true. *)
Lemma cache_hit_iff_entry_within_ttl_witness :
  - 2 ^ 63 <= 1000000000 * 600 < 2 ^ 63
  /\ result (logstoreCacheExists (platform := mockPlatform noFault boom)
               "k8s-log" "app-log" cachedState) = true.
Proof.
  assert (- 2 ^ 63 <= 1000000000 * 600 < 2 ^ 63) as H by lia.
  split; [exact H|].
  apply (proj1 (cache_hit_iff_entry_within_ttl
                  (platform := mockPlatform noFault boom) (flags := mockFlags)
                  "k8s-log" "app-log" cachedState H)).
  exists (900 * Second). split; [reflexivity|]. vm_compute. reflexivity.
Defined.

(** C6 on a logstore that does not exist yet: the one [CreateLogStore] call
    for 15 shards and no life cycle asks for 10 shards and 180 days. *)
Example create_logstore_clamped_example :
  callsOf isCreateLogStore
    (events (makesureLogstoreExist (logClient := mockClient noFault boom)
               (platform := mockPlatform noFault boom)
               appConfig "k8s-log" "app-log" 15 0 "" "" (freshState 0)))
  = [{| call := CallCreateLogStore "k8s-log" "app-log" 180 10 true 32;
        outcome := None |}].
Proof. vm_compute. reflexivity. Qed.

(** C8 at the audit logstore of the source's comment. *)
Lemma audit_logstore_goes_to_product_path_witness :
  let run := makesureLogstoreExist (logClient := mockClient noFault boom)
               (platform := mockPlatform noFault boom)
               appConfig "k8s-log" auditLogstore 0 0 "" "" (freshState 0) in
  events run =
    [{| call := CallCreateProductLogstore "cn-hangzhou" "k8s-log" auditLogstore
                  "k8s-audit" "cn";
        outcome := result run |}]
  /\ callsOf isCheckLogstoreExist (events run) = []
  /\ callsOf isCreateLogStore (events run) = [].
Proof.
  apply (audit_logstore_goes_to_product_path
           (logClient := mockClient noFault boom)
           (platform := mockPlatform noFault boom) (flags := mockFlags)
           appConfig "k8s-log" auditLogstore 0 0 "" "" (freshState 0));
    vm_compute; reflexivity.
Defined.

(** C1 on the in-memory control plane.  A first pass creates the config and
    binds it to the default machine group; a second pass over the same spec
    finds the group among the applied ones and still calls
    [ApplyConfigToMachineGroup]: one mutating call, where C1 has none. *)
Lemma second_pass_binds_again :
  let first := mockPass noFault appConfig (freshState 0) in
  let second := mockPass noFault appConfig (final first) in
  result first = None
  /\ result second = None
  /\ (GetAppliedMachineGroups (ClientInterface := mockClient noFault boom)
        "k8s-log" "app-config" (world (final first))).1 = (["k8s-group"], None)
  /\ List.map call (events second)
     = [CallGetConfig "k8s-log" "app-config";
        CallCheckMachineGroupExist "k8s-log" "k8s-group";
        CallGetAppliedMachineGroups "k8s-log" "app-config";
        CallApplyConfigToMachineGroup "k8s-log" "app-config" "k8s-group"]
  /\ List.map call (List.filter (fun ev => mutating (call ev)) (events second))
     = [CallApplyConfigToMachineGroup "k8s-log" "app-config" "k8s-group"]
  /\ exists ev,
       last (callsOf isApplyConfigToMachineGroup (events second)) = Some ev
       /\ outcome ev = None /\ mutating (call ev) = true.
Proof.
  intros first second.
  split; [vm_compute; reflexivity|]. split; [vm_compute; reflexivity|].
  split; [vm_compute; reflexivity|]. split; [vm_compute; reflexivity|].
  split; [vm_compute; reflexivity|].
  apply (successful_pass_has_bound_the_config
           (logClient := mockClient noFault boom)
           (platform := mockPlatform noFault boom) (flags := mockFlags)
           appConfig (final first)).
  - vm_compute. discriminate.
  - vm_compute. reflexivity.
Defined.

(** C2 as stated fails: with a machine group creation that fails on all three
    attempts, the pass over [appConfig] returns no error. *)
Lemma machine_group_failure_does_not_abort :
  ~ (forall (W : Type) (logClient : ClientInterface W) (platform : Platform W)
            (flags : Flags) (config : AliyunLogConfigSpec) (s : State W),
        let run := updateConfigInner config s in
        let creates := callsOf isCreateMachineGroup (events run) in
        creates <> [] -> Forall failed creates ->
        exists e, result run = Some e).
Proof.
  intros H.
  destruct (H Remote (mockClient isCreateMachineGroup boom)
              (mockPlatform isCreateMachineGroup boom) mockFlags appConfig
              (freshState 3)) as [e He].
  - vm_compute. discriminate.
  - vm_compute. repeat constructor; discriminate.
  - vm_compute in He. discriminate.
Qed.

(** The amended C2 on that pass. *)
Lemma machine_group_failure_is_dropped_witness :
  result (mockPass isCreateMachineGroup appConfig (freshState 3)) = None.
Proof.
  refine (proj2 (machine_group_failure_is_dropped
                   (logClient := mockClient isCreateMachineGroup boom)
                   (platform := mockPlatform isCreateMachineGroup boom)
                   (flags := mockFlags) appConfig (freshState 3) _ _)
            {| call := CallApplyConfigToMachineGroup "k8s-log" "app-config" "k8s-group";
               outcome := None |} _ _).
  - vm_compute. discriminate.
  - vm_compute. repeat constructor; discriminate.
  - vm_compute. reflexivity.
  - reflexivity.
Defined.

(** C3 on a first pass, where the fetch is answered "ConfigNotExist" once; on
    a pass whose three fetches fail with a server error; and on a pass whose
    first fetch fails with a server error and whose second is answered
    "ConfigNotExist", which is the last: all three create. *)
Lemma fetch_absent_or_failing_goes_to_create_witness :
  length (callsOf isGetConfig (events (mockPass noFault appConfig (freshState 0))))
  = 1%nat
  /\ callsOf isCreateConfig (events (mockPass noFault appConfig (freshState 0)))
     <> []
  /\ length (callsOf isGetConfig (events (mockPass isGetConfig appConfig (freshState 3))))
     = 3%nat
  /\ callsOf isCreateConfig (events (mockPass isGetConfig appConfig (freshState 3)))
     <> []
  /\ callsOf isGetConfig (events (mockPass isGetConfig appConfig (freshState 1)))
     = [{| call := CallGetConfig "k8s-log" "app-config"; outcome := Some boom |};
        {| call := CallGetConfig "k8s-log" "app-config";
           outcome := Some configNotExist |}]
  /\ callsOf isCreateConfig (events (mockPass isGetConfig appConfig (freshState 1)))
     <> [].
Proof.
  destruct (fetch_absent_or_failing_goes_to_create
              (logClient := mockClient noFault boom)
              (platform := mockPlatform noFault boom) (flags := mockFlags)
              appConfig (freshState 0)) as (_ & Habsent & _ & _).
  destruct (fetch_absent_or_failing_goes_to_create
              (logClient := mockClient isGetConfig boom)
              (platform := mockPlatform isGetConfig boom) (flags := mockFlags)
              appConfig (freshState 3)) as (_ & _ & _ & Hfailing).
  destruct (fetch_absent_or_failing_goes_to_create
              (logClient := mockClient isGetConfig boom)
              (platform := mockPlatform isGetConfig boom) (flags := mockFlags)
              appConfig (freshState 1)) as (_ & Hsecond & _ & _).
  cbv zeta in Habsent, Hfailing, Hsecond.
  destruct (Habsent [] {| call := CallGetConfig "k8s-log" "app-config";
                          outcome := Some configNotExist |} [] configNotExist)
    as [_ [Hcreated _]]; [vm_compute; reflexivity|reflexivity|reflexivity|].
  destruct (Hsecond [{| call := CallGetConfig "k8s-log" "app-config";
                        outcome := Some boom |}]
              {| call := CallGetConfig "k8s-log" "app-config";
                 outcome := Some configNotExist |} [] configNotExist)
    as [_ [Hcreated2 _]]; [vm_compute; reflexivity|reflexivity|reflexivity|].
  destruct Hfailing as [Hlen [Hcreated' _]].
  - vm_compute. discriminate.
  - vm_compute. repeat constructor; exists boom; split; reflexivity.
  - split; [vm_compute; reflexivity|]. split; [exact Hcreated|].
    split; [exact Hlen|]. split; [exact Hcreated'|].
    split; [vm_compute; reflexivity|exact Hcreated2].
Defined.

(** C4 on the second pass over [appConfig]: nothing changed, no update. *)
Lemma unchanged_file_config_issues_no_update_witness :
  callsOf isUpdateConfig (events (mockPass noFault appConfig afterFirstPass)) = [].
Proof.
  apply (unchanged_file_config_issues_no_update
           (logClient := mockClient noFault boom)
           (platform := mockPlatform noFault boom) (flags := mockFlags)
           appConfig afterFirstPass
           (localLogConfig (platform := mockPlatform noFault boom) appConfig "k8s-log")
           appDetail);
    try reflexivity.
  split; vm_compute; reflexivity.
Defined.

(** C10 on a pass that declares another file pattern and no log path, over
    the config the first pass created: no update. *)
Lemma patch_needs_file_pattern_and_log_path_witness :
  callsOf isUpdateConfig (events (mockPass noFault noPathConfig afterFirstPass)) = [].
Proof.
  apply (patch_needs_file_pattern_and_log_path
           (logClient := mockClient noFault boom)
           (platform := mockPlatform noFault boom) (flags := mockFlags)
           noPathConfig afterFirstPass
           (localLogConfig (platform := mockPlatform noFault boom) appConfig "k8s-log"));
    try reflexivity.
  - split; vm_compute; reflexivity.
  - intros (filePattern & logPath & _ & _ & Hpath & _).
    vm_compute in Hpath. discriminate.
Defined.

(** With both fields declared, a changed file pattern is patched: the guard of
    C10 is what keeps the pass above from updating. *)
Example changed_pattern_is_patched :
  List.map call
    (callsOf isUpdateConfig
       (events (mockPass noFault
                  {| Project := ""; Logstore := "app-log"; ShardCount := None;
                     LifeCycle := None; ProductCode := ""; ProductLang := "";
                     MachineGroups := []; SimpleConfig := true;
                     Detail := {| ConfigName := "app-config";
                                  DeclaredInputType := "file";
                                  LogtailConfig :=
                                    <["logPath" := VString "/var/log/app"]>
                                      (<["filePattern" := VString "*.txt"]> ∅) |} |}
                  afterFirstPass)))
  = [CallUpdateConfig "k8s-log"
       {| Name := "app-config"; InputType := "file";
          InputDetail :=
            VMap (<["dockerIncludeEnv" := VNil]>
                    (<["logPath" := VString "/var/log/app"]>
                       (<["filePattern" := VString "*.txt"]> ∅)));
          OutputType := "LogService";
          OutputDetails := {| ProjectName := "k8s-log"; LogStoreName := "app-log" |} |}].
Proof. vm_compute. reflexivity. Qed.

(** C5 on a pass that declares the type "plugin" over the file config the
    first pass created. *)
Lemma input_type_change_forces_full_update_witness :
  let updates :=
    callsOf isUpdateConfig (events (mockPass noFault pluginConfig afterFirstPass)) in
  updates <> []
  /\ Forall (fun ev => call ev
               = CallUpdateConfig "k8s-log"
                   (localLogConfig (platform := mockPlatform noFault boom)
                      pluginConfig "k8s-log"))
       updates.
Proof.
  apply (input_type_change_forces_full_update
           (logClient := mockClient noFault boom)
           (platform := mockPlatform noFault boom) (flags := mockFlags)
           pluginConfig afterFirstPass
           (localLogConfig (platform := mockPlatform noFault boom) appConfig "k8s-log")).
  - reflexivity.
  - split; vm_compute; reflexivity.
  - vm_compute. discriminate.
  - eexists. reflexivity.
Defined.



(** ** The helpers of [pkg/util] *)

Lemma append_cons a s t : String a s +:+ t = String a (s +:+ t).
Proof. reflexivity. Qed.

Lemma append_nil_l s : "" +:+ s = s.
Proof. reflexivity. Qed.

Lemma append_nil_r s : s +:+ "" = s.
Proof.
  induction s as [|a s IH]; [reflexivity|]. rewrite append_cons, IH. reflexivity.
Qed.

Lemma takeBytes_dropBytes n s : takeBytes n s +:+ dropBytes n s = s.
Proof.
  revert s. induction n as [|n IH]; intros [|a s]; try reflexivity.
  cbn [takeBytes dropBytes]. rewrite append_cons, IH. reflexivity.
Qed.

Lemma length_takeBytes n s :
  String.length (takeBytes n s) = Nat.min n (String.length s).
Proof.
  revert s. induction n as [|n IH]; intros [|a s]; cbn; try reflexivity.
  rewrite IH. reflexivity.
Qed.

Lemma length_dropBytes n s :
  String.length (dropBytes n s) = (String.length s - n)%nat.
Proof.
  revert s. induction n as [|n IH]; intros [|a s]; cbn; try reflexivity.
  apply IH.
Qed.

Lemma takeBytes_all n s : (String.length s <= n)%nat -> takeBytes n s = s.
Proof.
  revert s. induction n as [|n IH]; intros [|a s]; cbn; try reflexivity; try lia.
  intros H. rewrite IH by lia. reflexivity.
Qed.

Lemma dropBytes_add a b s : dropBytes (a + b) s = dropBytes b (dropBytes a s).
Proof.
  revert s. induction a as [|a IH]; intros s; [reflexivity|].
  destruct s as [|c s]; cbn; [destruct b; reflexivity|apply IH].
Qed.

Lemma slice_take s n :
  0 <= n <= len s -> slice s 0 n = Some (takeBytes (Z.to_nat n) s).
Proof.
  intros H. unfold slice.
  destruct (Z.leb_spec 0 0); [|lia]. destruct (Z.leb_spec 0 n); [|lia].
  destruct (Z.leb_spec n (len s)); [|lia]. cbn. rewrite Z.sub_0_r. reflexivity.
Qed.

Lemma sliceFrom_drop s n :
  0 <= n <= len s -> sliceFrom s n = Some (dropBytes (Z.to_nat n) s).
Proof.
  intros H. unfold sliceFrom, slice.
  destruct (Z.leb_spec 0 n); [|lia]. destruct (Z.leb_spec n (len s)); [|lia].
  destruct (Z.leb_spec (len s) (len s)); [|lia]. cbn.
  rewrite takeBytes_all; [reflexivity|].
  rewrite length_dropBytes. unfold len in *. lia.
Qed.

(** X1. [ReadFirstBlock] returns [block] exactly when the line is [block]
    followed by a rest, every byte of [block] is between 33 and 126, and the
    rest is empty or starts with a byte outside that range. *)
Theorem ReadFirstBlock_is_the_longest_printable_prefix line block :
  ReadFirstBlock line = block <->
  exists rest,
    line = block +:+ rest
    /\ Forall (fun c => printable c = true) (String.list_ascii_of_string block)
    /\ match rest with
       | EmptyString => True
       | String c _ => printable c = false
       end.
Proof.
  split.
  - intros <-. induction line as [|c line IH]; cbn [ReadFirstBlock].
    + exists "". repeat split. constructor.
    + destruct (printable c) eqn:E.
      * destruct IH as (rest & Hline & Hall & Hrest). exists rest.
        rewrite append_cons, <- Hline.
        repeat split; [constructor; assumption|exact Hrest].
      * exists (String c line). repeat split; [constructor|exact E].
  - intros (rest & -> & Hall & Hrest). induction block as [|c block IH].
    + rewrite append_nil_l. destruct rest as [|c rest]; [reflexivity|].
      cbn [ReadFirstBlock]. rewrite Hrest. reflexivity.
    + cbn [String.list_ascii_of_string] in Hall.
      inversion Hall as [|? ? Hc Hall']; subst.
      rewrite append_cons. cbn [ReadFirstBlock]. rewrite Hc, (IH Hall'). reflexivity.
Qed.

(** X2. [CutString] panics exactly on a negative bound; otherwise it returns
    a prefix of the value, of length the smaller of the value's length and
    the bound. *)
Theorem CutString_cuts_or_panics val maxLen :
  (CutString val maxLen = None <-> maxLen < 0)
  /\ forall cut, CutString val maxLen = Some cut ->
       len cut = Z.min (len val) maxLen
       /\ exists rest, val = cut +:+ rest.
Proof.
  unfold CutString. assert (0 <= len val) as Hlen by (unfold len; lia).
  destruct (Z.ltb_spec (len val) maxLen) as [H|H].
  - split; [split; [discriminate|lia]|].
    intros cut [= <-]. split; [lia|]. exists "". symmetry. apply append_nil_r.
  - destruct (Z.lt_ge_cases maxLen 0) as [Hneg|Hpos].
    + split; [split; [intros _; exact Hneg|]|].
      * intros _. unfold slice. destruct (Z.leb_spec 0 maxLen); [lia|]. reflexivity.
      * unfold slice. destruct (Z.leb_spec 0 maxLen); [lia|]. discriminate.
    + rewrite slice_take by lia. split; [split; [discriminate|lia]|].
      intros cut [= <-]. split.
      * unfold len in *. rewrite length_takeBytes. lia.
      * exists (dropBytes (Z.to_nat maxLen) val). symmetry. apply takeBytes_dropBytes.
Qed.

Lemma alphanumAt_in b : In (alphanumAt b) (String.list_ascii_of_string alphanum).
Proof.
  unfold alphanumAt.
  assert (nat_of_ascii b mod String.length alphanum < 62)%nat as H
    by (apply Nat.mod_upper_bound; discriminate).
  revert H. generalize (nat_of_ascii b mod String.length alphanum)%nat as i.
  intros i H. do 62 (destruct i as [|i]; [vm_compute; tauto|]).
  cbn in H. lia.
Qed.

(** X3. [RandomString] yields as many bytes as it was given, each a digit or
    an ASCII letter; and it is biased: of the 256 values of a byte, five are
    turned into each of "0" to "7" and four into every other character. *)
Theorem RandomString_is_alphanumeric_and_biased :
  (forall slice,
     String.length (RandomString slice) = length slice
     /\ Forall (fun c => In c (String.list_ascii_of_string alphanum))
          (String.list_ascii_of_string (RandomString slice)))
  /\ forall c, In c (String.list_ascii_of_string alphanum) ->
       length (List.filter (fun b => Ascii.eqb (alphanumAt b) c) allBytes)
       = if (nat_of_ascii c <? 56)%nat then 5%nat else 4%nat.
Proof.
  split.
  - intros slice. unfold RandomString. split.
    + induction slice as [|b slice IH]; cbn; [reflexivity|]. rewrite IH. reflexivity.
    + rewrite String.list_ascii_of_string_of_list_ascii.
      induction slice as [|b slice IH]; cbn; constructor; [apply alphanumAt_in|exact IH].
  - intros c Hc. cbn in Hc.
    repeat (destruct Hc as [<-|Hc]; [vm_compute; reflexivity|]).
    destruct Hc.
Qed.

Section SnakeCase.

Context `{Unicode}.

Lemma snakeFrom_erase prev runes :
  List.filter (fun r => negb (r =? underscore)) (snakeFrom prev runes)
  = List.filter (fun r => negb (r =? underscore)) (List.map ToLower runes).
Proof.
  revert prev. induction runes as [|r rest IH]; intros prev; [reflexivity|].
  cbn [snakeFrom List.map]. rewrite List.filter_app.
  cbn [List.filter]. rewrite IH.
  match goal with |- context [if ?b then [underscore] else []] => destruct b end;
    cbn; destruct (negb (ToLower r =? underscore)); reflexivity.
Qed.

Lemma snakeFrom_length prev runes :
  (length runes <= length (snakeFrom prev runes) <= 2 * length runes)%nat
  /\ (prev = None -> runes <> [] ->
      length (snakeFrom prev runes) < 2 * length runes)%nat.
Proof.
  revert prev. induction runes as [|r rest IH]; intros prev.
  - cbn. split; [lia|]. intros _ Hne. exfalso. apply Hne. reflexivity.
  - cbn [snakeFrom]. rewrite length_app. cbn [length].
    destruct (IH (Some r)) as [[Hlo Hhi] _]. split.
    + match goal with |- context [if ?b then [underscore] else []] => destruct b end;
        cbn [length]; lia.
    + intros -> _. cbn [length]. lia.
Qed.

Lemma snakeFrom_no_upper prev runes :
  Forall (fun r => IsUpper r = false) runes ->
  snakeFrom prev runes = List.map ToLower runes.
Proof.
  intros Hall. revert prev. induction Hall as [|r rest Hr _ IH]; intros prev;
    [reflexivity|].
  cbn [snakeFrom List.map]. rewrite Hr, IH. destruct prev; reflexivity.
Qed.

(** The shape of the output: each rune gives its lowered rune, after one
    underscore where [seps] says so, and [seps] says so exactly where the
    source's test holds; [prev] stands before the first rune. *)
Lemma snakeFrom_shape prev runes :
  exists seps : list bool,
    length seps = length runes
    /\ snakeFrom prev runes
       = concat (zip_with (fun (sep : bool) r =>
                             if sep then [underscore; ToLower r] else [ToLower r])
                   seps runes)
    /\ forall i : nat,
         seps !! i = Some true <->
         exists r p,
           runes !! i = Some r
           /\ match i with O => prev | S j => runes !! j end = Some p
           /\ IsUpper r = true
           /\ (match runes !! S i with Some next => IsLower next | None => false end
               || IsLower p) = true.
Proof.
  revert prev. induction runes as [|r rest IH]; intros prev.
  - exists []. split; [reflexivity|]. split; [reflexivity|].
    intros i. split; [intros E; destruct i; discriminate|].
    intros (r & p & E & _). destruct i; discriminate.
  - destruct (IH (Some r)) as (seps & Hlen & Hout & Hseps).
    set (separate := match prev with
                     | None => false
                     | Some p =>
                         IsUpper r
                         && (match rest with
                             | next :: _ => IsLower next
                             | [] => false
                             end || IsLower p)
                     end).
    exists (separate :: seps). split; [cbn [length]; rewrite Hlen; reflexivity|].
    split.
    + cbn [snakeFrom zip_with concat]. fold separate. rewrite Hout.
      destruct separate; reflexivity.
    + intros [|i].
      * cbn [lookup list_lookup]. split.
        -- intros [= Hsep]. subst separate. destruct prev as [p|]; [|discriminate].
           apply andb_prop in Hsep as [Hup Hlow].
           exists r, p. split; [reflexivity|]. split; [reflexivity|].
           split; [exact Hup|]. destruct rest; exact Hlow.
        -- intros (r' & p & [= <-] & -> & Hup & Hlow). subst separate.
           rewrite Hup. cbn [andb]. f_equal. destruct rest; exact Hlow.
      * cbn [lookup list_lookup]. rewrite (Hseps i). split.
        -- intros (r' & p & E & Hp & Hup & Hlow). exists r', p.
           split; [exact E|]. split; [destruct i; exact Hp|]. split; assumption.
        -- intros (r' & p & E & Hp & Hup & Hlow). exists r', p.
           split; [exact E|]. split; [destruct i; exact Hp|]. split; assumption.
Qed.

(** X4. [SnakeCase] only lowers runes and inserts underscores.  Its output is
    the lowered runes of the input, in order, each preceded by at most one
    inserted underscore: none before the first rune, and one before another
    rune exactly when that rune is upper case and the rune before it or the
    rune after it is lower case.  So, with the underscores erased, the output
    is the lowered input with its underscores erased; it is at least as long
    as the input and less than twice as long; and it is the lowered input when
    no rune of the input is upper case. *)
Theorem SnakeCase_lowers_and_separates (runes : list Z) :
  (exists seps : list bool,
     length seps = length runes
     /\ snakeFrom None runes
        = concat (zip_with (fun (sep : bool) r =>
                              if sep then [underscore; ToLower r] else [ToLower r])
                    seps runes)
     /\ seps !! O <> Some true
     /\ forall i : nat,
          seps !! S i = Some true <->
          exists r p,
            runes !! S i = Some r /\ runes !! i = Some p
            /\ IsUpper r = true
            /\ (match runes !! S (S i) with
                | Some next => IsLower next
                | None => false
                end || IsLower p) = true)
  /\ List.filter (fun r => negb (r =? underscore)) (snakeFrom None runes)
     = List.filter (fun r => negb (r =? underscore)) (List.map ToLower runes)
  /\ (length runes <= length (snakeFrom None runes))%nat
  /\ (runes <> [] -> length (snakeFrom None runes) < 2 * length runes)%nat
  /\ hd_error (snakeFrom None runes) = hd_error (List.map ToLower runes)
  /\ (Forall (fun r => IsUpper r = false) runes ->
      snakeFrom None runes = List.map ToLower runes).
Proof.
  split.
  { destruct (snakeFrom_shape None runes) as (seps & Hlen & Hout & Hseps).
    exists seps. split; [exact Hlen|]. split; [exact Hout|]. split.
    - intros E. apply Hseps in E as (r & p & _ & Hp & _). discriminate.
    - intros i. apply (Hseps (S i)). }
  split; [apply snakeFrom_erase|].
  split; [apply snakeFrom_length|].
  split; [apply snakeFrom_length; reflexivity|].
  split; [destruct runes; reflexivity|].
  apply snakeFrom_no_upper.
Qed.

End SnakeCase.

(** [SnakeCase] on ASCII names. *)
Example SnakeCase_examples :
  SnakeCase "HTTPServer" = "http_server"
  /\ SnakeCase "snakeCase" = "snake_case"
  /\ SnakeCase "ID" = "id"
  /\ SnakeCase "already_snake" = "already_snake".
Proof. vm_compute. repeat split; reflexivity. Qed.

(** *** Indexes of a byte *)

Lemma IndexByte_range s c : IndexByte s c = -1 \/ 0 <= IndexByte s c < len s.
Proof.
  induction s as [|a s IH]; [left; reflexivity|].
  unfold len in *. cbn [IndexByte String.length].
  destruct (Ascii.eqb a c); [right; lia|]. cbv zeta.
  destruct (Z.ltb_spec (IndexByte s c) 0); [left; reflexivity|right; lia].
Qed.

Lemma IndexByte_absent_drop n s c :
  IndexByte s c = -1 -> IndexByte (dropBytes n s) c = -1.
Proof.
  revert s. induction n as [|n IH]; intros [|a s] Hs; try assumption.
  cbn [dropBytes]. apply IH. cbn [IndexByte] in Hs.
  destruct (Ascii.eqb a c); [discriminate|]. cbv zeta in Hs.
  destruct (IndexByte_range s c) as [E|E]; [exact E|].
  destruct (Z.ltb_spec (IndexByte s c) 0); lia.
Qed.

Lemma IndexByte_absent_take n s c :
  IndexByte s c = -1 -> IndexByte (takeBytes n s) c = -1.
Proof.
  revert s. induction n as [|n IH]; intros [|a s] Hs; try reflexivity.
  cbn [takeBytes IndexByte] in *.
  destruct (Ascii.eqb a c); [discriminate|]. cbv zeta in *.
  destruct (IndexByte_range s c) as [E|E].
  - rewrite (IH s E). reflexivity.
  - destruct (Z.ltb_spec (IndexByte s c) 0); lia.
Qed.

Lemma IndexByte_found s c :
  0 <= IndexByte s c ->
  dropBytes (Z.to_nat (IndexByte s c)) s
  = String c (dropBytes (Z.to_nat (IndexByte s c + 1)) s)
  /\ IndexByte (takeBytes (Z.to_nat (IndexByte s c)) s) c = -1.
Proof.
  induction s as [|a s IH]; [cbn; lia|].
  cbn [IndexByte]. destruct (Ascii.eqb_spec a c) as [->|Hne].
  - intros _. split; reflexivity.
  - cbv zeta. destruct (Z.ltb_spec (IndexByte s c) 0) as [Hneg|Hpos]; [lia|].
    intros _. destruct (IH Hpos) as [Hdrop Htake].
    replace (Z.to_nat (IndexByte s c + 1)) with (S (Z.to_nat (IndexByte s c))) in * by lia.
    replace (Z.to_nat (IndexByte s c + 1 + 1)) with (S (S (Z.to_nat (IndexByte s c)))) by lia.
    cbn [dropBytes takeBytes IndexByte]. split; [exact Hdrop|].
    destruct (Ascii.eqb_spec a c); [contradiction|]. rewrite Htake. reflexivity.
Qed.

Lemma LastIndexByte_spec s c :
  (LastIndexByte s c = -1 /\ IndexByte s c = -1)
  \/ (0 <= LastIndexByte s c < len s
      /\ dropBytes (Z.to_nat (LastIndexByte s c)) s
         = String c (dropBytes (Z.to_nat (LastIndexByte s c + 1)) s)
      /\ IndexByte (dropBytes (Z.to_nat (LastIndexByte s c + 1)) s) c = -1).
Proof.
  induction s as [|a s IH]; [left; split; reflexivity|].
  unfold len in *. cbn [LastIndexByte String.length]. cbv zeta.
  destruct IH as [[Hlast Hidx]|(Hrange & Hdrop & Hrest)].
  - rewrite Hlast. cbn [Z.leb Z.compare].
    destruct (Ascii.eqb_spec a c) as [->|Hne].
    + right. split; [lia|]. split; [reflexivity|]. exact Hidx.
    + left. split; [reflexivity|]. cbn [IndexByte].
      destruct (Ascii.eqb_spec a c); [contradiction|]. rewrite Hidx. reflexivity.
  - destruct (Z.leb_spec 0 (LastIndexByte s c)); [|lia]. right.
    replace (Z.to_nat (LastIndexByte s c + 1)) with (S (Z.to_nat (LastIndexByte s c))) in * by lia.
    replace (Z.to_nat (LastIndexByte s c + 1 + 1))
      with (S (S (Z.to_nat (LastIndexByte s c)))) by lia.
    cbn [dropBytes]. split; [lia|]. split; assumption.
Qed.

Lemma IndexByte_app a b c :
  IndexByte a c = -1 ->
  IndexByte (a +:+ b) c = if IndexByte b c <? 0 then -1 else len a + IndexByte b c.
Proof.
  intros Ha. induction a as [|x a IH].
  - rewrite append_nil_l. unfold len. cbn.
    destruct (IndexByte_range b c) as [E|E]; [rewrite E; reflexivity|].
    destruct (Z.ltb_spec (IndexByte b c) 0); lia.
  - rewrite append_cons. cbn [IndexByte] in *.
    destruct (Ascii.eqb x c); [discriminate|]. cbv zeta in *.
    assert (IndexByte a c = -1) as Ha'.
    { destruct (IndexByte_range a c) as [E|E]; [exact E|].
      destruct (Z.ltb_spec (IndexByte a c) 0); lia. }
    rewrite (IH Ha'). unfold len. cbn [String.length].
    destruct (IndexByte_range b c) as [E|E].
    + rewrite E. reflexivity.
    + destruct (Z.ltb_spec (IndexByte b c) 0); [lia|].
      destruct (Z.ltb_spec (Z.of_nat (String.length a) + IndexByte b c) 0); lia.
Qed.

Lemma LastIndexByte_app a b c :
  IndexByte b c = -1 -> LastIndexByte (a +:+ String c b) c = len a.
Proof.
  intros Hb.
  assert (LastIndexByte (String c b) c = 0) as H0.
  { cbn [LastIndexByte]. cbv zeta.
    destruct (LastIndexByte_spec b c) as [[-> _]|(Hr & Hd & _)].
    - cbn [Z.leb Z.compare]. rewrite Ascii.eqb_refl. reflexivity.
    - exfalso. assert (IndexByte (dropBytes (Z.to_nat (LastIndexByte b c)) b) c = -1) as E
        by (apply IndexByte_absent_drop; exact Hb).
      rewrite Hd in E. cbn [IndexByte] in E. rewrite Ascii.eqb_refl in E. discriminate. }
  induction a as [|x a IH].
  - rewrite append_nil_l. exact H0.
  - rewrite append_cons. cbn [LastIndexByte]. cbv zeta. rewrite IH.
    unfold len. cbn [String.length]. destruct (Z.leb_spec 0 (Z.of_nat (String.length a))); lia.
Qed.

Lemma takeBytes_app a b : takeBytes (String.length a) (a +:+ b) = a.
Proof.
  induction a as [|x a IH]; [destruct b; reflexivity|].
  rewrite append_cons. cbn [String.length takeBytes]. rewrite IH. reflexivity.
Qed.

Lemma dropBytes_app a b : dropBytes (String.length a) (a +:+ b) = b.
Proof.
  induction a as [|x a IH]; [reflexivity|].
  rewrite append_cons. cbn [String.length dropBytes]. exact IH.
Qed.

Lemma length_append a b :
  String.length (a +:+ b) = (String.length a + String.length b)%nat.
Proof.
  induction a as [|x a IH]; [reflexivity|].
  rewrite append_cons. cbn [String.length]. rewrite IH. reflexivity.
Qed.

Lemma prefix_length p s :
  String.prefix p s = true -> (String.length p <= String.length s)%nat.
Proof.
  revert s. induction p as [|x p IH]; intros s H; [cbn; lia|].
  destruct s as [|y s]; [discriminate|]. cbn in H |- *.
  destruct (Ascii.ascii_dec x y); [|discriminate]. apply IH in H. lia.
Qed.

Lemma prefix_dropBytes p s :
  String.prefix p s = true -> s = p +:+ dropBytes (String.length p) s.
Proof.
  revert s. induction p as [|x p IH]; intros s H; [reflexivity|].
  destruct s as [|y s]; [discriminate|]. cbn in H.
  destruct (Ascii.ascii_dec x y) as [->|]; [|discriminate].
  rewrite append_cons. cbn [String.length dropBytes]. rewrite <- (IH s H). reflexivity.
Qed.

Lemma HasSuffix_app a suffix : HasSuffix (a +:+ suffix) suffix = true.
Proof.
  unfold HasSuffix. rewrite length_append.
  replace (String.length a + String.length suffix - String.length suffix)%nat
    with (String.length a) by lia.
  rewrite dropBytes_app, String.eqb_refl.
  destruct (Nat.leb_spec (String.length suffix) (String.length a + String.length suffix));
    [reflexivity|lia].
Qed.

Lemma HasSuffix_split s suffix :
  HasSuffix s suffix = true -> exists a, s = a +:+ suffix.
Proof.
  unfold HasSuffix. intros H. apply andb_true_iff in H as [_ H].
  apply String.eqb_eq in H.
  exists (takeBytes (String.length s - String.length suffix) s).
  transitivity (takeBytes (String.length s - String.length suffix) s
                +:+ dropBytes (String.length s - String.length suffix) s).
  - symmetry. apply takeBytes_dropBytes.
  - rewrite H. reflexivity.
Qed.

Lemma absent_after_last s c (i : Z) :
  LastIndexByte s c <= i -> 0 <= i ->
  IndexByte (dropBytes (Z.to_nat (i + 1)) s) c = -1.
Proof.
  intros Hle Hi. destruct (LastIndexByte_spec s c) as [[_ Habs]|(Hr & _ & Hrest)].
  - apply IndexByte_absent_drop. exact Habs.
  - replace (Z.to_nat (i + 1))
      with (Z.to_nat (LastIndexByte s c + 1) + Z.to_nat (i - LastIndexByte s c))%nat
      by lia.
    rewrite dropBytes_add. apply IndexByte_absent_drop. exact Hrest.
Qed.

Lemma split_at_last s c :
  0 <= LastIndexByte s c ->
  s = takeBytes (Z.to_nat (LastIndexByte s c)) s
      +:+ String c (dropBytes (Z.to_nat (LastIndexByte s c + 1)) s).
Proof.
  intros H. destruct (LastIndexByte_spec s c) as [[E _]|(_ & Hd & _)]; [lia|].
  rewrite <- Hd. symmetry. apply takeBytes_dropBytes.
Qed.

(** X5. [SplitPath] never panics.  The file name it returns holds neither
    "/" nor the backslash; a path without either separator gives two empty
    strings (the path is not returned as the file name), and any other path
    is the directory, one separator and the file name. *)
Theorem SplitPath_splits_at_the_last_separator path :
  exists dir filename,
    SplitPath path = Some (dir, filename)
    /\ IndexByte filename "/" = -1
    /\ IndexByte filename "\" = -1
    /\ ((IndexByte path "/" = -1 /\ IndexByte path "\" = -1
         /\ dir = "" /\ filename = "")
        \/ exists sep, (sep = "/"%char \/ sep = "\"%char)
                       /\ path = dir +:+ String sep filename).
Proof.
  unfold SplitPath. cbv zeta.
  pose proof (LastIndexByte_spec path "/") as S1.
  pose proof (LastIndexByte_spec path "\") as S2.
  pose proof (split_at_last path "/") as P1.
  pose proof (split_at_last path "\") as P2.
  pose proof (absent_after_last path "/") as A1.
  pose proof (absent_after_last path "\") as A2.
  set (i1 := LastIndexByte path "/") in *.
  set (i2 := LastIndexByte path "\") in *.
  clearbody i1 i2.
  destruct (Z.ltb_spec i1 0) as [H1|H1]; [destruct (Z.ltb_spec i2 0) as [H2|H2]|];
    cbn [andb].
  - exists "", "". split; [reflexivity|]. split; [reflexivity|].
    split; [reflexivity|]. left.
    destruct S1 as [[_ E1]|(? & _)]; [|lia].
    destruct S2 as [[_ E2]|(? & _)]; [|lia].
    repeat split; assumption.
  - destruct (Z.ltb_spec i2 i1) as [H|H]; [lia|].
    destruct S2 as [[E _]|(Hr & _)]; [lia|].
    rewrite slice_take by lia. rewrite sliceFrom_drop by lia. cbn.
    eexists _, _. split; [reflexivity|].
    split; [apply A1; lia|]. split; [apply A2; lia|].
    right. exists "\"%char. split; [right; reflexivity|]. apply P2. lia.
  - destruct S1 as [[E _]|(Hr1 & _)]; [lia|].
    destruct (Z.ltb_spec i2 i1) as [H|H].
    + rewrite slice_take by lia. rewrite sliceFrom_drop by lia. cbn.
      eexists _, _. split; [reflexivity|].
      split; [apply A1; lia|]. split; [apply A2; lia|].
      right. exists "/"%char. split; [left; reflexivity|]. apply P1. lia.
    + destruct S2 as [[E _]|(Hr2 & _)]; [lia|].
      rewrite slice_take by lia. rewrite sliceFrom_drop by lia. cbn.
      eexists _, _. split; [reflexivity|].
      split; [apply A1; lia|]. split; [apply A2; lia|].
      right. exists "\"%char. split; [right; reflexivity|]. apply P2. lia.
Qed.

Lemma LastIndexByte_of_suffix s suffix c :
  HasSuffix s suffix = true -> 0 <= IndexByte suffix c ->
  0 <= LastIndexByte s c <= len s.
Proof.
  intros Hs Hc. destruct (HasSuffix_split s suffix Hs) as [a ->].
  destruct (LastIndexByte_spec (a +:+ suffix) c) as [[_ Habs]|(Hr & _)]; [|lia].
  exfalso. pose proof (IndexByte_absent_drop (String.length a) _ c Habs) as E.
  rewrite dropBytes_app in E. lia.
Qed.

(** X6. [GuessRegionByEndpoint] never panics, and the region it returns is
    the default region or holds no dot. *)
Theorem GuessRegionByEndpoint_returns_a_dotless_region endPoint defaultRegion :
  exists region,
    GuessRegionByEndpoint endPoint defaultRegion = Some region
    /\ (region = defaultRegion \/ IndexByte region "." = -1).
Proof.
  unfold GuessRegionByEndpoint.
  assert (exists e,
            (if HasPrefix endPoint "http://"
             then sliceFrom endPoint (len "http://")
             else Some (TrimPrefix endPoint "https://")) = Some e) as [e ->].
  { destruct (HasPrefix endPoint "http://") eqn:E; [|eauto].
    apply prefix_length in E. rewrite sliceFrom_drop; [eauto|].
    unfold len. cbn in E |- *. lia. }
  cbn. destruct (Z.ltb_spec 0 (IndexByte e ".")) as [Hdot|Hdot]; [|eauto].
  destruct (IndexByte_range e ".") as [E|Hr]; [lia|].
  rewrite slice_take by lia. cbn.
  destruct (IndexByte_found e "." ltac:(lia)) as [_ Hnodot].
  set (region := takeBytes (Z.to_nat (IndexByte e ".")) e) in *.
  destruct (HasSuffix region "-intranet") eqn:S1; cbn [orb];
    [|destruct (HasSuffix region "-vpc") eqn:S2; cbn [orb];
      [|destruct (HasSuffix region "-share") eqn:S3; [|eauto]]].
  all: match goal with
       | S : HasSuffix ?r ?suf = true |- _ =>
           pose proof (LastIndexByte_of_suffix r suf "-" S
                         ltac:(vm_compute; discriminate)) as Hl
       end;
    rewrite slice_take by lia; eexists; (split; [reflexivity|]);
    right; apply IndexByte_absent_take; exact Hnodot.
Qed.

(** X7. [GuessRegionByEndpoint] reads the region off an endpoint without a
    scheme: the bytes before the first dot, less one trailing "-intranet",
    "-vpc" or "-share". *)
Theorem GuessRegionByEndpoint_reads_the_region region rest defaultRegion :
  IndexByte region "." = -1 ->
  (forall suffix,
     In suffix ["-intranet"; "-vpc"; "-share"] ->
     let endPoint := (region +:+ suffix) +:+ "." +:+ rest in
     HasPrefix endPoint "http://" = false ->
     HasPrefix endPoint "https://" = false ->
     GuessRegionByEndpoint endPoint defaultRegion = Some region)
  /\ (let endPoint := region +:+ "." +:+ rest in
      region <> "" ->
      HasSuffix region "-intranet" = false ->
      HasSuffix region "-vpc" = false ->
      HasSuffix region "-share" = false ->
      HasPrefix endPoint "http://" = false ->
      HasPrefix endPoint "https://" = false ->
      GuessRegionByEndpoint endPoint defaultRegion = Some region).
Proof.
  intros Hnodot.
  assert (forall r, IndexByte r "." = -1 -> r <> "" ->
            let e := r +:+ "." +:+ rest in
            0 < IndexByte e "."
            /\ slice e 0 (IndexByte e ".") = Some r) as Hcut.
  { intros r Hr Hne e. subst e.
    rewrite (IndexByte_app r ("." +:+ rest) "." Hr).
    change (IndexByte ("." +:+ rest) ".") with 0. cbn [Z.ltb Z.compare].
    rewrite Z.add_0_r.
    assert (0 < len r) by (unfold len; destruct r; [contradiction|cbn; lia]).
    split; [assumption|]. rewrite slice_take.
    - unfold len. rewrite Nat2Z.id. rewrite takeBytes_app. reflexivity.
    - unfold len. rewrite length_append. lia. }
  split.
  - intros suffix Hin endPoint Hhttp Hhttps. unfold GuessRegionByEndpoint.
    fold endPoint. rewrite Hhttp. unfold TrimPrefix. rewrite Hhttps. cbn [mbind option_bind].
    assert (IndexByte (region +:+ suffix) "." = -1 /\ region +:+ suffix <> ""
            /\ IndexByte (dropBytes 1 suffix) "-" = -1
            /\ suffix = String "-" (dropBytes 1 suffix)) as (Hr & Hne & Htail & Hsuf).
    { cbn in Hin. destruct Hin as [<-|[<-|[<-|[]]]];
        (split; [rewrite (IndexByte_app _ _ _ Hnodot); reflexivity|]);
        (split; [destruct region; discriminate|]); split; reflexivity. }
    destruct (Hcut _ Hr Hne) as [Hdot Hslice]. fold endPoint in Hdot, Hslice.
    destruct (Z.ltb_spec 0 (IndexByte endPoint ".")); [|lia].
    rewrite Hslice. cbn [mbind option_bind].
    assert (HasSuffix (region +:+ suffix) "-intranet"
            || HasSuffix (region +:+ suffix) "-vpc"
            || HasSuffix (region +:+ suffix) "-share" = true) as ->.
    { cbn in Hin. destruct Hin as [<-|[<-|[<-|[]]]]; rewrite HasSuffix_app;
        repeat match goal with |- context [HasSuffix ?a ?b] => destruct (HasSuffix a b) end;
        reflexivity. }
    assert (LastIndexByte (region +:+ suffix) "-" = len region) as ->.
    { rewrite Hsuf. apply LastIndexByte_app. exact Htail. }
    rewrite slice_take.
    + unfold len. rewrite Nat2Z.id, takeBytes_app. reflexivity.
    + unfold len. rewrite length_append. lia.
  - intros endPoint Hne S1 S2 S3 Hhttp Hhttps. unfold GuessRegionByEndpoint.
    fold endPoint. rewrite Hhttp. unfold TrimPrefix. rewrite Hhttps. cbn [mbind option_bind].
    destruct (Hcut _ Hnodot Hne) as [Hdot Hslice]. fold endPoint in Hdot, Hslice.
    destruct (Z.ltb_spec 0 (IndexByte endPoint ".")); [|lia].
    rewrite Hslice. cbn [mbind option_bind]. rewrite S1, S2, S3. reflexivity.
Qed.

(** X7 at the endpoints of the source's comment. *)
Lemma GuessRegionByEndpoint_reads_the_region_witness :
  GuessRegionByEndpoint "cn-hangzhou-intranet.log.aliyuncs.com" "default"
  = Some "cn-hangzhou"
  /\ GuessRegionByEndpoint "cn-hangzhou.log.aliyuncs.com" "default"
     = Some "cn-hangzhou".
Proof.
  destruct (GuessRegionByEndpoint_reads_the_region
              "cn-hangzhou" "log.aliyuncs.com" "default" eq_refl) as [Hsuffix Hplain].
  split.
  - apply (Hsuffix "-intranet"); [left; reflexivity|reflexivity|reflexivity].
  - apply Hplain; [discriminate|reflexivity..].
Defined.

(** [GuessRegionByEndpoint] with a scheme, and without a region to read. *)
Example GuessRegionByEndpoint_examples :
  GuessRegionByEndpoint "http://cn-hangzhou-vpc.log.aliyuncs.com" "default"
  = Some "cn-hangzhou"
  /\ GuessRegionByEndpoint "https://cn-shanghai-share.log.aliyuncs.com" "default"
     = Some "cn-shanghai"
  /\ GuessRegionByEndpoint "localhost" "default" = Some "default"
  /\ GuessRegionByEndpoint ".log.aliyuncs.com" "default" = Some "default"
  /\ GuessRegionByEndpoint "-vpc.log.aliyuncs.com" "default" = Some "".
Proof. vm_compute. repeat split; reflexivity. Qed.

(** ** More on the wrapper *)

Section Caches.

Context {W : Type} {logClient : ClientInterface W} {platform : Platform W}
  {flags : Flags}.

Implicit Types (s : State W) (project logstore product lang : string).

Lemma Time_Sub_same t : Time_Sub t t = 0.
Proof. unfold Time_Sub. rewrite Z.sub_diag. reflexivity. Qed.

(** X8. A logstore whose cache entry is within the validity window (a window
    that fits a duration) is not looked at again: [makesureLogstoreExist]
    makes no remote call, changes nothing and returns no error. *)
Theorem cached_logstore_is_left_alone
    (config : AliyunLogConfigSpec) project logstore (shardCount lifeCycle : Z)
    product lang s (t : Z) :
  - 2 ^ 63 <= 1000000000 * LogResourceCacheExpireSec < 2 ^ 63 ->
  logstoreCacheMap (wrapper s) !! (project +:+ "@@" +:+ logstore) = Some t ->
  time_Now (world s) - t < 1000000000 * LogResourceCacheExpireSec ->
  makesureLogstoreExist config project logstore shardCount lifeCycle product
    lang s = (None, s, []).
Proof.
  intros Hrange Hentry Hfresh.
  assert (result (logstoreCacheExists project logstore s) = true) as Hhit.
  { apply logstoreCacheExists_true; [exact Hrange|]. eauto. }
  destruct (logstoreCacheExists_readOnly project logstore s) as [Hs He].
  unfold makesureLogstoreExist.
  match goal with |- bind ?m ?f s = _ =>
    change (bind m f s)
      with (result (f (result (m s)) (final (m s))),
            final (f (result (m s)) (final (m s))),
            events (m s) ++ events (f (result (m s)) (final (m s))))
  end.
  rewrite Hhit, Hs, He. reflexivity.
Qed.

(** X9. Recording and querying compose: right after [addLogstoreCache] or
    [addConfigCache] the query of the same resource answers true exactly when
    the validity window is positive, and right after [removeConfigCache] the
    query of the config answers false. *)
Theorem cache_query_after_record project resource s :
  result (logstoreCacheExists project resource
            (final (addLogstoreCache project resource s)))
  = (0 <? cacheExpire)
  /\ result (configCacheExists project resource
               (final (addConfigCache project resource s)))
     = (0 <? cacheExpire)
  /\ result (configCacheExists project resource
               (final (removeConfigCache project resource s)))
     = false.
Proof.
  unfold logstoreCacheExists, configCacheExists, addLogstoreCache, addConfigCache,
    removeConfigCache, bind, getWrapper, setWrapper, now, ret, result, final, events.
  cbn. rewrite !lookup_insert_eq, lookup_delete_eq. cbn.
  rewrite Time_Sub_same. destruct (0 <? cacheExpire); repeat split; reflexivity.
Qed.

Lemma IndexByte_head a (str : string) c :
  IndexByte (String a str) c = -1 -> a <> c /\ IndexByte str c = -1.
Proof.
  cbn [IndexByte]. destruct (Ascii.eqb_spec a c); [discriminate|]. cbv zeta.
  destruct (IndexByte_range str c) as [E|E]; [auto|].
  destruct (Z.ltb_spec (IndexByte str c) 0); lia.
Qed.

(** X10. Two resources share a cache key only if they are the same resource
    of the same project, as long as the project names hold no "@". *)
Theorem cacheKey_injective (project1 resource1 project2 resource2 : string) :
  IndexByte project1 "@" = -1 ->
  IndexByte project2 "@" = -1 ->
  cacheKey project1 resource1 = cacheKey project2 resource2 ->
  project1 = project2 /\ resource1 = resource2.
Proof.
  unfold cacheKey. revert project2.
  induction project1 as [|a p1 IH]; intros [|b p2] H1 H2 E.
  - rewrite !append_nil_l in E. injection E as E. auto.
  - rewrite append_nil_l, append_cons in E. injection E as <- _.
    apply IndexByte_head in H2 as [Hne _]. contradiction.
  - rewrite append_nil_l, append_cons in E. injection E as -> _.
    apply IndexByte_head in H1 as [Hne _]. contradiction.
  - rewrite !append_cons in E. injection E as -> E.
    apply IndexByte_head in H1 as [_ H1]. apply IndexByte_head in H2 as [_ H2].
    destruct (IH p2 H1 H2 E) as [-> ->]. auto.
Qed.

(** With "@" in a project name, two resources can share a key. *)
Example cacheKey_collision : cacheKey "a@@b" "c" = cacheKey "a" "b@@c".
Proof. reflexivity. Qed.

(** X11. With a product code declared and no valid cache entry, the logstore
    is provisioned by exactly one call of the managed-product creation, for
    that product and the declared language, or "cn" when none is declared;
    its outcome is returned; on success the logstore is entered in the cache,
    on failure the wrapper is left as it was. *)
Theorem product_logstore_goes_to_product_path
    (config : AliyunLogConfigSpec) project logstore (shardCount lifeCycle : Z)
    product lang s :
  0 < len product ->
  result (logstoreCacheExists project logstore s) = false ->
  let run := makesureLogstoreExist config project logstore shardCount lifeCycle
               product lang s in
  events run =
    [{| call := CallCreateProductLogstore DefaultRegion project logstore product
                  (if len lang =? 0 then "cn" else lang);
        outcome := result run |}]
  /\ (result run = None ->
      is_Some (logstoreCacheMap (wrapper (final run)) !! cacheKey project logstore))
  /\ (result run <> None -> wrapper (final run) = wrapper s).
Proof.
  intros Hproduct Hmiss run. subst run. unfold makesureLogstoreExist.
  destruct (logstoreCacheExists_readOnly project logstore s) as [Hs He].
  rewrite events_bind, result_bind, final_bind, He, Hs, Hmiss.
  destruct (Z.ltb_spec 0 (len product)); [|lia]. cbv zeta.
  unfold createProductLogstore.
  rewrite events_bind, result_bind, final_bind.
  cbn [remote events result final fst snd id app].
  destruct (CreateProductLogstore _ _ _ _ _ _).1 as [e|].
  - cbn. split; [reflexivity|]. split; [discriminate|]. reflexivity.
  - cbn. split; [reflexivity|]. split; [|congruence].
    intros _. rewrite lookup_insert_eq. eauto.
Qed.

End Caches.

(** X8 at the wrapper that confirmed the logstore 100 seconds ago. *)
Lemma cached_logstore_is_left_alone_witness :
  makesureLogstoreExist (logClient := mockClient noFault boom)
    (platform := mockPlatform noFault boom)
    appConfig "k8s-log" "app-log" 0 0 "" "" cachedState
  = (None, cachedState, []).
Proof.
  apply (cached_logstore_is_left_alone
           (logClient := mockClient noFault boom)
           (platform := mockPlatform noFault boom) (flags := mockFlags)
           appConfig "k8s-log" "app-log" 0 0 "" "" cachedState (900 * Second)).
  - cbn. lia.
  - reflexivity.
  - vm_compute. reflexivity.
Defined.

(** X10 at two logstores of one project. *)
Lemma cacheKey_injective_witness :
  cacheKey "k8s-log" "app-log" = "k8s-log@@app-log"
  /\ "k8s-log" = "k8s-log" /\ "app-log" = "app-log".
Proof.
  split; [reflexivity|].
  apply (cacheKey_injective "k8s-log" "app-log" "k8s-log" "app-log");
    reflexivity.
Defined.

(** X11 for the product "k8s-audit" declared with the language "en". *)
Lemma product_logstore_goes_to_product_path_witness :
  List.map call
    (events (makesureLogstoreExist (logClient := mockClient noFault boom)
               (platform := mockPlatform noFault boom)
               appConfig "k8s-log" "app-log" 0 0 "k8s-audit" "en" (freshState 0)))
  = [CallCreateProductLogstore "cn-hangzhou" "k8s-log" "app-log" "k8s-audit" "en"].
Proof.
  rewrite (proj1 (product_logstore_goes_to_product_path
                    (logClient := mockClient noFault boom)
                    (platform := mockPlatform noFault boom) (flags := mockFlags)
                    appConfig "k8s-log" "app-log" 0 0 "k8s-audit" "en"
                    (freshState 0) ltac:(vm_compute; reflexivity)
                    ltac:(vm_compute; reflexivity))).
  reflexivity.
Defined.

Section Ensuring.

Context {W : Type} {logClient : ClientInterface W} {platform : Platform W}
  {flags : Flags}.

Implicit Types (s : State W) (project logstore machineGroup : string).

Lemma retried_zero c evs : retried c O evs -> evs = [].
Proof.
  intros (_ & Hlen & _). destruct evs; [reflexivity|]. cbn in Hlen. lia.
Qed.

Lemma forRange_zero {L} (body : L -> M W (L * Control)) l s :
  forRange O body l s = (l, s, []).
Proof. reflexivity. Qed.

(** The result of a check loop followed by a create loop that starts from the
    error of the check: the last outcome of the creation, none without one. *)
Lemma check_then_create_result {L} c c' (body : L -> M W (L * Control))
    (body' : option error -> M W (option error * Control)) (l : L) errOf s :
  attempts c errOf body -> attempts c' id body' -> errOf l = None ->
  let checks := forRange maxRetry body l s in
  let creates := forRange maxRetry body' (errOf (result checks)) (final checks) in
  result creates = lastOutcome None (events creates).
Proof.
  intros Hb Hb' Hl checks creates.
  destruct (forRange_retried c errOf body Hb maxRetry l s) as [Hr Herr].
  destruct (forRange_retried c' id body' Hb' maxRetry (errOf (result checks))
              (final checks)) as [Hr' Herr'].
  fold checks in Hr, Herr. fold creates in Hr', Herr'. unfold id in Herr'.
  rewrite Herr'. destruct (events creates) as [|ev evs] eqn:E.
  - destruct Hr' as (_ & _ & Hnil & _). specialize (Hnil eq_refl).
    unfold lastOutcome. cbn. rewrite Herr.
    rewrite Hnil in Hr. apply retried_zero in Hr. rewrite Hr. cbn. exact Hl.
  - destruct (exists_last (l := ev :: evs) ltac:(discriminate)) as (pre & x & ->).
    rewrite !lastOutcome_snoc. reflexivity.
Qed.

(** What [makesureMachineGroupExist] returns is the outcome of its last
    creation call, and no error when it made none. *)
Lemma makesureMachineGroupExist_result project machineGroup s :
  let run := makesureMachineGroupExist project machineGroup s in
  result run = lastOutcome None (callsOf isCreateMachineGroup (events run)).
Proof.
  intros run. subst run. unfold makesureMachineGroupExist.
  rewrite events_bind, result_bind, callsOf_app. cbv zeta.
  match goal with |- context [events (forRange maxRetry ?b ?l s)] =>
    destruct (forRange_retried (CallCheckMachineGroupExist project machineGroup)
                snd b ltac:(attempts_tac) maxRetry l s) as [Hchk _];
    pose proof (fun c' b' H' => check_then_create_result
                  (CallCheckMachineGroupExist project machineGroup) c'
                  b b' l snd s ltac:(attempts_tac) H' eq_refl) as Hboth;
    set (checks := forRange maxRetry b l s) in *
  end.
  rewrite (retried_callsOf isCreateMachineGroup _ _ _ Hchk).
  cbn [isCreateMachineGroup app].
  destruct (result checks).1; [reflexivity|].
  match goal with |- context [events (forRange maxRetry ?b ?l ?st)] =>
    match b with context [CallCreateMachineGroup project ?m] =>
      destruct (forRange_retried (CallCreateMachineGroup project m)
                  id b ltac:(attempts_tac) maxRetry l st) as [Hcr _];
      specialize (Hboth (CallCreateMachineGroup project m) b ltac:(attempts_tac));
      cbv zeta in Hboth
    end
  end.
  rewrite (retried_callsOf isCreateMachineGroup _ _ _ Hcr).
  cbn [isCreateMachineGroup]. exact Hboth.
Qed.

(** X12. What [makesureProjectExist] and [makesureMachineGroupExist] return is
    the outcome of their last creation call, and no error when they made none:
    a failure of the existence check is never returned, and no error of the
    creation, whatever its code, is taken for a success. *)
Theorem ensure_returns_the_last_creation_outcome :
  (forall (config : option AliyunLogConfigSpec) project s,
     let run := makesureProjectExist config project s in
     result run = lastOutcome None (callsOf isCreateProject (events run)))
  /\ (forall project machineGroup s,
      let run := makesureMachineGroupExist project machineGroup s in
      result run = lastOutcome None (callsOf isCreateMachineGroup (events run))).
Proof.
  split.
  - intros config project s run. subst run. unfold makesureProjectExist.
    set (description := "k8s log project, created by alibaba cloud log controller").
    rewrite events_bind, result_bind, callsOf_app. cbv zeta.
    match goal with |- context [events (forRange maxRetry ?b ?l s)] =>
      destruct (forRange_retried (CallCheckProjectExist project) snd b
                  ltac:(attempts_tac) maxRetry l s) as [Hchk _];
      pose proof (fun b' H' => check_then_create_result
                    (CallCheckProjectExist project)
                    (CallCreateProject project description)
                    b b' l snd s ltac:(attempts_tac) H' eq_refl) as Hboth;
      set (checks := forRange maxRetry b l s) in *
    end.
    rewrite (retried_callsOf isCreateProject _ _ _ Hchk). cbn [isCreateProject app].
    destruct (result checks).1; [reflexivity|].
    match goal with |- context [events (forRange maxRetry ?b ?l ?st)] =>
      destruct (forRange_retried
                  (CallCreateProject project description)
                  id b ltac:(attempts_tac) maxRetry l st) as [Hcr _];
      specialize (Hboth b ltac:(attempts_tac)); cbv zeta in Hboth
    end.
    rewrite (retried_callsOf isCreateProject _ _ _ Hcr). cbn [isCreateProject].
    exact Hboth.
  - intros project machineGroup s. apply makesureMachineGroupExist_result.
Qed.

(** X13. Every remote call of a pass is made on one project: the project the
    spec declares, or the wrapper's own when the spec declares none. *)
Theorem pass_calls_one_project (config : AliyunLogConfigSpec) s :
  Forall (fun ev => callProject (call ev) = targetProject (wrapper s) config)
    (events (updateConfigInner config s)).
Proof.
  pose proof (updateConfigInner_run config s) as Hrun. cbv zeta in Hrun.
  set (project := targetProject (wrapper s) config) in *.
  assert (forall lg sc lc pr la,
            emits (fun ev => callProject (call ev) = project)
              (makesureLogstoreExist config project lg sc lc pr la)) as E1
    by (intros; emits_auto ltac:(reflexivity)).
  assert (forall name err,
            emits (fun ev => callProject (call ev) = project)
              (getConfigRetry project name err)) as E2
    by (intros; emits_auto ltac:(reflexivity)).
  assert (forall c ok sc err,
            emits (fun ev => callProject (call ev) = project)
              (createOrUpdateConfig config project c ok sc err)) as E3
    by (intros; emits_auto ltac:(reflexivity)).
  assert (forall ok,
            emits (fun ev => callProject (call ev) = project)
              (applyToMachineGroup config project ok)) as E4
    by (intros; emits_auto ltac:(reflexivity)).
  destruct (result (makesureLogstoreExist _ _ _ _ _ _ _ _)).
  { destruct Hrun as [_ ->]. apply E1. }
  destruct (result (createOrUpdateConfig _ _ _ _ _ _ _)); destruct Hrun as [_ ->];
    rewrite !Forall_app; repeat split;
    first [apply E1|apply E2|apply E3|apply E4].
Qed.

End Ensuring.

Section LogstoreCreation.

Context {W : Type} {logClient : ClientInterface W} {platform : Platform W}
  {flags : Flags}.

Implicit Types (s : State W) (project logstore product lang : string).

(** The creation calls of [makesureLogstoreExist]: none at all, or one retry
    loop of [CreateLogStore] whose last outcome is the result, followed, on
    success only, by one retry loop of [CreateIndex]. *)
Lemma makesureLogstoreExist_run
    (config : AliyunLogConfigSpec) project logstore (shardCount lifeCycle : Z)
    product lang s :
  let run := makesureLogstoreExist config project logstore shardCount lifeCycle
               product lang s in
  let creates := callsOf isCreateLogStore (events run) in
  let indexes := callsOf isCreateIndex (events run) in
  (creates = [] /\ indexes = [])
  \/ (retried (CallCreateLogStore project logstore (logstoreTTL lifeCycle)
                (logstoreShardCount shardCount) true 32) maxRetry creates
      /\ result run = lastOutcome None creates
      /\ (result run = None ->
          retried (CallCreateIndex project logstore createDefaultK8SIndex)
            maxRetry indexes)
      /\ (result run <> None -> indexes = [])).
Proof.
  intros run creates indexes. subst creates indexes run.
  assert (forall (m : M W (option error)) st,
            emits (fun ev => notCall isCreateLogStore ev /\ notCall isCreateIndex ev) m ->
            callsOf isCreateLogStore (events (m st)) = []
            /\ callsOf isCreateIndex (events (m st)) = []) as Hquiet.
  { intros m st Hm. split; apply callsOf_none;
      (eapply Forall_impl; [apply Hm|]); cbn; tauto. }
  unfold makesureLogstoreExist.
  destruct (logstoreCacheExists_readOnly project logstore s) as [Hs He].
  rewrite events_bind, result_bind, He, Hs. cbn [app].
  destruct (result (logstoreCacheExists project logstore s)).
  { left. split; reflexivity. }
  destruct (0 <? len product).
  { left. apply Hquiet. emits_auto ltac:(split; reflexivity). }
  destruct (String.prefix "audit-" logstore && (len logstore =? 39)).
  { left. apply Hquiet. emits_auto ltac:(split; reflexivity). }
  rewrite events_bind, result_bind. cbn [getWrapper events result final fst snd app].
  rewrite events_bind, result_bind.
  match goal with |- context [events (?m s) ++ _] => set (projectStep := m s) end.
  assert (callsOf isCreateLogStore (events projectStep) = []
          /\ callsOf isCreateIndex (events projectStep) = []) as [P1 P2].
  { subst projectStep. destruct (bool_decide _);
      apply Hquiet; emits_auto ltac:(split; reflexivity). }
  rewrite !callsOf_app, P1, P2. cbn [app].
  destruct (result projectStep) as [e|].
  { left. split; reflexivity. }
  rewrite events_bind, result_bind. cbv beta.
  match goal with |- context [events (forRange maxRetry ?b ?l ?st)] =>
    destruct (forRange_retried (CallCheckLogstoreExist project logstore) snd b
                ltac:(attempts_tac) maxRetry l st) as [Hchk Hchkerr];
    pose proof (fun c' b' H' => check_then_create_result
                  (CallCheckLogstoreExist project logstore) c'
                  b b' l snd st ltac:(attempts_tac) H' eq_refl) as Hboth;
    set (checks := forRange maxRetry b l st) in *
  end.
  rewrite !callsOf_app.
  rewrite (retried_callsOf isCreateLogStore _ _ _ Hchk).
  rewrite (retried_callsOf isCreateIndex _ _ _ Hchk).
  cbn [isCreateLogStore isCreateIndex app]. cbv zeta.
  destruct (result checks).1.
  { left. split; reflexivity. }
  right. rewrite events_bind, result_bind. cbv beta.
  match goal with |- context [events (forRange maxRetry ?b ?l ?st)] =>
    assert (attempts (CallCreateLogStore project logstore (logstoreTTL lifeCycle)
                        (logstoreShardCount shardCount) true 32) id b) as Hatt;
    [intros ? ?; unfold bind, remote, ret, sleep, addLogstoreCache, getWrapper,
       setWrapper, now, result, final, events; cbn;
     repeat case_match; cbn; (split; [congruence|split; congruence])|];
    destruct (forRange_retried _ id b Hatt maxRetry l st) as [Hcr _];
    specialize (Hboth _ b Hatt); cbv zeta in Hboth;
    set (creating := forRange maxRetry b l st) in *
  end.
  rewrite !callsOf_app.
  rewrite (retried_callsOf isCreateLogStore _ _ _ Hcr).
  rewrite (retried_callsOf isCreateIndex _ _ _ Hcr).
  cbn [isCreateLogStore isCreateIndex app].
  destruct (result creating) as [e|] eqn:Hres.
  - cbn. rewrite app_nil_r. split; [exact Hcr|]. split; [exact Hboth|].
    split; [discriminate|reflexivity].
  - rewrite events_bind, result_bind.
    cbn [sleep events result final fst snd app].
    rewrite events_bind, result_bind.
    match goal with |- context [events (forRange maxRetry ?b ?l ?st)] =>
      destruct (forRange_retried
                  (CallCreateIndex project logstore createDefaultK8SIndex) id b
                  ltac:(attempts_tac) maxRetry l st) as [Hidx _];
      set (indexing := forRange maxRetry b l st) in *
    end.
    cbn [ret events result final fst snd]. rewrite !app_nil_r.
    rewrite (retried_callsOf isCreateLogStore _ _ _ Hidx).
    rewrite (retried_callsOf isCreateIndex _ _ _ Hidx).
    cbn [isCreateLogStore isCreateIndex]. rewrite app_nil_r.
    split; [exact Hcr|]. split; [exact Hboth|].
    split; [intros _; exact Hidx|]. intros Hne. exfalso. apply Hne. reflexivity.
Qed.

(** C6. Every [CreateLogStore] call [makesureLogstoreExist] makes carries the
    shard count clamped to [1,10] (2 for a count of at most 0, 10 above 10,
    the count itself in between) and the declared life cycle as retention,
    180 when the life cycle is at most 0.  And it makes such a call whenever
    it gets to the creation: under a positive retry bound, with no valid
    cache entry, no product code, a name that is not an audit logstore's, the
    project ensured, and an existence check that did not find the logstore. *)
Theorem create_logstore_shard_and_ttl_clamped
    (config : AliyunLogConfigSpec) project logstore (shardCount lifeCycle : Z)
    product lang s :
  let run := makesureLogstoreExist config project logstore shardCount lifeCycle
               product lang s in
  let creates := callsOf isCreateLogStore (events run) in
  Forall (clamped shardCount lifeCycle) (events run)
  /\ (maxRetry <> O ->
      result (logstoreCacheExists project logstore s) = false ->
      len product = 0 ->
      String.prefix "audit-" logstore && (len logstore =? 39) = false ->
      result (ensureProject config project s) = None ->
      (result (checkLogstoreRetry project logstore
                 (final (ensureProject config project s)))).1 = false ->
      exists ttl shardCnt o rest,
        creates = {| call := CallCreateLogStore project logstore ttl shardCnt
                               true 32;
                     outcome := o |} :: rest
        /\ Forall (fun ev => call ev = CallCreateLogStore project logstore ttl
                                         shardCnt true 32) rest
        /\ (shardCount <= 0 -> shardCnt = 2)
        /\ (10 < shardCount -> shardCnt = 10)
        /\ (1 <= shardCount <= 10 -> shardCnt = shardCount)
        /\ (lifeCycle <= 0 -> ttl = 180)
        /\ (0 < lifeCycle -> ttl = lifeCycle)).
Proof.
  intros run creates. split.
  { assert (emits (clamped shardCount lifeCycle)
              (makesureLogstoreExist config project logstore shardCount lifeCycle
                 product lang)) as Hm
      by emits_auto ltac:(first [apply clamped_arguments | exact I]).
    apply Hm. }
  intros Hpos Hmiss Hproduct Haudit Hproject Habsent.
  exists (logstoreTTL lifeCycle), (logstoreShardCount shardCount).
  pose proof (clamped_arguments shardCount lifeCycle project logstore None)
    as Hclamped.
  unfold clamped in Hclamped. cbn [call] in Hclamped.
  destruct Hclamped as (H1 & H2 & H3 & _ & H4 & H5).
  assert (exists o rest,
            creates = {| call := CallCreateLogStore project logstore
                                   (logstoreTTL lifeCycle)
                                   (logstoreShardCount shardCount) true 32;
                         outcome := o |} :: rest
            /\ Forall (fun ev => call ev = CallCreateLogStore project logstore
                                             (logstoreTTL lifeCycle)
                                             (logstoreShardCount shardCount)
                                             true 32) rest) as (o & rest & E & Hrest);
    [|exists o, rest; repeat split; assumption].
  subst creates run. unfold makesureLogstoreExist.
  unfold ensureProject in Hproject, Habsent.
  rewrite result_bind in Hproject. rewrite final_bind in Habsent.
  cbn [getWrapper result final fst snd] in Hproject, Habsent.
  unfold checkLogstoreRetry in Habsent.
  destruct (logstoreCacheExists_readOnly project logstore s) as [Hs He].
  rewrite events_bind, He, Hs, Hmiss, Hproduct, Haudit.
  cbn [Z.ltb Z.compare app].
  rewrite events_bind. cbn [getWrapper events result final fst snd app].
  rewrite events_bind.
  match goal with |- context [events (?m s) ++ _] => set (projectStep := m s) in * end.
  assert (callsOf isCreateLogStore (events projectStep) = []) as P1.
  { apply callsOf_none. subst projectStep.
    destruct (bool_decide _);
      match goal with |- Forall _ (events (?m s)) =>
        assert (emits (notCall isCreateLogStore) m) as Hm
          by emits_auto ltac:(reflexivity);
        apply Hm
      end. }
  rewrite callsOf_app, P1, Hproject. cbn [app].
  rewrite events_bind. cbv beta.
  match goal with |- context [events (forRange maxRetry ?b ?l ?st)] =>
    destruct (forRange_retried (CallCheckLogstoreExist project logstore) snd b
                ltac:(attempts_tac) maxRetry l st) as [Hchk _];
    set (checks := forRange maxRetry b l st) in *
  end.
  rewrite callsOf_app, (retried_callsOf isCreateLogStore _ _ _ Hchk).
  cbn [isCreateLogStore app]. cbv zeta. rewrite Habsent.
  rewrite events_bind. cbv beta.
  match goal with |- context [events (forRange maxRetry ?b ?l ?st)] =>
    assert (attempts (CallCreateLogStore project logstore (logstoreTTL lifeCycle)
                        (logstoreShardCount shardCount) true 32) id b) as Hatt;
    [intros ? ?; unfold bind, remote, ret, sleep, addLogstoreCache, getWrapper,
       setWrapper, now, result, final, events; cbn;
     repeat case_match; cbn; (split; [congruence|split; congruence])|];
    destruct (forRange_retried _ id b Hatt maxRetry l st) as [Hcr _];
    set (creating := forRange maxRetry b l st) in *
  end.
  rewrite callsOf_app, (retried_callsOf isCreateLogStore _ _ _ Hcr).
  cbn [isCreateLogStore].
  match goal with |- context [callsOf isCreateLogStore (events (?m (final creating)))] =>
    assert (callsOf isCreateLogStore (events (m (final creating))) = []) as ->;
    [apply callsOf_none;
     assert (emits (notCall isCreateLogStore) m) as Hm
       by (repeat emits_step; reflexivity);
     apply Hm|]
  end.
  rewrite app_nil_r.
  destruct Hcr as (Hall & _ & Hnil & _).
  destruct (events creating) as [|ev evs]; [exfalso; apply Hpos, Hnil; reflexivity|].
  exists (outcome ev), evs. inversion Hall as [|? ? Hev Hevs]; subst.
  split; [|exact Hevs]. destruct ev as [c o]. cbn in Hev |- *. rewrite Hev.
  reflexivity.
Qed.

(** X14. Once [makesureLogstoreExist] has called [CreateLogStore], its result
    is the outcome of the last such call.  After a failed creation it never
    calls [CreateIndex]; after a successful one it retries [CreateIndex], and
    whatever [CreateIndex] answers, the result is no error. *)
Theorem index_creation_failure_is_not_fatal
    (config : AliyunLogConfigSpec) project logstore (shardCount lifeCycle : Z)
    product lang s :
  let run := makesureLogstoreExist config project logstore shardCount lifeCycle
               product lang s in
  let creates := callsOf isCreateLogStore (events run) in
  let indexes := callsOf isCreateIndex (events run) in
  (indexes <> [] -> result run = None)
  /\ (creates <> [] ->
      result run = lastOutcome None creates
      /\ (Forall failed creates ->
          length creates = maxRetry /\ result run <> None /\ indexes = [])
      /\ (result run = None ->
          retried (CallCreateIndex project logstore createDefaultK8SIndex)
            maxRetry indexes
          /\ indexes <> [])).
Proof.
  intros run creates indexes.
  destruct (makesureLogstoreExist_run config project logstore shardCount lifeCycle
              product lang s) as [[Hc Hi]|(Hr & Hres & Hok & Hfail)];
    fold run in Hc, Hi || fold run in Hr, Hres, Hok, Hfail;
    fold creates indexes in Hc, Hi || fold creates indexes in Hr, Hres, Hok, Hfail.
  - split; [intros H; contradiction|intros H; contradiction].
  - split.
    + intros Hne. destruct (result run) as [e|] eqn:E; [|reflexivity].
      exfalso. apply Hne, Hfail. discriminate.
    + intros Hne. split; [exact Hres|]. split.
      * intros Hall. split; [exact (retried_all_failed _ _ _ Hr Hne Hall)|].
        destruct (retried_last _ _ _ Hr Hne) as (pre & ev & E).
        assert (result run <> None) as Hnot.
        { rewrite Hres, E, lastOutcome_snoc. rewrite E in Hall.
          apply Forall_app in Hall as [_ Hev]. exact (Forall_inv Hev). }
        split; [exact Hnot|exact (Hfail Hnot)].
      * intros Hnone. split; [exact (Hok Hnone)|].
        intros Hnil. destruct (Hok Hnone) as (_ & _ & Hz & _).
        specialize (Hz Hnil). destruct Hr as (_ & Hlen & _). rewrite Hz in Hlen.
        apply Hne. apply length_zero_iff_nil. lia.
Qed.

End LogstoreCreation.

(** C6 at 15 shards and no life cycle, the logstore absent: [CreateLogStore]
    is called, for 10 shards and 180 days. *)
Lemma create_logstore_shard_and_ttl_clamped_witness :
  exists o rest,
    callsOf isCreateLogStore
      (events (makesureLogstoreExist (logClient := mockClient noFault boom)
                 (platform := mockPlatform noFault boom)
                 appConfig "k8s-log" "app-log" 15 0 "" "" (freshState 0)))
    = {| call := CallCreateLogStore "k8s-log" "app-log" 180 10 true 32;
         outcome := o |} :: rest.
Proof.
  destruct (create_logstore_shard_and_ttl_clamped
              (logClient := mockClient noFault boom)
              (platform := mockPlatform noFault boom) (flags := mockFlags)
              appConfig "k8s-log" "app-log" 15 0 "" "" (freshState 0))
    as [_ Hcreates].
  destruct Hcreates
    as (ttl & shardCnt & o & rest & E & _ & _ & Hten & _ & Hdefault & _).
  - vm_compute. discriminate.
  - vm_compute. reflexivity.
  - reflexivity.
  - reflexivity.
  - vm_compute. reflexivity.
  - vm_compute. reflexivity.
  - exists o, rest. rewrite E, (Hten ltac:(lia)), (Hdefault ltac:(lia)).
    reflexivity.
Defined.

(** *** What a computation does to the wrapper *)

Section Keeping.

Context {W : Type} {logClient : ClientInterface W} {platform : Platform W}
  {flags : Flags}.

Implicit Types (s : State W) (R : operationWrapper -> operationWrapper -> Prop).

Lemma keepsIf_ret {A} (Q : A -> operationWrapper -> operationWrapper -> Prop)
    (a : A) :
  (forall o, Q a o o) -> keepsIf (W := W) Q (ret a).
Proof. intros H s. apply H. Qed.

Lemma keepsIf_bind {A B} R
    (Q : B -> operationWrapper -> operationWrapper -> Prop)
    (m : M W A) (f : A -> M W B) :
  keeps R m -> (forall a, keepsIf Q (f a)) ->
  (forall b o o1 o2, R o o1 -> Q b o1 o2 -> Q b o o2) ->
  keepsIf Q (bind m f).
Proof.
  intros Hm Hf Hcomp s. unfold keepsIf. rewrite result_bind, final_bind.
  eapply Hcomp; [apply Hm|apply Hf].
Qed.

Lemma keeps_ret {A} R (a : A) : PreOrder R -> keeps (W := W) R (ret a).
Proof. intros HR s. cbn. reflexivity. Qed.

Lemma keeps_bind {A B} R (m : M W A) (f : A -> M W B) :
  PreOrder R -> keeps R m -> (forall a, keeps R (f a)) -> keeps R (bind m f).
Proof.
  intros HR Hm Hf. apply (keepsIf_bind R); [exact Hm|exact Hf|].
  intros _ o o1 o2 H1 H2. etransitivity; eassumption.
Qed.

Lemma keeps_remote {A} R c (errOf : A -> option error) (op : W -> A * W) :
  PreOrder R -> keeps R (remote c errOf op).
Proof. intros HR s. cbn. reflexivity. Qed.

Lemma keeps_unrecorded {A} R (op : W -> A * W) :
  PreOrder R -> keeps R (unrecorded op).
Proof. intros HR s. cbn. reflexivity. Qed.

Lemma keeps_sleep R d : PreOrder R -> keeps R (sleep d).
Proof. intros HR s. cbn. reflexivity. Qed.

Lemma keeps_getWrapper R : PreOrder R -> keeps (W := W) R getWrapper.
Proof. intros HR s. cbn. reflexivity. Qed.

Lemma keeps_readOnly {A} R (m : M W A) : PreOrder R -> readOnly m -> keeps R m.
Proof. intros HR Hm s. unfold keepsIf. rewrite (proj1 (Hm s)). reflexivity. Qed.

Lemma keeps_forRange {L} R n (body : L -> M W (L * Control)) l :
  PreOrder R -> (forall l, keeps R (body l)) -> keeps R (forRange n body l).
Proof.
  intros HR H. revert l. induction n as [|n IH]; intros l; cbn [forRange].
  - apply keeps_ret, HR.
  - apply keeps_bind; [exact HR|apply H|]. intros r.
    destruct r.2; [apply IH|apply keeps_ret, HR].
Qed.

Lemma keeps_addLogstoreCache R project logstore :
  (forall o t,
     R o {| Wrapper.project := Wrapper.project o;
            logstoreCacheMap := <[cacheKey project logstore := t]> (logstoreCacheMap o);
            configCacheMap := configCacheMap o |}) ->
  keeps R (addLogstoreCache project logstore).
Proof. intros H s. cbn. apply H. Qed.

Lemma keeps_addConfigCache R project config :
  (forall o t,
     R o {| Wrapper.project := Wrapper.project o;
            logstoreCacheMap := logstoreCacheMap o;
            configCacheMap := <[cacheKey project config := t]> (configCacheMap o) |}) ->
  keeps R (addConfigCache project config).
Proof. intros H s. cbn. apply H. Qed.

Lemma keeps_removeConfigCache R project config :
  (forall o,
     R o {| Wrapper.project := Wrapper.project o;
            logstoreCacheMap := logstoreCacheMap o;
            configCacheMap := delete (cacheKey project config) (configCacheMap o) |}) ->
  keeps (W := W) R (removeConfigCache project config).
Proof. intros H s. cbn. apply H. Qed.

Lemma onlyKey_refl k m : onlyKey k m m.
Proof. split; auto. Qed.

Lemma onlyKey_trans k m1 m2 m3 : onlyKey k m1 m2 -> onlyKey k m2 m3 -> onlyKey k m1 m3.
Proof.
  intros [H1 S1] [H2 S2]. split; [|auto].
  intros k' Hk. rewrite (H2 k' Hk). apply H1, Hk.
Qed.

Lemma onlyKey_insert k t m : onlyKey k m (<[k := t]> m).
Proof.
  split.
  - intros k' Hk. apply lookup_insert_ne. congruence.
  - intros _. rewrite lookup_insert_eq. eauto.
Qed.

Lemma confined_preorder k1 k2 : PreOrder (confined k1 k2).
Proof.
  split.
  - intros o. split; [reflexivity|]. split; apply onlyKey_refl.
  - intros o1 o2 o3 (P1 & L1 & C1) (P2 & L2 & C2). split; [congruence|].
    split; eapply onlyKey_trans; eassumption.
Qed.

Lemma sameConfigCache_preorder :
  PreOrder (fun o o' : operationWrapper => configCacheMap o' = configCacheMap o).
Proof. split; [intros o; reflexivity|intros o1 o2 o3 H1 H2; congruence]. Qed.

End Keeping.

(** One structural step of a proof that a computation keeps a relation on
    the wrapper; the writes to the caches are left to the caller. *)
Ltac keeps_step HR :=
  lazymatch goal with
  | |- keeps _ (ret _) => apply keeps_ret, HR
  | |- keeps _ (bind _ _) => apply keeps_bind; [exact HR| |intros ?]
  | |- keeps _ (forRange _ _ _) => apply keeps_forRange; [exact HR|intros ?]
  | |- keeps _ (remote _ _ _) => apply keeps_remote, HR
  | |- keeps _ (unrecorded _) => apply keeps_unrecorded, HR
  | |- keeps _ (sleep _) => apply keeps_sleep, HR
  | |- keeps _ getWrapper => apply keeps_getWrapper, HR
  | |- keeps _ (logstoreCacheExists _ _) =>
      apply keeps_readOnly; [exact HR|apply logstoreCacheExists_readOnly]
  | |- keeps _ (configCacheExists _ _) =>
      apply keeps_readOnly; [exact HR|apply configCacheExists_readOnly]
  | |- keeps _ (addLogstoreCache _ _) => apply keeps_addLogstoreCache; intros ? ?
  | |- keeps _ (addConfigCache _ _) => apply keeps_addConfigCache; intros ? ?
  | |- keeps _ (removeConfigCache _ _) => apply keeps_removeConfigCache; intros ?
  | |- keeps _ _ => case_match
  end.

Ltac unfold_steps :=
  unfold updateConfig, createConfig, applyToMachineGroup, createOrUpdateConfig,
    createConfigRetry, updateExistingConfig, patchFileConfig, updateConfigRetry,
    getConfigRetry, makesureMachineGroupExist, makesureLogstoreExist,
    makesureProjectExist, createProductLogstore;
  cbv beta zeta.

Ltac keeps_auto HR leaf := unfold_steps; repeat keeps_step HR; leaf.

Section PassAndWrapper.

Context {W : Type} {logClient : ClientInterface W} {platform : Platform W}
  {flags : Flags}.

Implicit Types (s : State W) (config : AliyunLogConfigSpec).

(** X15. A pass leaves the wrapper's project as it is and touches the caches
    at two keys only, that of its logstore and that of its config, where it
    may enter or refresh an entry but never drops one. *)
Theorem pass_touches_only_its_own_cache_keys config s :
  let project := targetProject (wrapper s) config in
  confined (cacheKey project (Logstore config))
    (cacheKey project (ConfigName (Detail config)))
    (wrapper s) (wrapper (final (updateConfigInner config s))).
Proof.
  intros project. unfold updateConfigInner. rewrite final_bind.
  cbn [getWrapper result final fst snd]. fold project. clearbody project.
  match goal with |- ?R (wrapper s) (wrapper (final (?m s))) =>
    revert s; change (keeps R m)
  end.
  pose proof (confined_preorder (cacheKey project (Logstore config))
                (cacheKey project (ConfigName (Detail config)))) as HR.
  keeps_auto HR ltac:(idtac).
  all: split; [reflexivity|]; split;
    first [apply onlyKey_insert|apply onlyKey_refl].
Qed.

Lemma keepsIf_addConfigCache_ret
    (Q : option error -> operationWrapper -> operationWrapper -> Prop)
    (project name : string) :
  (forall o t,
     Q None o {| Wrapper.project := Wrapper.project o;
                 logstoreCacheMap := logstoreCacheMap o;
                 configCacheMap := <[cacheKey project name := t]> (configCacheMap o) |}) ->
  keepsIf Q (bind (addConfigCache project name) (fun _ => ret None)).
Proof. intros H s. cbn. apply H. Qed.

(** X16. A pass enters its config in the config cache exactly when it returns
    no error: after a pass without error the key of the config holds an
    entry, and after a pass with an error the config cache is what it was. *)
Theorem pass_records_its_config_on_success_only config s :
  let project := targetProject (wrapper s) config in
  let run := updateConfigInner config s in
  (result run = None ->
   is_Some (configCacheMap (wrapper (final run))
              !! cacheKey project (ConfigName (Detail config))))
  /\ (result run <> None ->
      configCacheMap (wrapper (final run)) = configCacheMap (wrapper s)).
Proof.
  intros project run. subst run. unfold updateConfigInner.
  rewrite final_bind, result_bind.
  cbn [getWrapper result final fst snd]. fold project. clearbody project.
  set (Q := fun (b : option error) (o o' : operationWrapper) =>
              (b = None ->
               is_Some (configCacheMap o'
                          !! cacheKey project (ConfigName (Detail config))))
              /\ (b <> None -> configCacheMap o' = configCacheMap o)).
  match goal with |- (result (?m s) = None -> _) /\ _ =>
    change (Q (result (m s)) (wrapper s) (wrapper (final (m s))));
    revert s; change (keepsIf Q m)
  end.
  pose proof sameConfigCache_preorder as HR.
  assert (forall b o o1 o2,
            configCacheMap o1 = configCacheMap o -> Q b o1 o2 -> Q b o o2) as Hcomp.
  { intros b o o1 o2 E [H1 H2]. split; [exact H1|]. intros Hb. rewrite (H2 Hb). exact E. }
  assert (forall e o, Q (Some e) o o) as Hfail.
  { intros e o. split; [discriminate|reflexivity]. }
  unfold_steps.
  repeat lazymatch goal with
    | |- keepsIf _ (ret (Some _)) => apply keepsIf_ret; intros ?; apply Hfail
    | |- keepsIf _ (bind (addConfigCache _ _) _) =>
        apply keepsIf_addConfigCache_ret; intros ? ?;
        (split; [intros _; cbn; rewrite lookup_insert_eq; eauto|congruence])
    | |- keepsIf _ (bind _ _) =>
        eapply (keepsIf_bind
                  (fun o o' : operationWrapper => configCacheMap o' = configCacheMap o));
        [keeps_auto HR ltac:(try reflexivity)|intros ?|exact Hcomp]
    | |- keepsIf _ _ => case_match
    end.
Qed.

(** Every result of [m] that goes on to [f] satisfies a condition [f] needs. *)
Lemma returns_bind_with {A B} (Q1 : A -> Prop) (Q : B -> Prop)
    (m : M W A) (f : A -> M W B) :
  returns Q1 m -> (forall a, Q1 a -> returns Q (f a)) -> returns Q (bind m f).
Proof. intros Hm Hf s. rewrite result_bind. apply Hf, Hm. Qed.

Lemma returns_bind {A B} (Q : B -> Prop) (m : M W A) (f : A -> M W B) :
  (forall a, returns Q (f a)) -> returns Q (bind m f).
Proof. intros Hf s. rewrite result_bind. apply Hf. Qed.

Lemma returns_ret {A} (Q : A -> Prop) (a : A) : Q a -> returns (W := W) Q (ret a).
Proof. intros H s. exact H. Qed.

Lemma passError_Errorf configName stage detail :
  In stage ["Create logconfig error when update config, config : ";
            "UpdateConfig error, config : ";
            "GetAppliedMachineGroups error, config : ";
            "ApplyConfigToMachineGroup error, config : "] ->
  passError configName (Errorf (stage +:+ configName +:+ detail)).
Proof. intros H. split; [reflexivity|]. exists stage, detail. auto. Qed.

(** X17. Every error a pass returns is a plain error, not one of the SDK with
    a code to inspect, and its text is one of four stage prefixes followed by
    the config name and a detail. *)
Theorem pass_errors_name_the_stage_and_the_config config s (e : error) :
  result (updateConfigInner config s) = Some e ->
  passError (ConfigName (Detail config)) e.
Proof.
  revert e. revert s.
  change (returns (fun r => forall e, r = Some e ->
                     passError (ConfigName (Detail config)) e)
            (updateConfigInner config)).
  unfold updateConfigInner. apply returns_bind. intros o.
  apply returns_bind. intros err. destruct err as [e0|].
  { apply returns_ret. intros e [= <-]. apply passError_Errorf. cbn. tauto. }
  apply returns_bind. intros fetched. apply returns_bind. intros err.
  destruct err as [e0|].
  { apply returns_ret. intros e [= <-]. apply passError_Errorf. cbn. tauto. }
  unfold applyToMachineGroup. cbv zeta. apply returns_bind. intros _.
  apply (returns_bind_with
           (fun c : error + bool =>
              forall e, c = inl e -> passError (ConfigName (Detail config)) e)).
  - destruct fetched.1.1.
    + apply returns_bind. intros r. destruct r.2 as [e0|]; apply returns_ret.
      * intros e [= <-]. apply passError_Errorf. cbn. tauto.
      * discriminate.
    + apply returns_ret. discriminate.
  - intros [e0|b] Hchecked.
    + apply returns_ret. intros e [= <-]. apply Hchecked. reflexivity.
    + apply returns_bind. intros err. destruct err as [e0|].
      * apply returns_ret. intros e [= <-]. apply passError_Errorf. cbn. tauto.
      * apply returns_bind. intros _. apply returns_ret. discriminate.
Qed.

End PassAndWrapper.

(** X17 on a pass whose three creations of the config fail. *)
Lemma pass_errors_name_the_stage_and_the_config_witness :
  passError "app-config" (Errorf "UpdateConfig error, config : app-config, error : boom").
Proof.
  apply (pass_errors_name_the_stage_and_the_config
           (logClient := mockClient isCreateConfig boom)
           (platform := mockPlatform isCreateConfig boom) (flags := mockFlags)
           appConfig (freshState 3)).
  vm_compute. reflexivity.
Defined.

Section OtherOperationsProperties.

Context {W : Type} {logClient : ClientInterface W} {platform : Platform W}
  {flags : Flags} {deletion : ConfigDeletion W}.

Implicit Types (s : State W) (project logstore : string).

(** X18. [retryCreateIndex] calls [CreateIndex], with the default index, at
    most ten times: it stops at the first call that succeeds or that fails
    with the code "IndexAlreadyExist", and makes all ten calls otherwise.  It
    leaves the wrapper as it is. *)
Theorem retryCreateIndex_stops_on_success_or_existing_index project logstore s :
  retriedUntil
    (fun o => match o with
              | None => true
              | Some e => hasSlsCode "IndexAlreadyExist" e
              end)
    (CallCreateIndex project logstore createDefaultK8SIndex) 10
    (events (retryCreateIndex project logstore s))
  /\ wrapper (final (retryCreateIndex project logstore s)) = wrapper s.
Proof.
  split.
  - unfold retryCreateIndex. rewrite events_bind. cbn [sleep events app].
    cbv zeta beta.
    apply forRange_retriedUntil. intros l st.
    unfold bind, remote, ret, sleep, result, final, events; cbn.
    destruct (CreateIndex project logstore createDefaultK8SIndex (world st)).1
      as [e|] eqn:E; cbn.
    + destruct (hasSlsCode "IndexAlreadyExist" e) eqn:Hcode; cbn;
        eexists; (split; [reflexivity|]); cbn; rewrite Hcode; split; congruence.
    + eexists. split; [reflexivity|]. cbn. split; reflexivity.
  - revert s.
    change (keeps (fun o o' => o' = o) (retryCreateIndex project logstore)).
    assert (PreOrder (fun o o' : operationWrapper => o' = o)) as HR
      by (split; [intros o; reflexivity|intros o1 o2 o3 H1 H2; congruence]).
    unfold retryCreateIndex. cbv zeta. repeat keeps_step HR.
Qed.

(** The wrapper once the config [name] of [project] is removed from the
    config cache. *)
Lemma deleteConfig_loop (projectName configName : string) (n : nat) body err0 s :
  body = (fun _ : option error * bool =>
         do err <- unrecorded (DeleteConfig projectName configName);
         match err with
         | None => removeConfigCache projectName configName;; ret ((err, true), Break)
         | Some e =>
             if hasHTTPCode 404 e
             then removeConfigCache projectName configName;; ret ((err, true), Break)
             else sleep (Duration_mul Millisecond 100);; ret ((err, false), Continue)
         end) ->
  let r := forRange n body (err0, false) s in
  ((result r).2 = true
   /\ wrapper (final r)
      = {| Wrapper.project := Wrapper.project (wrapper s);
           logstoreCacheMap := logstoreCacheMap (wrapper s);
           configCacheMap :=
             delete (cacheKey projectName configName) (configCacheMap (wrapper s)) |})
  \/ ((result r).2 = false
      /\ wrapper (final r) = wrapper s
      /\ (n = O -> (result r).1 = err0 /\ final r = s)
      /\ (n <> O -> (result r).1 <> None)
      /\ (n <> O ->
          ~ (forall w, match (DeleteConfig projectName configName w).1 with
                       | None => True
                       | Some e => hasHTTPCode 404 e = true
                       end))).
Proof.
  intros Hbody. revert err0 s. induction n as [|n IH]; intros err0 s r; subst r.
  - right. cbn. repeat split; try reflexivity; intros H; contradiction.
  - rewrite forRange_S. cbv zeta.
    destruct (DeleteConfig projectName configName (world s)).1 as [e|] eqn:Herr.
    + destruct (hasHTTPCode 404 e) eqn:Hcode.
      * assert (body (err0, false) s
                = ((Some e, true, Break),
                   {| wrapper :=
                        {| Wrapper.project := Wrapper.project (wrapper s);
                           logstoreCacheMap := logstoreCacheMap (wrapper s);
                           configCacheMap :=
                             delete (cacheKey projectName configName)
                               (configCacheMap (wrapper s)) |};
                      world := (DeleteConfig projectName configName (world s)).2 |},
                   [])) as ->.
        { rewrite Hbody. unfold bind, unrecorded, removeConfigCache, getWrapper,
            setWrapper, ret, result, final, events; cbn. rewrite Herr. cbn.
          rewrite Hcode. reflexivity. }
        left. split; reflexivity.
      * assert (result (body (err0, false) s) = ((Some e, false), Continue)
                /\ wrapper (final (body (err0, false) s)) = wrapper s) as [Hres Hw].
        { rewrite Hbody. unfold bind, unrecorded, sleep, ret, result, final, events;
            cbn. rewrite Herr. cbn. rewrite Hcode. split; reflexivity. }
        rewrite Hres. cbn [fst snd].
        specialize (IH (Some e) (final (body (err0, false) s))). cbv zeta in IH.
        set (r' := forRange n body (Some e, false) (final (body (err0, false) s))) in *.
        change (result (result r', final r', events (body (err0, false) s) ++ events r'))
          with (result r').
        change (final (result r', final r', events (body (err0, false) s) ++ events r'))
          with (final r').
        rewrite Hw in IH.
        destruct IH as [[H1 H2]|(H1 & H2 & H3 & H4 & H5)].
        -- left. split; assumption.
        -- right. split; [exact H1|]. split; [exact H2|]. split; [discriminate|].
           split.
           ++ intros _. destruct n as [|n]; [|apply H4; discriminate].
              destruct (H3 eq_refl) as [-> _]. discriminate.
           ++ intros _ Hall. specialize (Hall (world s)). rewrite Herr in Hall.
              congruence.
    + assert (body (err0, false) s
              = ((None, true, Break),
                 {| wrapper :=
                      {| Wrapper.project := Wrapper.project (wrapper s);
                         logstoreCacheMap := logstoreCacheMap (wrapper s);
                         configCacheMap :=
                           delete (cacheKey projectName configName)
                             (configCacheMap (wrapper s)) |};
                    world := (DeleteConfig projectName configName (world s)).2 |},
                 [])) as ->.
      { rewrite Hbody. unfold bind, unrecorded, removeConfigCache, getWrapper,
          setWrapper, ret, result, final, events; cbn. rewrite Herr. reflexivity. }
      left. split; reflexivity.
Qed.

(** X19. [deleteConfig] and the config cache.  When it returns no error under
    a positive retry bound, the config is out of the cache and the rest of the
    wrapper is as it was; when it returns an error, the wrapper is as it was
    and the error is a plain one, "DeleteConfig error" with the config name;
    under a retry bound of zero it returns no error and does nothing.  When
    the remote side answers every deletion by a success or by the status 404,
    it returns no error. *)
Theorem deleteConfig_and_the_config_cache (checkpoint : CheckPoint.configCheckPoint) s :
  let projectName := CheckPoint.ProjectName checkpoint in
  let configName := CheckPoint.ConfigName checkpoint in
  let run := deleteConfig checkpoint s in
  (maxRetry <> O -> result run = None ->
   wrapper (final run)
   = {| Wrapper.project := Wrapper.project (wrapper s);
        logstoreCacheMap := logstoreCacheMap (wrapper s);
        configCacheMap :=
          delete (cacheKey projectName configName) (configCacheMap (wrapper s)) |})
  /\ (forall e, result run = Some e ->
      wrapper (final run) = wrapper s
      /\ slsError e = None
      /\ exists detail,
           errorText e = "DeleteConfig error, config : " +:+ configName +:+ detail)
  /\ (maxRetry = O -> result run = None /\ final run = s)
  /\ ((forall w, match (DeleteConfig projectName configName w).1 with
                 | None => True
                 | Some e => hasHTTPCode 404 e = true
                 end) ->
      result run = None).
Proof.
  intros projectName configName run. subst run. unfold deleteConfig.
  fold projectName configName. cbv zeta.
  rewrite result_bind, final_bind. cbv beta.
  match goal with |- context [forRange maxRetry ?b ?l s] =>
    pose proof (deleteConfig_loop projectName configName maxRetry b None s eq_refl)
      as Hloop; cbv zeta in Hloop;
    set (loop := forRange maxRetry b l s) in *
  end.
  destruct Hloop as [[Hret Hw]|(Hret & Hw & Hzero & Hpos & Hnot)]; rewrite Hret.
  - cbn [ret result final fst snd]. split; [intros _ _; exact Hw|].
    split; [discriminate|]. split; [|reflexivity].
    intros Hz. exfalso. subst loop. rewrite Hz in Hret. discriminate.
  - destruct (result loop).1 as [e0|] eqn:Herr; cbn [ret result final fst snd].
    + split; [discriminate|]. split.
      * intros e [= <-]. split; [exact Hw|]. split; [reflexivity|]. eauto.
      * split.
        -- intros Hz. destruct (Hzero Hz) as [E _]. discriminate.
        -- intros Hall. exfalso. destruct (Nat.eq_dec maxRetry 0%nat) as [Hz|Hnz].
           ++ destruct (Hzero Hz) as [E _]. discriminate.
           ++ apply (Hnot Hnz). exact Hall.
    + split; [intros Hnz; exfalso; apply (Hpos Hnz); reflexivity|].
      split; [discriminate|]. split; [|reflexivity].
      intros Hz. split; [reflexivity|]. apply (Hzero Hz).
Qed.

Lemma lastOutcome_app init init' (evs1 evs2 : list Event) :
  evs2 <> [] -> lastOutcome init (evs1 ++ evs2) = lastOutcome init' evs2.
Proof.
  intros Hne. destruct (exists_last Hne) as (pre & ev & ->).
  rewrite app_assoc, !lastOutcome_snoc. reflexivity.
Qed.

(** A retry that ended on a failure: as many calls as the bound, all failed. *)
Lemma retried_failure c n evs e :
  retried c n evs -> lastOutcome None evs = Some e ->
  length evs = n /\ Forall failed evs.
Proof.
  intros Hr Hlast. assert (evs <> []) as Hne by (intros ->; discriminate).
  destruct (retried_last _ _ _ Hr Hne) as (pre & ev & ->).
  rewrite lastOutcome_snoc in Hlast.
  destruct Hr as (_ & _ & _ & Hr). destruct (Hr pre ev eq_refl) as [Hpre Hn].
  assert (failed ev) as Hev by (unfold failed; congruence).
  split; [apply Hn; exact Hev|].
  apply Forall_app. split; [exact Hpre|]. constructor; [exact Hev|constructor].
Qed.

(** The [CreateProject] calls of [makesureProjectExist] are at most as many as
    the retry bound. *)
Lemma makesureProjectExist_creates_bound (config : option AliyunLogConfigSpec)
    project s :
  (length (callsOf isCreateProject (events (makesureProjectExist config project s)))
   <= maxRetry)%nat.
Proof.
  unfold makesureProjectExist.
  set (description := "k8s log project, created by alibaba cloud log controller").
  rewrite events_bind, callsOf_app. cbv zeta.
  match goal with |- context [events (forRange maxRetry ?b ?l s)] =>
    destruct (forRange_retried (CallCheckProjectExist project) snd b
                ltac:(attempts_tac) maxRetry l s) as [Hchk _];
    set (checks := forRange maxRetry b l s) in *
  end.
  rewrite (retried_callsOf isCreateProject _ _ _ Hchk). cbn [isCreateProject app].
  destruct (result checks).1; [cbn; lia|].
  match goal with |- context [events (forRange maxRetry ?b ?l ?st)] =>
    destruct (forRange_retried
                (CallCreateProject project description)
                id b ltac:(attempts_tac) maxRetry l st) as [Hcr _]
  end.
  rewrite (retried_callsOf isCreateProject _ _ _ Hcr). cbn [isCreateProject].
  apply Hcr.
Qed.

(** Rounds of an operation [m] that retries a creation call by itself, each
    failed round followed by a sleep: an error after the rounds means that
    every round used up its retries. *)
Lemma rounds_of_creation (kind : Call -> bool) c (m : M W (option error)) d
    body (n : nat) err0 s :
  (forall s, let creates := callsOf kind (events (m s)) in
     result (m s) = lastOutcome None creates
     /\ (creates <> [] -> retried c maxRetry creates)) ->
  body = (fun _ : option error =>
            do err <- m;
            match err with
            | None => ret (err, Break)
            | Some _ => sleep d;; ret (err, Continue)
            end) ->
  let r := forRange n body err0 s in
  let creates := callsOf kind (events r) in
  (length creates <= n * maxRetry)%nat
  /\ (n = O -> result r = err0)
  /\ (forall e, n <> O -> result r = Some e ->
      length creates = (n * maxRetry)%nat /\ Forall failed creates
      /\ lastOutcome None creates = Some e).
Proof.
  intros Hm Hbody. revert err0 s. induction n as [|n IH]; intros err0 s r creates;
    subst creates r.
  - cbn. split; [lia|]. split; [reflexivity|]. intros e H. contradiction.
  - rewrite forRange_S. cbv zeta.
    destruct (Hm s) as [Hres Hretried]. cbv zeta in Hres, Hretried.
    assert (events (body err0 s) = events (m s)) as Hev.
    { rewrite Hbody. rewrite events_bind.
      destruct (result (m s)); cbn; rewrite app_nil_r; reflexivity. }
    assert (result (body err0 s)
            = (result (m s),
               match result (m s) with Some _ => Continue | None => Break end))
      as Hr.
    { rewrite Hbody. rewrite result_bind. destruct (result (m s)); reflexivity. }
    assert (length (callsOf kind (events (m s))) <= maxRetry)%nat as Hlen.
    { destruct (callsOf kind (events (m s))) as [|ev evs] eqn:E; [cbn; lia|].
      apply Hretried. discriminate. }
    rewrite Hr. cbn [fst snd].
    destruct (result (m s)) as [e1|] eqn:Hres1.
    + specialize (IH (Some e1) (final (body err0 s))). cbv zeta in IH.
      set (r' := forRange n body (Some e1) (final (body err0 s))) in *.
      change (events (result r', final r', events (body err0 s) ++ events r'))
        with (events (body err0 s) ++ events r').
      change (result (result r', final r', events (body err0 s) ++ events r'))
        with (result r').
      rewrite Hev, callsOf_app, length_app.
      destruct IH as (Hlen' & Hzero & Hfail).
      assert (callsOf kind (events (m s)) <> []) as Hne.
      { intros E. rewrite E in Hres. discriminate. }
      destruct (retried_failure _ _ _ e1 (Hretried Hne) (eq_sym Hres))
        as [Hfull Hall].
      split; [lia|]. split; [discriminate|].
      intros e _ He. destruct n as [|n].
      * assert (events r' = []) as -> by reflexivity.
        rewrite (Hzero eq_refl) in He. injection He as <-.
        cbn [callsOf List.filter length]. rewrite app_nil_r.
        split; [lia|]. split; [exact Hall|]. symmetry. exact Hres.
      * destruct (Hfail e ltac:(discriminate) He) as (Hn & Hall' & Hlast).
        split; [lia|]. split; [apply Forall_app; split; assumption|].
        rewrite (lastOutcome_app None None); [exact Hlast|].
        intros E. rewrite E in Hlast. discriminate.
    + change (events (None (A := error), final (body err0 s), events (body err0 s)))
        with (events (body err0 s)).
      change (result (None (A := error), final (body err0 s), events (body err0 s)))
        with (None (A := error)).
      rewrite Hev. split; [lia|]. split; [discriminate|]. discriminate.
Qed.

(** X20. [createAliyunLogOperationWrapper], the client being built.  It fails
    only on the default machine group: it returns an error only after three
    rounds of [makesureMachineGroupExist] that each used up the retry bound on
    failed [CreateMachineGroup] calls, and the error is that of the last such
    call; otherwise it returns a wrapper of the given project with two empty
    caches.  A failure to create the project is not returned, and the
    [CreateProject] calls are at most as many as the retry bound. *)
Theorem construction_fails_only_on_the_machine_group project (w : W) :
  let r := createAliyunLogOperationWrapper None project w in
  let creates := callsOf isCreateMachineGroup r.2 in
  (length (callsOf isCreateProject r.2) <= maxRetry)%nat
  /\ (length creates <= 3 * maxRetry)%nat
  /\ match r.1.1 with
     | (Some o, None) =>
         o = {| Wrapper.project := project; logstoreCacheMap := ∅;
                configCacheMap := ∅ |}
     | (None, Some e) =>
         length creates = (3 * maxRetry)%nat /\ Forall failed creates
         /\ lastOutcome None creates = Some e
     | _ => False
     end.
Proof.
  intros r creates. subst creates r. unfold createAliyunLogOperationWrapper.
  cbv zeta.
  set (s0 := {| wrapper := {| Wrapper.project := project; logstoreCacheMap := ∅;
                              configCacheMap := ∅ |}; world := w |}).
  match goal with |- context [bind ?m ?f s0] =>
    set (first := m) in *; set (second := f) in *
  end.
  assert (forall run : option error * State W * list Event,
            (match result run with
             | Some e => ((None (A := operationWrapper), Some e), world (final run),
                          events run)
             | None => ((Some (wrapper s0), None), world (final run), events run)
             end).2 = events run) as Hev2.
  { intros run. destruct (result run); reflexivity. }
  change {| Wrapper.project := project; logstoreCacheMap := ∅; configCacheMap := ∅ |}
    with (wrapper s0).
  rewrite Hev2.
  pose proof (events_bind first second s0) as Hev.
  pose proof (result_bind first second s0) as Hres.
  assert (callsOf isCreateMachineGroup (events (first s0)) = []) as Hnone1.
  { apply callsOf_none.
    assert (emits (notCall isCreateMachineGroup) first) as E; [|apply E].
    subst first. emits_auto ltac:(reflexivity). }
  assert (forall l s, callsOf isCreateProject (events (second l s)) = []) as Hnone2.
  { intros l s. apply callsOf_none.
    assert (emits (notCall isCreateProject) (second l)) as E; [|apply E].
    subst second. cbv beta. emits_auto ltac:(reflexivity). }
  assert (length (callsOf isCreateProject (events (first s0))) <= maxRetry)%nat
    as Hproject.
  { subst first. rewrite forRange_S. cbv zeta.
    match goal with |- context [(result ?r).2] => set (round := r) end.
    assert (events round = events (makesureProjectExist None project s0)) as E.
    { subst round. cbv beta. rewrite events_bind.
      destruct (result (makesureProjectExist None project s0)); cbn;
        rewrite app_nil_r; reflexivity. }
    pose proof (makesureProjectExist_creates_bound None project s0) as Hb.
    destruct (result round).2.
    - change (length (callsOf isCreateProject (events round ++ [])) <= maxRetry)%nat.
      rewrite app_nil_r, E. exact Hb.
    - change (length (callsOf isCreateProject (events round)) <= maxRetry)%nat.
      rewrite E. exact Hb. }
  set (l := result (first s0)) in *. set (s1 := final (first s0)) in *.
  match type of Hres with context [second l s1] =>
    match eval cbv beta delta [second] in (second l s1) with
    | forRange ?n ?b _ _ =>
        pose proof (rounds_of_creation isCreateMachineGroup
                      (CallCreateMachineGroup project
                         {| GroupName := DefaultLogMachineGroup;
                            MachineIDType := MachineIDTypeUserDefined;
                            MachineIDList := [DefaultLogMachineGroup] |})
                      (makesureMachineGroupExist project DefaultLogMachineGroup)
                      (Duration_mul Second 30) b 3 l s1) as Hrounds
    end
  end.
  specialize (Hrounds
                ltac:(intros st; cbv zeta; split;
                      [apply makesureMachineGroupExist_result
                      |intros Hne;
                       apply (makesureMachineGroupExist_creates project
                                DefaultLogMachineGroup st Hne)])
                eq_refl).
  cbv zeta in Hrounds.
  change (forRange 3 _ l s1) with (second l s1) in Hrounds.
  destruct Hrounds as (Hlen & _ & Hfail).
  rewrite Hev, Hres, !callsOf_app, Hnone1, Hnone2, app_nil_r. cbn [app].
  split; [exact Hproject|]. split; [exact Hlen|].
  destruct (result (second l s1)) as [e|] eqn:He; cbn [fst snd].
  - apply (Hfail e); [discriminate|reflexivity].
  - reflexivity.
Qed.

End OtherOperationsProperties.

(** X19 on a remote side that answers 404, the config being in the cache. *)
Lemma deleteConfig_and_the_config_cache_witness :
  let s := {| wrapper := {| Wrapper.project := "k8s-log"; logstoreCacheMap := ∅;
                            configCacheMap := {["k8s-log@@app-config" := 7]} |};
              world := freshRemote 1 |} in
  let run := deleteConfig (platform := mockPlatform noFault boom)
               (deletion := mockDeletion 404)
               {| CheckPoint.ProjectName := "k8s-log";
                  CheckPoint.ConfigName := "app-config" |} s in
  result run = None
  /\ configCacheMap (wrapper (final run)) !! "k8s-log@@app-config" = None.
Proof.
  intros s run.
  destruct (deleteConfig_and_the_config_cache
              (platform := mockPlatform noFault boom) (flags := mockFlags)
              (deletion := mockDeletion 404)
              {| CheckPoint.ProjectName := "k8s-log";
                 CheckPoint.ConfigName := "app-config" |} s)
    as (Hremoved & _ & _ & Hnone).
  cbv zeta in Hremoved, Hnone. fold run in Hremoved, Hnone.
  assert (result run = None) as Hres.
  { apply Hnone. intros w. cbn. destruct (faults w); reflexivity. }
  split; [exact Hres|].
  rewrite (Hremoved ltac:(vm_compute; discriminate) Hres). reflexivity.
Defined.

(** With the status 500 on each of the three attempts, the error is returned
    and the cache keeps the entry. *)
Example deleteConfig_failure_example :
  let s := {| wrapper := {| Wrapper.project := "k8s-log"; logstoreCacheMap := ∅;
                            configCacheMap := {["k8s-log@@app-config" := 7]} |};
              world := freshRemote 3 |} in
  let run := deleteConfig (platform := mockPlatform noFault boom)
               (deletion := mockDeletion 500)
               {| CheckPoint.ProjectName := "k8s-log";
                  CheckPoint.ConfigName := "app-config" |} s in
  result run
  = Some (Errorf "DeleteConfig error, config : app-config, error : delete failed")
  /\ configCacheMap (wrapper (final run)) !! "k8s-log@@app-config" = Some 7.
Proof. vm_compute. split; reflexivity. Qed.

(** Three failed [CreateProject] calls do not fail the construction; nine
    failed [CreateMachineGroup] calls do, and eight do not. *)
Example construction_examples :
  let construct faulty n :=
    createAliyunLogOperationWrapper (logClient := mockClient faulty boom)
      (platform := mockPlatform noFault boom) None "new-project" (freshRemote n) in
  let summary (r : (option operationWrapper * option error) * Remote * list Event) :=
    (r.1.1.2, length (callsOf isCreateProject r.2),
     length (callsOf isCreateMachineGroup r.2)) in
  summary (construct isCreateProject 3%nat) = (None, 3%nat, 1%nat)
  /\ summary (construct isCreateMachineGroup 9%nat) = (Some boom, 1%nat, 9%nat)
  /\ summary (construct isCreateMachineGroup 8%nat) = (None, 1%nat, 9%nat).
Proof. vm_compute. repeat split; reflexivity. Qed.

Section LogstoreRecorded.

Context {W : Type} {logClient : ClientInterface W} {platform : Platform W}
  {flags : Flags}.

Implicit Types (s : State W) (project logstore product lang : string).

Lemma logstoreCacheExists_entry project logstore s :
  result (logstoreCacheExists project logstore s) = true ->
  is_Some (logstoreCacheMap (wrapper s) !! cacheKey project logstore).
Proof.
  unfold logstoreCacheExists, bind, getWrapper; cbn.
  destruct (logstoreCacheMap (wrapper s) !! cacheKey project logstore); cbn;
    [eauto|discriminate].
Qed.

Lemma createProductLogstore_caches (config : AliyunLogConfigSpec)
    project logstore product lang s :
  let run := createProductLogstore config project logstore product lang s in
  result run = None ->
  is_Some (logstoreCacheMap (wrapper (final run)) !! cacheKey project logstore).
Proof.
  unfold createProductLogstore, bind, remote, addLogstoreCache, now, getWrapper,
    setWrapper, ret, result, final, events, id; cbn.
  destruct (CreateProductLogstore _ _ _ _ _ _).1; cbn; [discriminate|].
  intros _. rewrite lookup_insert_eq. eauto.
Qed.

(** A creation loop that records the logstore on success: when it ends
    without error, it recorded the logstore, or it made no call. *)
Lemma create_loop_caches c (op : W -> option error * W) d project logstore
    body (n : nat) err0 s :
  body = (fun _ : option error =>
            do err <- remote c id op;
            match err with
            | Some _ => sleep d;; ret (err, Continue)
            | None => addLogstoreCache project logstore;; ret (err, Break)
            end) ->
  let r := forRange n body err0 s in
  result r = None ->
  (n = O /\ err0 = None)
  \/ is_Some (logstoreCacheMap (wrapper (final r)) !! cacheKey project logstore).
Proof.
  intros Hbody. revert err0 s. induction n as [|n IH]; intros err0 s r; subst r.
  - intros H. left. split; [reflexivity|exact H].
  - rewrite forRange_S. cbv zeta. destruct (op (world s)).1 as [e|] eqn:Herr.
    + assert (result (body err0 s) = (Some e, Continue)) as Hr.
      { rewrite Hbody. unfold bind, remote, sleep, ret, result, final, events, id;
          cbn. rewrite Herr. reflexivity. }
      rewrite Hr. cbn [fst snd].
      specialize (IH (Some e) (final (body err0 s))). cbv zeta in IH.
      set (r' := forRange n body (Some e) (final (body err0 s))) in *.
      change (result (result r', final r', events (body err0 s) ++ events r'))
        with (result r').
      change (final (result r', final r', events (body err0 s) ++ events r'))
        with (final r').
      intros H. right. destruct (IH H) as [[_ E]|Hc]; [discriminate|exact Hc].
    + assert (result (body err0 s) = (None, Break)
              /\ is_Some (logstoreCacheMap (wrapper (final (body err0 s)))
                            !! cacheKey project logstore)) as [Hr Hc].
      { rewrite Hbody. unfold bind, remote, addLogstoreCache, now, getWrapper,
          setWrapper, ret, result, final, events, id; cbn. rewrite Herr. cbn.
        split; [reflexivity|]. rewrite lookup_insert_eq. eauto. }
      rewrite Hr. cbn [fst snd]. intros _. right. exact Hc.
Qed.

(** X21. Under a positive retry bound, a [makesureLogstoreExist] that returns
    no error leaves the logstore in the logstore cache, whichever way it went:
    the cache hit, the product logstore, the logstore found, or the logstore
    created. *)
Theorem ensured_logstore_is_recorded (config : AliyunLogConfigSpec)
    project logstore (shardCount lifeCycle : Z) product lang s :
  maxRetry <> O ->
  let run := makesureLogstoreExist config project logstore shardCount lifeCycle
               product lang s in
  result run = None ->
  is_Some (logstoreCacheMap (wrapper (final run)) !! cacheKey project logstore).
Proof.
  intros Hpos run. subst run. unfold makesureLogstoreExist.
  destruct (logstoreCacheExists_readOnly project logstore s) as [Hs He].
  rewrite result_bind, final_bind, Hs.
  destruct (result (logstoreCacheExists project logstore s)) eqn:Hhit.
  { intros _. apply logstoreCacheExists_entry. exact Hhit. }
  destruct (0 <? len product).
  { apply createProductLogstore_caches. }
  destruct (String.prefix "audit-" logstore && (len logstore =? 39)).
  { apply createProductLogstore_caches. }
  rewrite result_bind, final_bind. cbn [getWrapper result final fst snd].
  rewrite result_bind, final_bind.
  match goal with |- context [result (?m s)] => set (projectStep := m s) end.
  destruct (result projectStep) as [e|]; [discriminate|].
  rewrite result_bind, final_bind. cbv beta.
  match goal with |- context [forRange maxRetry ?b ?l ?st] =>
    set (checks := forRange maxRetry b l st)
  end.
  cbv zeta. destruct (result checks).1.
  { intros _. unfold bind, addLogstoreCache, now, getWrapper, setWrapper, ret,
      result, final, events; cbn. rewrite lookup_insert_eq. eauto. }
  rewrite result_bind, final_bind. cbv beta.
  match goal with |- context [forRange maxRetry ?b ?l ?st] =>
    pose proof (create_loop_caches _ _ _ project logstore b maxRetry l st eq_refl)
      as Hloop; cbv zeta in Hloop;
    set (creating := forRange maxRetry b l st) in *
  end.
  destruct (result creating) as [e|]; [discriminate|].
  intros _. destruct (Hloop eq_refl) as [[Hz _]|Hc]; [contradiction|].
  rewrite final_bind. cbn [sleep result final fst snd].
  rewrite final_bind.
  match goal with |- context [forRange maxRetry ?b ?l ?st] =>
    assert (keeps (fun o o' : operationWrapper =>
                     logstoreCacheMap o' = logstoreCacheMap o)
              (forRange maxRetry b l)) as Hkeep;
    [|specialize (Hkeep st); unfold keepsIf in Hkeep; cbn [wrapper] in Hkeep;
      set (indexing := forRange maxRetry b l st) in *]
  end.
  { assert (PreOrder (fun o o' : operationWrapper =>
                        logstoreCacheMap o' = logstoreCacheMap o)) as HR.
    { split; [intros o; reflexivity|intros o1 o2 o3 H1 H2; congruence]. }
    keeps_auto HR ltac:(idtac). }
  cbn [ret result final fst snd]. rewrite Hkeep. exact Hc.
Qed.

End LogstoreRecorded.

(** X21 on an empty control plane: the logstore is created and recorded. *)
Lemma ensured_logstore_is_recorded_witness :
  is_Some (logstoreCacheMap
             (wrapper (final (makesureLogstoreExist
                                (logClient := mockClient noFault boom)
                                (platform := mockPlatform noFault boom)
                                appConfig "k8s-log" "app-log" 2 7 "" ""
                                (freshState 0))))
             !! cacheKey "k8s-log" "app-log").
Proof.
  apply (ensured_logstore_is_recorded (logClient := mockClient noFault boom)
           (platform := mockPlatform noFault boom) (flags := mockFlags)
           appConfig "k8s-log" "app-log" 2 7 "" "" (freshState 0)).
  - vm_compute. discriminate.
  - vm_compute. reflexivity.
Defined.
